(** * EGG 273A potentiostat: the method language and its execution engine

    A shallow embedding of the core of [main_Back.py] (and of the stand-alone
    copy of its parser in [Example.py]): the command splitter, the
    pattern-matching parser of method text, the plan describer, the two
    instrument primitives and the execution task, with the numbering of
    its CSV file; and, of the pages around them, the entries a method
    gets from its inputs and the connection panel.

    Conventions of the embedding.
    - Text is a [string]; the characters the code inspects are all ASCII, and
      a character above 127 is treated as an ordinary non-word character
      that [upper] leaves alone.
    - Python [float] values are exact rationals ([Q]): rounding is outside
      the model.  What is proved of the values a float loop returns, or of
      a quotient the code computes, is proved of these exact values; the
      lemmas on the number of turns of a float loop, and on the steps
      counted for it, hold of this exact reading only.  Python [int]
      values are [Z].
    - The builtins [int(...)], [float(...)] and [str(...)] on entry text are
      parameters of the engine; [int_of_decimal] and [float_of_decimal] are
      the instances used on concrete runs (plain decimal numerals).
    - A Python exception is a value of [exn]; a computation returns a
      [result].  Effects of the task (dialogs, rows written to the CSV file,
      instrument calls, sleeps, progress-bar updates, a few console lines)
      are appended to a trace that survives an exception, as the effects of
      the real run do. *)

From Stdlib Require Import String Ascii List ZArith QArith Qround Qabs Lia Lqa.
From stdpp Require Import base option gmap strings.
Import ListNotations.

Local Open Scope string_scope.
Local Open Scope list_scope.
Local Open Scope Z_scope.

#[local] Arguments String.append _ _ : simpl nomatch.

(** ** Exceptions and results *)

Inductive exn : Type :=
| ValueError (msg : string)
| ZeroDivisionError
| OverflowError
| NameError (name : string)
| UnboundLocalError (name : string)
| AttributeError (msg : string)
| DeviceError (msg : string).

(** [Loops] stands for a [while] loop that is still running when the fuel
    of the model is used up. *)
Inductive result (A : Type) : Type :=
| Ok (a : A)
| Raise (e : exn)
| Loops.
Arguments Ok {A} a.
Arguments Raise {A} e.
Arguments Loops {A}.

Definition rbind {A B} (r : result A) (k : A -> result B) : result B :=
  match r with
  | Ok a => k a
  | Raise e => Raise e
  | Loops => Loops
  end.

Declare Scope result_scope.
Delimit Scope result_scope with result.
Notation "'do' x <- r ; k" := (rbind r (fun x => k))
  (at level 10, x name, r at level 100, k at level 200) : result_scope.
Local Open Scope result_scope.

(** ** Characters and string helpers *)

Definition LF : ascii := "010"%char.

Definition in_range (lo hi c : ascii) : bool :=
  (nat_of_ascii lo <=? nat_of_ascii c)%nat && (nat_of_ascii c <=? nat_of_ascii hi)%nat.

Definition is_lower (c : ascii) : bool := in_range "a" "z" c.
Definition is_upper (c : ascii) : bool := in_range "A" "Z" c.
Definition is_digit (c : ascii) : bool := in_range "0" "9" c.

(** The class [\w] on ASCII (on [str] Python's class also holds the
    letters and digits of other scripts). *)
Definition is_word (c : ascii) : bool :=
  is_lower c || is_upper c || is_digit c || (c =? "_")%char.

(** The class [.] (no DOTALL flag): anything but a line feed. *)
Definition is_dot (c : ascii) : bool := negb (c =? LF)%char.

Definition upper_char (c : ascii) : ascii :=
  if is_lower c then ascii_of_nat (nat_of_ascii c - 32) else c.

(** [str.upper()] *)
Fixpoint upper (s : string) : string :=
  match s with
  | "" => ""
  | String c s' => String (upper_char c) (upper s')
  end.

(** [s.replace(c, "")] for a one-character [c]. *)
Fixpoint remove_char (c : ascii) (s : string) : string :=
  match s with
  | "" => ""
  | String d s' => if (d =? c)%char then remove_char c s' else String d (remove_char c s')
  end.

(** [c in s] for a one-character [c]. *)
Fixpoint contains (c : ascii) (s : string) : bool :=
  match s with
  | "" => false
  | String d s' => (d =? c)%char || contains c s'
  end.

(** [s.split(c, 1)]: at most one cut, at the first [c]. *)
Fixpoint split_once (c : ascii) (s : string) : list string :=
  match s with
  | "" => [""]
  | String d s' =>
      if (d =? c)%char then [""; s']
      else match split_once c s' with
           | [] => [String d ""]
           | h :: t => String d h :: t
           end
  end.

(** [s.split(c)]: a cut at every [c]. *)
Fixpoint split_all (c : ascii) (s : string) : list string :=
  match s with
  | "" => [""]
  | String d s' =>
      if (d =? c)%char then "" :: split_all c s'
      else match split_all c s' with
           | [] => [String d ""]
           | h :: t => String d h :: t
           end
  end.

(** [sep.join(l)] *)
Fixpoint join (sep : string) (l : list string) : string :=
  match l with
  | [] => ""
  | [x] => x
  | x :: rest => x +:+ sep +:+ join sep rest
  end.

(** ** A Python [dict] with string keys, in insertion order *)

Definition dict (V : Type) : Type := list (string * V).

Fixpoint dict_get {V} (d : dict V) (key : string) : option V :=
  match d with
  | [] => None
  | (k, v) :: d' => if String.eqb k key then Some v else dict_get d' key
  end.

(** [d[key] = v]: an existing key keeps its place. *)
Fixpoint dict_set {V} (d : dict V) (key : string) (v : V) : dict V :=
  match d with
  | [] => [(key, v)]
  | (k, w) :: d' => if String.eqb k key then (k, v) :: d' else (k, w) :: dict_set d' key v
  end.

(** ** split_commands *)

(** The body of the [for c in cmd_str] loop, with the three locals
    [res], [current] and [parens] as accumulators. *)
Fixpoint split_loop (cmd_str : string) (res : list string) (current : string)
    (parens : Z) : list string * string :=
  match cmd_str with
  | "" => (res, current)
  | String c rest =>
      let parens :=
        if (c =? "(")%char then parens + 1
        else if (c =? ")")%char then parens - 1
        else parens in
      if (c =? ",")%char && (parens =? 0) then
        split_loop rest (res ++ [current]) "" parens
      else
        split_loop rest res (current +:+ String c "") parens
  end.

Definition split_commands (cmd_str : string) : list string :=
  let '(res, current) := split_loop cmd_str [] "" 0 in
  match current with
  | "" => res
  | _ => res ++ [current]
  end.

(** *** The splitter as the specification words it

    The signed nesting depth of a text, and the texts that hold no comma at
    depth 0 when read from depth [d]. *)

Definition depth_step (d : Z) (c : ascii) : Z :=
  if (c =? "(")%char then d + 1
  else if (c =? ")")%char then d - 1
  else d.

Fixpoint depth_from (d : Z) (s : string) : Z :=
  match s with
  | "" => d
  | String c s' => depth_from (depth_step d c) s'
  end.

Fixpoint no_top_comma (d : Z) (s : string) : bool :=
  match s with
  | "" => true
  | String c s' =>
      negb ((c =? ",")%char && (depth_step d c =? 0)) && no_top_comma (depth_step d c) s'
  end.

Definition drop_empty_last (l : list string) : list string :=
  match last l with
  | Some "" => removelast l
  | _ => l
  end.

(** [segs] cuts [text] at exactly the commas of depth 0: the segments joined
    by commas give the text back, no segment holds a comma at depth 0, and
    every segment but the last ends at depth 0 (where its comma stands). *)
Definition cut_at_top_commas (text : string) (segs : list string) : Prop :=
  segs <> [] /\
  join "," segs = text /\
  Forall (fun seg => no_top_comma 0 seg = true) segs /\
  Forall (fun seg => depth_from 0 seg = 0) (removelast segs).

(** ** Pattern matching

    The three patterns of [parse_process] use literals, greedy and lazy
    repetitions of a character class, one look-ahead, and groups.  A pattern
    is written in continuation-passing style: each combinator takes the
    matcher of what follows it, so that a repetition backtracks exactly as
    the [re] module does (longest first for a greedy one, shortest first for
    a lazy one).  A matcher returns the text of its groups and, innermost,
    the text left after the match. *)

Module Re.

Section Combinators.
Context {A : Type}.

(** The literal [p], then [k]. *)
Fixpoint lit (p : string) (k : string -> option A) (s : string) : option A :=
  match p with
  | "" => k s
  | String c p' =>
      match s with
      | String d s' => if (c =? d)%char then lit p' k s' else None
      | "" => None
      end
  end.

Definition group1 (c : ascii) (r : option (string * A)) : option (string * A) :=
  match r with
  | Some (g, a) => Some (String c g, a)
  | None => None
  end.

Definition group0 (r : option A) : option (string * A) :=
  match r with
  | Some a => Some ("", a)
  | None => None
  end.

(** The greedy [cls*] as a group, then [k]: the longest run first, giving characters back
    one at a time while [k] fails. *)
Fixpoint star (cls : ascii -> bool) (k : string -> option A) (s : string)
    : option (string * A) :=
  match s with
  | String c s' =>
      if cls c then
        match star cls k s' with
        | Some (g, a) => Some (String c g, a)
        | None => group0 (k s)
        end
      else group0 (k s)
  | "" => group0 (k s)
  end.

(** The greedy [cls+] as a group, then [k]. *)
Definition plus (cls : ascii -> bool) (k : string -> option A) (s : string)
    : option (string * A) :=
  match s with
  | String c s' => if cls c then group1 c (star cls k s') else None
  | "" => None
  end.

(** The lazy [cls*?] as a group, then [k]: the shortest run first. *)
Fixpoint lazy_star (cls : ascii -> bool) (k : string -> option A) (s : string)
    : option (string * A) :=
  match k s with
  | Some a => Some ("", a)
  | None =>
      match s with
      | String c s' => if cls c then group1 c (lazy_star cls k s') else None
      | "" => None
      end
  end.

(** [re.findall]: the groups of the non-overlapping matches, scanning from
    the left.  [skip] counts the characters of the last match that are
    still to be stepped over; a match that took no character lets the scan
    move on by one. *)
Fixpoint findall_from (m : string -> option (A * string)) (s : string) (skip : nat)
    : list A :=
  match s with
  | "" =>
      match skip, m "" with
      | O, Some (g, _) => [g]
      | _, _ => []
      end
  | String _ s' =>
      match skip with
      | S n => findall_from m s' n
      | O =>
          match m s with
          | Some (g, rest) => g :: findall_from m s' (String.length s' - String.length rest)
          | None => findall_from m s' 0
          end
      end
  end.

Definition findall (m : string -> option (A * string)) (s : string) : list A :=
  findall_from m s 0.

End Combinators.

(** The end of the pattern: what is left of the text. *)
Definition done (s : string) : option string := Some s.

(** The look-ahead "(?=:|$)": a colon follows, or the text ends here (or at a line feed
    that ends the text, which is where [$] also matches). *)
Definition colon_or_end (s : string) : option string :=
  match s with
  | "" => Some s
  | String c s' =>
      if (c =? ":")%char then Some s
      else if (c =? LF)%char then match s' with "" => Some s | _ => None end
      else None
  end.

Definition not_comma (c : ascii) : bool := negb (c =? ",")%char.
Definition not_rparen (c : ascii) : bool := negb (c =? ")")%char.

(** The pattern "REPEAT\((\w+)\)\{(.*?)\}(?=:|$)". *)
Definition repeat_pattern (s : string) : option ((string * string) * string) :=
  match lit "REPEAT(" (plus is_word (lit "){" (lazy_star is_dot (lit "}" colon_or_end)))) s with
  | Some (repeat_var, (inner_content, rest)) => Some ((repeat_var, inner_content), rest)
  | None => None
  end.

(** The pattern "FOR_RANGEV\(([^,]+),([^,]+),([^)]+)\)\{(.*?)\}". *)
Definition for_pattern (s : string)
    : option ((string * string * string * string) * string) :=
  match lit "FOR_RANGEV("
          (plus not_comma (lit ","
            (plus not_comma (lit ","
              (plus not_rparen (lit "){"
                (lazy_star is_dot (lit "}" done)))))))) s with
  | Some (a, (b, (c, (body, rest)))) => Some ((a, b, c, body), rest)
  | None => None
  end.

(** [re.match] of the pattern [NAME(ARGS)], a group of [\w+], an opening
    parenthesis, a greedy group of any characters and a closing parenthesis:
    anchored at the start of [cmd] only. *)
Definition command_pattern (s : string) : option (string * string) :=
  match plus is_word (lit "(" (star is_dot (lit ")" done))) s with
  | Some (name, (args, _)) => Some (name, args)
  | None => None
  end.

End Re.

(** ** The parsed program

    [parse_process] builds nested dicts and lists; the dict of a command has
    one of the keys ["mean"], ["delay"], ["outputs"], the dict of a loop the
    keys ["start"], ["end"], ["step"], ["commands"], and the dict of a block
    the keys ["repeats"] and ["for_loops"]. *)

Inductive Command : Type :=
| Mean (param : string)
| Delay (param : string)
| Outputs (outputs : dict string).

Record ForLoop : Type := {
  start : string;
  end_ : string;
  step : string;
  commands : list Command
}.

Record RepeatBlock : Type := {
  repeats : string;
  for_loops : list ForLoop
}.

Abbreviation Program := (list RepeatBlock).

(** The block seen as the dict it is: its items, for the lookups by key. *)
Inductive BlockValue : Type :=
| StrValue (s : string)
| LoopsValue (l : list ForLoop).

Definition block_items (b : RepeatBlock) : dict BlockValue :=
  [("repeats", StrValue (repeats b)); ("for_loops", LoopsValue (for_loops b))].

(** ** parse_process *)

(** [for pair in pairs: if '=' in pair: key, val = pair.split('=', 1); ...].
    Unpacking anything but two items raises [ValueError]. *)
Fixpoint parse_pairs (pairs : list string) (outputs : dict string) : result (dict string) :=
  match pairs with
  | [] => Ok outputs
  | pair_ :: pairs' =>
      if contains "=" pair_ then
        match split_once "=" pair_ with
        | [key; val] => parse_pairs pairs' (dict_set outputs key val)
        | _ => Raise (ValueError "unpack")
        end
      else parse_pairs pairs' outputs
  end.

(** One turn of [for cmd in commands_raw]: the commands it appends. *)
Definition parse_command (cmd : string) : result (list Command) :=
  match Re.command_pattern cmd with
  | None => Ok []
  | Some (name, cmd_param) =>
      let cmd_type := upper name in
      if String.eqb cmd_type "MEAN" then Ok [Mean cmd_param]
      else if String.eqb cmd_type "DELAY" then Ok [Delay cmd_param]
      else if String.eqb cmd_type "OUTPUT" then
        do outputs <- parse_pairs (split_commands cmd_param) [];
        Ok [Outputs outputs]
      else Ok []
  end.

Fixpoint parse_commands (commands_raw : list string) (commands : list Command)
    : result (list Command) :=
  match commands_raw with
  | [] => Ok commands
  | cmd :: rest =>
      do new <- parse_command cmd;
      parse_commands rest (commands ++ new)
  end.

Fixpoint parse_for_blocks (for_blocks : list (string * string * string * string))
    (for_list : list ForLoop) : result (list ForLoop) :=
  match for_blocks with
  | [] => Ok for_list
  | (start_var, end_var, step_var, commands_str) :: rest =>
      do commands <- parse_commands (split_commands commands_str) [];
      parse_for_blocks rest
        (for_list ++ [{| start := start_var; end_ := end_var; step := step_var;
                         commands := commands |}])
  end.

(** The loops of one REPEAT body. *)
Definition parse_for_loops (inner_content : string) : result (list ForLoop) :=
  parse_for_blocks (Re.findall Re.for_pattern inner_content) [].

Fixpoint parse_repeat_matches (repeat_matches : list (string * string))
    (parsed : Program) : result Program :=
  match repeat_matches with
  | [] => Ok parsed
  | (repeat_var, inner_content) :: rest =>
      do for_list <- parse_for_loops inner_content;
      parse_repeat_matches rest
        (parsed ++ [{| repeats := repeat_var; for_loops := for_list |}])
  end.

(** [process_str.replace(" ", "").replace("\n", "")] *)
Definition strip_layout (process_str : string) : string :=
  remove_char LF (remove_char " " process_str).

Definition parse_process (process_str : string) : result Program :=
  let s := strip_layout process_str in
  parse_repeat_matches (Re.findall Re.repeat_pattern s) [].

(** ** Numbers *)

Definition Qlt_bool (a b : Q) : bool := negb (Qle_bool b a).

(** [a / b] on floats, and on ints (true division): the exact quotient,
    which Python rounds to a float. *)
Definition py_div (a b : Q) : result Q :=
  if Qeq_bool b 0 then Raise ZeroDivisionError else Ok (a / b)%Q.

(** [int(x)] of a float: truncation toward zero. *)
Definition int_of_float (x : Q) : Z :=
  if Qle_bool 0 x then Qfloor x else Qceiling x.

(** [sum(l)], every addition exact. *)
Definition py_sum (l : list Q) : Q := fold_left Qplus l 0%Q.

(** ** frange *)

(** [while x <= stop: vals.append(x); x += step], every addition exact. *)
Fixpoint frange_up (fuel : nat) (x stop step_ : Q) (vals : list Q) : result (list Q) :=
  match fuel with
  | O => Loops
  | S fuel' =>
      if Qle_bool x stop then frange_up fuel' (x + step_)%Q stop step_ (vals ++ [x])
      else Ok vals
  end.

(** [while x >= stop: vals.append(x); x += step], every addition exact. *)
Fixpoint frange_down (fuel : nat) (x stop step_ : Q) (vals : list Q) : result (list Q) :=
  match fuel with
  | O => Loops
  | S fuel' =>
      if Qle_bool stop x then frange_down fuel' (x + step_)%Q stop step_ (vals ++ [x])
      else Ok vals
  end.

Definition frange (fuel : nat) (start_ stop step_ : Q) : result (list Q) :=
  if Qlt_bool 0 step_ then frange_up fuel start_ stop step_ []
  else frange_down fuel start_ stop step_ [].

(** The lines under "Determine direction" of [task]. *)
Definition sweep_values (fuel : nat) (start_val end_val step_val : Q) : result (list Q) :=
  if Qlt_bool start_val end_val then frange fuel start_val end_val step_val
  else frange fuel start_val end_val (- Qabs step_val)%Q.

(** The sweep as the specification words it: [n] points from [start_val],
    [d] apart. *)
Fixpoint arithmetic_points (n : nat) (x d : Q) : list Q :=
  match n with
  | O => []
  | S n' => x :: arithmetic_points n' (x + d)%Q d
  end.

(** ** The world of a run *)

Inductive CsvRow : Type :=
| HeaderRow
| DataRow (V I_mean : Q).

(** What a run does to its surroundings, in the order it does it.  The
    console lines kept are the two that announce a block and a pass. *)
Inductive Event : Type :=
| PrintPlan (text : string)
| AskYesNo (title text : string) (answer : bool)
| ShowWarning (title text : string)
| ShowInfo (title text : string)
| WriteRow (row : CsvRow)
| PrintRepeat (repeat_var : string) (cycles_val : Z)
| PrintCycle (c cycles_val : Z)
| Setpoint (V : Q) (outcome : result unit)
| Reading (outcome : result Q)
| Sleep (seconds : Q)
| Progress (fraction : Q).

(** An instrument: the two primitives of the task over the state of the
    device behind them.  A primitive that fails leaves its exception. *)
Record Instrument (Dev : Type) : Type := {
  set_quantity : Q -> Dev -> result unit * Dev;
  read_quantity : Dev -> result Q * Dev
}.
Arguments set_quantity {Dev} _ _ _.
Arguments read_quantity {Dev} _ _.

Record World (Dev : Type) : Type := {
  device : Dev;
  trace : list Event
}.
Arguments device {Dev} _.
Arguments trace {Dev} _.
Arguments Build_World {Dev} _ _.

(** Effectful code: a result and the world after it, also when it raised. *)
Definition M (Dev A : Type) : Type := World Dev -> result A * World Dev.

Definition ret {Dev A} (a : A) : M Dev A := fun w => (Ok a, w).

Definition bind {Dev A B} (m : M Dev A) (k : A -> M Dev B) : M Dev B :=
  fun w =>
    match m w with
    | (Ok a, w') => k a w'
    | (Raise e, w') => (Raise e, w')
    | (Loops, w') => (Loops, w')
    end.

Definition lift {Dev A} (r : result A) : M Dev A := fun w => (r, w).

Definition emit {Dev} (ev : Event) : M Dev unit :=
  fun w => (Ok tt, {| device := device w; trace := trace w ++ [ev] |}).

Notation "'let!' x := m 'in' k" := (bind m (fun x => k))
  (at level 10, x name, m at level 100, k at level 200) : result_scope.

(** [time.sleep(seconds)] *)
Definition sleep {Dev} (seconds : Q) : M Dev unit :=
  if Qlt_bool seconds 0 then lift (Raise (ValueError "sleep length must be non-negative"))
  else emit (Sleep seconds).

(** The projections of a trace the properties speak of. *)
Definition samples (tr : list Event) : list (Q * Q) :=
  flat_map (fun ev => match ev with WriteRow (DataRow V I_mean) => [(V, I_mean)] | _ => [] end) tr.

Definition progress_reports (tr : list Event) : list Q :=
  flat_map (fun ev => match ev with Progress f => [f] | _ => [] end) tr.

Definition passes (tr : list Event) : list (Z * Z) :=
  flat_map (fun ev => match ev with PrintCycle c n => [(c, n)] | _ => [] end) tr.

Definition is_instrument_call (ev : Event) : bool :=
  match ev with
  | Setpoint _ _ | Reading _ => true
  | _ => false
  end.

Definition instrument_calls (tr : list Event) : list Event := filter is_instrument_call tr.

Definition setpoints (tr : list Event) : list Q :=
  flat_map (fun ev => match ev with Setpoint V _ => [V] | _ => [] end) tr.

(** The exception an instrument call ended with, if it failed. *)
Definition instrument_failure (ev : Event) : option exn :=
  match ev with
  | Setpoint _ (Raise e) => Some e
  | Reading (Raise e) => Some e
  | _ => None
  end.

(** ** Conversions

    [int(text)] and [float(text)] return a number or raise [ValueError];
    [10 ** x] returns a float or raises [OverflowError].  The builtins
    themselves are parameters: [None] is the text (or exponent) they
    refuse. *)

Definition to_int (py_int : string -> option Z) (text : string) : result Z :=
  match py_int text with
  | Some n => Ok n
  | None => Raise (ValueError "invalid literal for int()")
  end.

Definition to_float (py_float : string -> option Q) (text : string) : result Q :=
  match py_float text with
  | Some x => Ok x
  | None => Raise (ValueError "could not convert string to float")
  end.

Definition power_of_ten (pow10 : Q -> option Q) (x : Q) : result Q :=
  match pow10 x with
  | Some y => Ok y
  | None => Raise OverflowError
  end.

(** ** The instrument primitives of the source *)

(** Reading a name that no scope around the function binds. *)
Definition free_variable {A} (name : string) : result A := Raise (NameError name).

(** Reading an attribute of [None]. *)
Definition none_attribute {A} (name : string) : result A :=
  Raise (AttributeError ("'NoneType' object has no attribute '" +:+ name +:+ "'")).

(** What [response] holds: the two ints of the debugging branch, or the
    fields of the text the device sent. *)
Inductive Field : Type :=
| IntField (n : Z)
| TextField (s : string).

(** [str.isspace] on ASCII. *)
Definition is_space (c : ascii) : bool :=
  in_range "009" "013" c || in_range "028" "032" c.

Fixpoint lstrip (s : string) : string :=
  match s with
  | String c s' => if is_space c then lstrip s' else s
  | "" => ""
  end.

Fixpoint rstrip (s : string) : string :=
  match s with
  | "" => ""
  | String c s' =>
      match rstrip s' with
      | "" => if is_space c then "" else String c ""
      | t => String c t
      end
  end.

(** [s.strip()] *)
Definition strip (s : string) : string := rstrip (lstrip s).

Section Primitives.
Context {Dev : Type}.
(** [float(text)], [str(x)] of a float, and [10 ** x]. *)
Variable py_float : string -> option Q.
Variable str_float : Q -> string.
Variable pow10 : Q -> option Q.
(** [self.device.write] and [self.device.read], as called: a call that
    cannot be made raises like a call that fails. *)
Variable device_write : string -> Dev -> result unit * Dev.
Variable device_read : Dev -> result string * Dev.
(** Whether [self.device] holds a resource: it is [None] when the page is
    made and after a disconnection. *)
Variable device_present : Dev -> bool.
Variable DEBUGGING : bool.

(** The body of [setVoltage] builds its command from [V], a name of
    [task], not from its own parameter [voltage].  Python looks up
    [self.device.write] before it evaluates the argument of the call, so
    the attribute of [None] is missed before the name [V] is. *)
Definition setVoltage (voltage : Q) (dev : Dev) : result unit * Dev :=
  if DEBUGGING then (Ok tt, dev)
  else if device_present dev then
    match free_variable "V" with
    | Ok V => device_write ("SETE " +:+ str_float V) dev
    | Raise e => (Raise e, dev)
    | Loops => (Loops, dev)
    end
  else (none_attribute "write", dev).

(** [float(f)] of an item of [response]. *)
Definition field_to_float (f : Field) : result Q :=
  match f with
  | IntField n => Ok (inject_Z n)
  | TextField s => to_float py_float s
  end.

(** [readCurrent] from the test on [len(response)] on: the local
    [current] is bound in the first branch only. *)
Definition current_of_response (response : list Field) : result Q :=
  do current <-
    (if (length response =? 2)%nat then
       match response with
       | [value; exp] =>
           do value <- field_to_float value;
           do exp <- field_to_float exp;
           do p <- power_of_ten pow10 exp;
           Ok (Some (value * p)%Q)
       | _ => Raise (ValueError "unpack")
       end
     else Ok None);
  match current with
  | Some current => Ok current
  | None => Raise (UnboundLocalError "current")
  end.

(** The fields of a text the device sent. *)
Definition response_fields (text : string) : list Field :=
  map TextField (split_all "," (strip text)).

Definition readCurrent (dev : Dev) : result Q * Dev :=
  if DEBUGGING then (current_of_response [IntField 10; IntField (-2)], dev)
  else
    match device_write "READI" dev with
    | (Ok _, dev1) =>
        match device_read dev1 with
        | (Ok text, dev2) => (current_of_response (response_fields text), dev2)
        | (Raise e, dev2) => (Raise e, dev2)
        | (Loops, dev2) => (Loops, dev2)
        end
    | (Raise e, dev1) => (Raise e, dev1)
    | (Loops, dev1) => (Loops, dev1)
    end.

Definition source_instrument : Instrument Dev :=
  {| set_quantity := setVoltage; read_quantity := readCurrent |}.

End Primitives.

(** ** describe_process and task *)

(** What [get_val] returns. *)
Inductive Shown : Type :=
| ShownFloat (x : Q)
| ShownInt (n : Z)
| ShownText (s : string).

(** [try: ... except Exception: ...] *)
Definition try_except {A} (body : result A) (handler : exn -> result A) : result A :=
  match body with
  | Raise e => handler e
  | other => other
  end.

Fixpoint repeat_string (n : nat) (s : string) : string :=
  match n with
  | O => ""
  | S n' => s +:+ repeat_string n' s
  end.

(** The three entries [task] asks for before anything else. *)
Record Selection : Type := {
  user : string;
  project : string;
  experiment_name : string
}.

Section Engine.
Context {Dev : Type}.
(** [int(text)], [float(text)], and [str] of an int and of a float. *)
Variable py_int : string -> option Z.
Variable py_float : string -> option Q.
Variable str_int : Z -> string.
Variable str_float : Q -> string.
(** The operator before [messagebox.askyesno]. *)
Variable confirm : string -> bool.
Variable instrument : Instrument Dev.
Variable fuel : nat.
(** [self.input_widgets]: the text of the entry of each variable. *)
Variable input_widgets : gmap string string.

Definition get_val (var : string) : result Shown :=
  match input_widgets !! var with
  | None => Ok (ShownText var)
  | Some val =>
      try_except
        (if contains "." val
         then do x <- to_float py_float val; Ok (ShownFloat x)
         else do n <- to_int py_int val; Ok (ShownInt n))
        (fun _ => Ok (ShownText val))
  end.

Definition show (v : Shown) : string :=
  match v with
  | ShownFloat x => str_float x
  | ShownInt n => str_int n
  | ShownText s => s
  end.

Definition describe_command (cmd : Command) : result (list string) :=
  match cmd with
  | Mean param =>
      do r <- get_val param;
      Ok ["      • MEAN(" +:+ param +:+ ") → Average for " +:+ show r +:+ " repetitions"]
  | Delay param =>
      do d <- get_val param;
      Ok ["      • DELAY(" +:+ param +:+ ") → Wait " +:+ show d +:+ " seconds"]
  | Outputs outputs =>
      let out_str := join ", " (map (fun kv => fst kv +:+ " = " +:+ snd kv) outputs) in
      Ok ["      • OUTPUT(" +:+ out_str +:+ ")"]
  end.

Fixpoint describe_commands (cmds : list Command) (description_lines : list string)
    : result (list string) :=
  match cmds with
  | [] => Ok description_lines
  | cmd :: rest =>
      do new <- describe_command cmd;
      describe_commands rest (description_lines ++ new)
  end.

Fixpoint describe_for_loops (loops : list ForLoop) (description_lines : list string)
    : result (list string) :=
  match loops with
  | [] => Ok description_lines
  | for_loop :: rest =>
      do start_val <- get_val (start for_loop);
      do end_val <- get_val (end_ for_loop);
      do step_val <- get_val (step for_loop);
      let description_lines :=
        description_lines ++
        ["  ➤ FOR_RANGEV " +:+ start for_loop +:+ "=" +:+ show start_val +:+ ", "
           +:+ end_ for_loop +:+ "=" +:+ show end_val +:+ ", "
           +:+ step for_loop +:+ "=" +:+ show step_val;
         "    {"] in
      do description_lines <- describe_commands (commands for_loop) description_lines;
      describe_for_loops rest (description_lines ++ ["    }"; ""])
  end.

Fixpoint describe_blocks (parsed_process : Program) (description_lines : list string)
    : result (list string) :=
  match parsed_process with
  | [] => Ok description_lines
  | repeat_block :: rest =>
      let repeat_var := repeats repeat_block in
      do repeat_val <- get_val repeat_var;
      let description_lines :=
        description_lines ++
        ["🔁 REPEAT (" +:+ repeat_var +:+ ") → " +:+ show repeat_val +:+ " times"] in
      do description_lines <- describe_for_loops (for_loops repeat_block) description_lines;
      describe_blocks rest description_lines
  end.

Definition final_description (parsed_process : Program) : result string :=
  do description_lines <-
    describe_blocks parsed_process
      ["🧩 Process Description:" +:+ String LF "" +:+ repeat_string 40 "-"];
  Ok (join (String LF "") (description_lines ++ [repeat_string 40 "-"])).

Definition describe_process (parsed_process : Program) (show_messagebox : bool)
    : M Dev bool :=
  let! text := lift (final_description parsed_process) in
  let! _ := emit (PrintPlan text) in
  if show_messagebox then
    let continue_method := confirm text in
    let! _ := emit (AskYesNo "Process Description" text continue_method) in
    ret continue_method
  else ret true.

(** [conv(widget.get()) if widget else default] *)
Definition entry_or {A} (var : string) (conv : string -> result A) (default : A)
    : result A :=
  match input_widgets !! var with
  | Some text => conv text
  | None => Ok default
  end.

(** *** The count of steps made before the run *)

(** [int(abs(end_val - start_val) / abs(step_val)) + 1], on the exact
    quotient. *)
Definition steps_in_loop (start_val end_val step_val : Q) : result Z :=
  do q <- py_div (Qabs (end_val - start_val)) (Qabs step_val);
  Ok (int_of_float q + 1).

Fixpoint count_for_loops (loops : list ForLoop) (cycles_val total_steps : Z) : result Z :=
  match loops with
  | [] => Ok total_steps
  | for_loop :: rest =>
      do start_val <- entry_or (start for_loop) (to_float py_float) 0%Q;
      do end_val <- entry_or (end_ for_loop) (to_float py_float) 1%Q;
      do step_val <- entry_or (step for_loop) (to_float py_float) (1 # 10)%Q;
      do n <- steps_in_loop start_val end_val step_val;
      count_for_loops rest cycles_val (total_steps + cycles_val * n)
  end.

Fixpoint count_blocks (process_parsed : Program) (total_steps : Z) : result Z :=
  match process_parsed with
  | [] => Ok total_steps
  | repeat_block :: rest =>
      let repeat_var := repeats repeat_block in
      do cycles_val <- entry_or repeat_var (to_int py_int) 1;
      do total_steps <- count_for_loops (for_loops repeat_block) cycles_val total_steps;
      count_blocks rest total_steps
  end.

(** *** The run *)

Definition call_set (V : Q) : M Dev unit :=
  fun w =>
    let '(r, dev) := set_quantity instrument V (device w) in
    (r, {| device := dev; trace := trace w ++ [Setpoint V r] |}).

Definition call_read : M Dev Q :=
  fun w =>
    let '(r, dev) := read_quantity instrument (device w) in
    (r, {| device := dev; trace := trace w ++ [Reading r] |}).

(** [for _ in range(r_val)]: [n] turns are left. *)
Fixpoint read_currents (n : nat) (delay_val : Q) (r_val : Z) (currents : list Q)
    : M Dev (list Q) :=
  match n with
  | O => ret currents
  | S n' =>
      let! wait := lift (py_div delay_val (2 * inject_Z r_val)) in
      let! _ := sleep wait in
      let! i := call_read in
      read_currents n' delay_val r_val (currents ++ [i])
  end.

(** One turn of [for V in V_values]; returns the new [step_counter]. *)
Definition sweep_point (delay_val : Q) (r_val total_steps : Z) (V : Q) (step_counter : Z)
    : M Dev Z :=
  let! _ := call_set V in
  let! _ := sleep (delay_val / 2) in
  let! currents := read_currents (Z.to_nat r_val) delay_val r_val [] in
  let! I_mean := lift (py_div (py_sum currents) (inject_Z (Z.of_nat (length currents)))) in
  let! _ := emit (WriteRow (DataRow V I_mean)) in
  let step_counter := step_counter + 1 in
  let! fraction := lift (py_div (inject_Z step_counter) (inject_Z total_steps)) in
  let! _ := emit (Progress fraction) in
  ret step_counter.

Fixpoint sweep (delay_val : Q) (r_val total_steps : Z) (V_values : list Q) (step_counter : Z)
    : M Dev Z :=
  match V_values with
  | [] => ret step_counter
  | V :: rest =>
      let! step_counter := sweep_point delay_val r_val total_steps V step_counter in
      sweep delay_val r_val total_steps rest step_counter
  end.

(** [for cmd in for_loop["commands"]]: the last MEAN and the last DELAY
    win; every DELAY sleeps a tenth of its value on the way. *)
Fixpoint scan_commands (cmds : list Command) (delay_val : Q) (r_val : Z)
    : M Dev (Q * Z) :=
  match cmds with
  | [] => ret (delay_val, r_val)
  | Mean param :: rest =>
      let! r_val := lift (entry_or param (to_int py_int) 1) in
      scan_commands rest delay_val r_val
  | Delay param :: rest =>
      let! delay_val := lift (entry_or param (to_float py_float) 1%Q) in
      let! _ := sleep (delay_val * (1 # 10)) in
      scan_commands rest delay_val r_val
  | Outputs _ :: rest => scan_commands rest delay_val r_val
  end.

Definition run_for_loop (total_steps : Z) (for_loop : ForLoop) (step_counter : Z)
    : M Dev Z :=
  let! start_val := lift (entry_or (start for_loop) (to_float py_float) 0%Q) in
  let! end_val := lift (entry_or (end_ for_loop) (to_float py_float) 1%Q) in
  let! step_val := lift (entry_or (step for_loop) (to_float py_float) (1 # 10)%Q) in
  let! dr := scan_commands (commands for_loop) 0%Q 1 in
  let! V_values := lift (sweep_values fuel start_val end_val step_val) in
  sweep (fst dr) (snd dr) total_steps V_values step_counter.

Fixpoint run_for_loops (total_steps : Z) (loops : list ForLoop) (step_counter : Z)
    : M Dev Z :=
  match loops with
  | [] => ret step_counter
  | for_loop :: rest =>
      let! step_counter := run_for_loop total_steps for_loop step_counter in
      run_for_loops total_steps rest step_counter
  end.

(** [for c in range(cycles_val)]: [n] passes are left, [c] is the next. *)
Fixpoint run_cycles (n : nat) (c cycles_val total_steps : Z) (loops : list ForLoop)
    (step_counter : Z) : M Dev Z :=
  match n with
  | O => ret step_counter
  | S n' =>
      let! _ := emit (PrintCycle (c + 1) cycles_val) in
      let! step_counter := run_for_loops total_steps loops step_counter in
      run_cycles n' (c + 1) cycles_val total_steps loops step_counter
  end.

(** [repeat_block.get(key, default)] on the dict of a block. *)
Definition block_get (repeat_block : RepeatBlock) (key default : string) : string :=
  match dict_get (block_items repeat_block) key with
  | Some (StrValue v) => v
  | _ => default
  end.

Fixpoint run_blocks (process_parsed : Program) (total_steps step_counter : Z)
    : M Dev Z :=
  match process_parsed with
  | [] => ret step_counter
  | repeat_block :: rest =>
      let repeat_var := block_get repeat_block "repeat_var" "C" in
      let! cycles_val := lift (entry_or repeat_var (to_int py_int) 1) in
      let! _ := emit (PrintRepeat repeat_var cycles_val) in
      let! step_counter :=
        run_cycles (Z.to_nat cycles_val) 0 cycles_val total_steps
          (for_loops repeat_block) step_counter in
      run_blocks rest total_steps step_counter
  end.

(** [task], from "task started" to its end: the CSV file is open. *)
Definition run (process_parsed : Program) : M Dev unit :=
  let! _ := emit (WriteRow HeaderRow) in
  let! total_steps := lift (count_blocks process_parsed 0) in
  let! _ := run_blocks process_parsed total_steps 0 in
  let! _ := emit (Progress 1%Q) in
  emit (ShowInfo "Finished" "Method simulation completed!").

Definition task (selection : Selection) (process_parsed : Program) : M Dev unit :=
  if String.eqb (user selection) "" || String.eqb (project selection) ""
     || String.eqb (strip (experiment_name selection)) "" then
    emit (ShowWarning "Missing info"
            "Please select a user, project and enter an experiment name.")
  else
    let! continue_method := describe_process process_parsed true in
    run process_parsed.

(** [run_method]: [methods] pairs each name with its process text.  The
    test of [continue_method] reads a name that is bound in [task] and in
    [describe_process] only. *)
Definition run_method (methods : list (string * string)) (selected_name : string)
    (selection : Selection) : M Dev unit :=
  match find (fun m => String.eqb (fst m) selected_name) methods with
  | None => emit (ShowWarning "Warning" "Select a valid method first.")
  | Some method =>
      let! process_parsed := lift (parse_process (snd method)) in
      let! continue_method := lift (free_variable "continue_method") in
      if negb continue_method then ret tt
      else task selection process_parsed
  end.

End Engine.

(** ** Instances for concrete runs *)

(** The value of a run of decimal digits. *)
Fixpoint digits_value (s : string) (acc : Z) : option Z :=
  match s with
  | "" => Some acc
  | String c s' =>
      if is_digit c then digits_value s' (10 * acc + (Z.of_nat (nat_of_ascii c) - 48))
      else None
  end.

Definition split_sign (s : string) : bool * string :=
  match s with
  | String c s' =>
      if (c =? "-")%char then (true, s')
      else if (c =? "+")%char then (false, s')
      else (false, s)
  | "" => (false, "")
  end.

(** [int(text)] on an optional sign and decimal digits; any other text is
    refused here (the builtin also takes blanks around the numeral and
    underscores between digits). *)
Definition int_of_decimal (text : string) : option Z :=
  let '(neg, body) := split_sign text in
  match body, digits_value body 0 with
  | String _ _, Some n => Some (if neg then - n else n)
  | _, _ => None
  end.

(** [float(text)] on an optional sign, decimal digits and at most one
    point, with a digit on at least one side of it; any other text is
    refused here (the builtin also takes an exponent, [inf], [nan] and
    blanks around the numeral). *)
Definition float_of_decimal (text : string) : option Q :=
  let '(neg, body) := split_sign text in
  let signed (q : Q) := if neg then (- q)%Q else q in
  match split_once "." body with
  | [whole] =>
      match whole, digits_value whole 0 with
      | String _ _, Some n => Some (signed (inject_Z n))
      | _, _ => None
      end
  | [whole; frac] =>
      match (whole +:+ frac), digits_value (whole +:+ frac) 0 with
      | String _ _, Some n =>
          Some (signed (inject_Z n / inject_Z (10 ^ Z.of_nat (String.length frac)))%Q)
      | _, _ => None
      end
  | _ => None
  end.

Fixpoint digits_text (fuel : nat) (n : Z) (acc : string) : string :=
  match fuel with
  | O => acc
  | S fuel' =>
      let acc := String (ascii_of_nat (Z.to_nat (48 + n mod 10))) acc in
      if n / 10 =? 0 then acc else digits_text fuel' (n / 10) acc
  end.

(** [str(n)] of an int. *)
Definition str_of_int (n : Z) : string :=
  let body := digits_text (S (Z.to_nat (Z.log2 (Z.abs n)))) (Z.abs n) "" in
  if n <? 0 then "-" +:+ body else body.

(** A stand-in for [str(x)] of a float: the reduced fraction. *)
Definition str_of_ratio (x : Q) : string :=
  str_of_int (Qnum (Qred x)) +:+ "/" +:+ str_of_int (Zpos (Qden (Qred x))).

(** [10 ** x], exact where [x] is a whole number; this instance never
    refuses an exponent (the builtin raises [OverflowError] on a result
    too large for a float). *)
Definition pow10_whole (x : Q) : option Q := Some (Qpower 10 (Qfloor x)).

(** The instrument of the source as configured ([DEBUGGING = True]): there
    is no device behind it. *)
Definition debug_instrument : Instrument unit :=
  source_instrument float_of_decimal str_of_ratio pow10_whole
    (fun _ dev => (Ok tt, dev)) (fun dev => (Ok "", dev)) (fun _ => false) true.

(** An instrument for tests: the device counts the calls it still accepts
    (a setpoint or a reading takes one) and reads 1/10 ampere. *)
Definition countdown_instrument : Instrument nat :=
  {| set_quantity := fun _ n =>
       match n with
       | O => (Raise (DeviceError "timeout on write"), O)
       | S n' => (Ok tt, n')
       end;
     read_quantity := fun n =>
       match n with
       | O => (Raise (DeviceError "timeout on read"), O)
       | S n' => (Ok (1 # 10)%Q, n')
       end |}.

Definition yes (text : string) : bool := true.
Definition no (text : string) : bool := false.

Definition someone : Selection :=
  {| user := "ana"; project := "p1"; experiment_name := "cv" |}.

Definition start_world {Dev} (dev : Dev) : World Dev := {| device := dev; trace := [] |}.

(** [task] on a debugging bench. *)
Definition bench_task (confirm : string -> bool) (input_widgets : gmap string string)
    (process_parsed : Program) : result unit * World unit :=
  task int_of_decimal float_of_decimal str_of_int str_of_ratio confirm debug_instrument
    100 input_widgets someone process_parsed (start_world tt).

(** [task] on the counting device. *)
Definition countdown_task (calls : nat) (input_widgets : gmap string string)
    (process_parsed : Program) : result unit * World nat :=
  task int_of_decimal float_of_decimal str_of_int str_of_ratio yes countdown_instrument
    100 input_widgets someone process_parsed (start_world calls).

Definition one_sweep (repeat_var : string) : Program :=
  [{| repeats := repeat_var;
      for_loops := [{| start := "Vi"; end_ := "Vf"; step := "Vr";
                       commands := [Mean "R"; Delay "D";
                                    Outputs [("Vout", "V"); ("Iout", "I")]] |}] |}].

Definition TAB : ascii := "009"%char.
Definition nl : string := String LF "".
Definition example_process : string :=
  "REPEAT(C){" +:+ nl +:+
  "    FOR_RANGEV(Vi,Vf,Vr){" +:+ nl +:+
  "        MEAN(R)," +:+ nl +:+
  "        DELAY(D)," +:+ nl +:+
  "        OUTPUT(Vout=V,Iout=I)" +:+ nl +:+
  "    };" +:+ nl +:+
  "    FOR_RANGEV(Vi,Vf,Vr){" +:+ nl +:+
  "        MEAN(R)," +:+ nl +:+
  "        DELAY(D)," +:+ nl +:+
  "        OUTPUT(Vout=V,Iout=I)" +:+ nl +:+
  "    }" +:+ nl +:+
  "    }:" +:+ nl +:+
  "    REPEAT(C){" +:+ nl +:+
  "    FOR_RANGEV(Vi,Vf,Vr){" +:+ nl +:+
  "        MEAN(R)," +:+ nl +:+
  "        DELAY(D)," +:+ nl +:+
  "        OUTPUT(Vout=V,Iout=I)" +:+ nl +:+
  "    };" +:+ nl +:+
  "    FOR_RANGEV(Vi,Vf,Vr){" +:+ nl +:+
  "        MEAN(R)," +:+ nl +:+
  "        DELAY(D)," +:+ nl +:+
  "        OUTPUT(Vout=V,Iout=I)" +:+ nl +:+
  "    }" +:+ nl +:+
  "}".

(** ** Method texts as the specification words them *)

Fixpoint string_forall (p : ascii -> bool) (s : string) : bool :=
  match s with
  | "" => true
  | String c s' => p c && string_forall p s'
  end.

Definition starts_with (c : ascii) (s : string) : bool :=
  match s with
  | String d _ => (d =? c)%char
  | "" => false
  end.

(** No closing brace of the text is followed by a colon. *)
Fixpoint no_close_colon (s : string) : bool :=
  match s with
  | "" => true
  | String c s' => negb ((c =? "}")%char && starts_with ":" s') && no_close_colon s'
  end.

(** A top-level block: its identifier and its body. *)
Definition block_text (vb : string * string) : string :=
  "REPEAT(" +:+ fst vb +:+ "){" +:+ snd vb +:+ "}".

(** The identifier is a word, and the body does not hold the mark that
    ends a block, a closing brace before a colon. *)
Definition block_ok (vb : string * string) : Prop :=
  fst vb <> "" /\ string_forall is_word (fst vb) = true /\ no_close_colon (snd vb) = true.

(** Blocks separated by colons. *)
Definition blocks_text (blocks : list (string * string)) : string :=
  join ":" (map block_text blocks).

(** The layout characters [parse_process] removes. *)
Definition is_layout (c : ascii) : bool := (c =? " ")%char || (c =? LF)%char.

(** A text without any of its whitespace characters. *)
Fixpoint remove_whitespace (s : string) : string :=
  match s with
  | "" => ""
  | String c s' => if is_space c then remove_whitespace s' else String c (remove_whitespace s')
  end.


(** A block with a tab between the keyword and its identifier. *)
Definition tabbed_process : string := "REPEAT" +:+ String TAB "" +:+ "(C){}".



(** Entries for the runs below: a sweep from 0 to 1. *)
Definition sweep_widgets (repeat_var count step_text readings : string) : gmap string string :=
  {[ repeat_var := count; "Vi" := "0"; "Vf" := "1"; "Vr" := step_text;
     "R" := readings; "D" := "0" ]}.

Definition example_method : string :=
  "REPEAT(C){FOR_RANGEV(Vi,Vf,Vr){MEAN(R),DELAY(D),OUTPUT(Vout=V,Iout=I)}}".

(** The same method with its repeat count named [N]. *)
Definition method_on_N : string :=
  "REPEAT(N){FOR_RANGEV(Vi,Vf,Vr){MEAN(R),DELAY(D),OUTPUT(Vout=V,Iout=I)}}".

(** [run_method] on a debugging bench. *)
Definition bench_run_method (confirm : string -> bool) (input_widgets : gmap string string)
    (methods : list (string * string)) (selected_name : string) : result unit * World unit :=
  run_method int_of_decimal float_of_decimal str_of_int str_of_ratio confirm debug_instrument
    100 input_widgets methods selected_name someone (start_world tt).

(** The total the task counts before the run, on the bench. *)
Definition bench_total_steps (input_widgets : gmap string string) (process_parsed : Program)
    : result Z :=
  count_blocks int_of_decimal float_of_decimal input_widgets process_parsed 0.

Definition asked (tr : list Event) : list bool :=
  flat_map (fun ev => match ev with AskYesNo _ _ answer => [answer] | _ => [] end) tr.

(** ** Progress as the specification words it *)

(** The reports [(from + 1) / T, ..., (from + n) / T]. *)
Definition fractions (total_steps from : Z) (n : nat) : list Q :=
  map (fun i => (inject_Z (from + Z.of_nat i) / inject_Z total_steps)%Q) (seq 1 n).

(** The steps the count before the run gives one loop. *)
Definition loop_steps (py_float : string -> option Q) (input_widgets : gmap string string)
    (for_loop : ForLoop) : result Z :=
  do start_val <- entry_or input_widgets (start for_loop) (to_float py_float) 0%Q;
  do end_val <- entry_or input_widgets (end_ for_loop) (to_float py_float) 1%Q;
  do step_val <- entry_or input_widgets (step for_loop) (to_float py_float) (1 # 10)%Q;
  steps_in_loop start_val end_val step_val.

(** An ascending loop has a positive bound step. *)
Definition ascending_step_positive (py_float : string -> option Q)
    (input_widgets : gmap string string) (for_loop : ForLoop) : Prop :=
  forall start_val end_val step_val : Q,
    entry_or input_widgets (start for_loop) (to_float py_float) 0%Q = Ok start_val ->
    entry_or input_widgets (end_ for_loop) (to_float py_float) 1%Q = Ok end_val ->
    entry_or input_widgets (step for_loop) (to_float py_float) (1 # 10)%Q = Ok step_val ->
    (start_val < end_val)%Q -> (0 < step_val)%Q.

(** The selection [task] asks for is filled in. *)
Definition selection_filled (selection : Selection) : bool :=
  negb (String.eqb (user selection) "" || String.eqb (project selection) ""
        || String.eqb (strip (experiment_name selection)) "").

(** The sweep values of loops counted [ks], of [n] passes over them, and of
    blocks counted [kss]. *)
Definition points (ks : list Z) : nat :=
  fold_right (fun k acc => (Z.to_nat k + acc)%nat) 0%nat ks.

Definition all_points (kss : list (list Z)) : nat :=
  fold_right (fun ks acc => (points ks + acc)%nat) 0%nat kss.

(** ** The vocabulary of the proofs *)

(** What the loop keeps true of its three locals. *)
Definition split_inv (res : list string) (current : string) (parens : Z) : Prop :=
  Forall (fun seg => no_top_comma 0 seg = true) res /\
  Forall (fun seg => depth_from 0 seg = 0) res /\
  no_top_comma 0 current = true /\
  depth_from 0 current = parens.

(** The text after the first segment. *)
Definition after_first (rest : list string) : string :=
  match rest with
  | [] => ""
  | _ => "," +:+ join "," rest
  end.

(** A device that answers every query with the same text. *)
Definition echo_write (cmd : string) (dev : string) : result unit * string := (Ok tt, dev).
Definition echo_read (dev : string) : result string * string := (Ok dev, dev).

(** Entries that are not numbers. *)
Definition bench_widgets : gmap string string := {[ "R" := "abc"; "D" := "1.x" ]}.

(** *** A logic of runs

    A run is followed through its trace.  At rest, every setpoint issued
    has its sample in the CSV file; while a sweep value is held, the last
    setpoint is still without one.  No instrument call has failed so far. *)

Definition no_failure (tr : list Event) : Prop :=
  Forall (fun ev => instrument_failure ev = None) tr.

Inductive phase : Type :=
| AtRest
| Holding (V : Q).

Definition pending (ph : phase) : list Q :=
  match ph with
  | AtRest => []
  | Holding V => [V]
  end.

Definition in_phase (ph : phase) (tr : list Event) : Prop :=
  no_failure tr /\ setpoints tr = map fst (samples tr) ++ pending ph.

(** The trace ends with the instrument call that failed with [e], the only
    one that failed, and the sweep value it belongs to has no sample. *)
Definition failed_at_last (e : exn) (tr : list Event) : Prop :=
  exists tr0 ev Vk,
    tr = tr0 ++ [ev] /\ instrument_failure ev = Some e /\ no_failure tr0 /\
    setpoints tr = map fst (samples tr) ++ [Vk].

(** How a run may end early: without any failed instrument call, or raising
    the exception of the call that failed last. *)
Definition aborted (raised : option exn) (tr : list Event) : Prop :=
  no_failure tr \/ exists e, raised = Some e /\ failed_at_last e tr.

Definition triple {Dev A} (P : list Event -> Prop) (m : M Dev A)
    (Q : A -> list Event -> Prop) : Prop :=
  forall (w : World Dev) (r : result A) (w' : World Dev),
    P (trace w) -> m w = (r, w') ->
    match r with
    | Ok a => Q a (trace w')
    | Raise e => aborted (Some e) (trace w')
    | Loops => aborted None (trace w')
    end.

(** Events that are neither an instrument call nor a row of data. *)
Definition is_quiet (ev : Event) : bool :=
  match ev with
  | Setpoint _ _ | Reading _ | WriteRow (DataRow _ _) => false
  | _ => true
  end.

(** The progress reports made so far. *)
Definition reports {Dev} (w : World Dev) : list Q := progress_reports (trace w).

(** *** Assertions on the world of a run

    The same reading of a run with the device in view.  A triple names what
    holds before, what holds after a return, and what is left when the
    code ends early, on the exception it raised if any. *)

Definition with_event {Dev} (w : World Dev) (ev : Event) : World Dev :=
  {| device := device w; trace := trace w ++ [ev] |}.

Definition hoare {Dev A} (P : World Dev -> Prop) (m : M Dev A)
    (Q : A -> World Dev -> Prop) (E : option exn -> World Dev -> Prop) : Prop :=
  forall (w : World Dev) (r : result A) (w' : World Dev),
    P w -> m w = (r, w') ->
    match r with
    | Ok a => Q a w'
    | Raise e => E (Some e) w'
    | Loops => E None w'
    end.

(** Every row of data follows its setpoint: at most the last setpoint
    issued is still without a sample. *)
Definition held (ph : phase) (tr : list Event) : Prop :=
  setpoints tr = map fst (samples tr) ++ pending ph.

Definition rows_follow_setpoints (tr : list Event) : Prop := exists ph, held ph tr.

Definition all_quiet (tr : list Event) : Prop := Forall (fun ev => is_quiet ev = true) tr.

(** *** What a sweep value leaves in the trace *)

Definition is_mean (cmd : Command) : bool :=
  match cmd with Mean _ => true | _ => false end.

Definition is_delay (cmd : Command) : bool :=
  match cmd with Delay _ => true | _ => false end.


(** The readings of one sweep value, each after its wait. *)
Definition reading_events (delay_val : Q) (r_val : Z) (currents : list Q) : list Event :=
  flat_map (fun i => [Sleep (delay_val / (2 * inject_Z r_val)); Reading (Ok i)]) currents.

(** The instrument of the source with [DEBUGGING = False], on the device
    that answers every query with the same text, connected or not. *)
Definition device_instrument (connected : bool) : Instrument string :=
  source_instrument float_of_decimal str_of_ratio pow10_whole echo_write echo_read
    (fun _ => connected) false.

Definition device_task (connected : bool) (input_widgets : gmap string string)
    (process_parsed : Program) : result unit * World string :=
  task int_of_decimal float_of_decimal str_of_int str_of_ratio yes
    (device_instrument connected) 100 input_widgets someone process_parsed
    (start_world "1.5,-3").

(** The readings of the debugging branch: every one is 10 times [p],
    where [p] is [10 ** -2]. *)
Definition simulated_readings (p : Q) (tr : list Event) : Prop :=
  Forall (fun ev => match ev with
                    | Reading outcome => outcome = Ok (inject_Z 10 * p)%Q
                    | _ => True
                    end) tr.

(** [I_mean] is [sum(currents) / len(currents)] for one or more such
    readings. *)
Definition simulated_mean (p I_mean : Q) : Prop :=
  exists currents : list Q,
    currents <> [] /\
    Forall (fun i => i = (inject_Z 10 * p)%Q) currents /\
    I_mean = (py_sum currents / inject_Z (Z.of_nat (length currents)))%Q.

(** What [setVoltage] raises with [DEBUGGING = False]. *)
Definition setVoltage_failure (present : bool) : exn :=
  if present then NameError "V"
  else AttributeError "'NoneType' object has no attribute 'write'".

(** *** Programs as method text

    The text of a program in the method language: the commands of a loop
    separated by commas between its braces, the loops of a block separated
    by semicolons between its braces, the blocks separated by colons. *)

Definition pair_text (kv : string * string) : string := fst kv +:+ "=" +:+ snd kv.

Definition command_text (cmd : Command) : string :=
  match cmd with
  | Mean param => "MEAN(" +:+ param +:+ ")"
  | Delay param => "DELAY(" +:+ param +:+ ")"
  | Outputs outputs => "OUTPUT(" +:+ join "," (map pair_text outputs) +:+ ")"
  end.

Definition commands_text (cmds : list Command) : string :=
  join "," (map command_text cmds).

Definition loop_text (for_loop : ForLoop) : string :=
  "FOR_RANGEV(" +:+ start for_loop +:+ "," +:+ end_ for_loop +:+ "," +:+ step for_loop
  +:+ "){" +:+ commands_text (commands for_loop) +:+ "}".

Definition loops_text (loops : list ForLoop) : string := join ";" (map loop_text loops).

Definition program_blocks (prog : Program) : list (string * string) :=
  map (fun blk => (repeats blk, loops_text (for_loops blk))) prog.

Definition program_text (prog : Program) : string := blocks_text (program_blocks prog).

(** The four groups the FOR_RANGEV pattern takes from the text of a loop. *)
Definition loop_fields (for_loop : ForLoop) : string * string * string * string :=
  (start for_loop, end_ for_loop, step for_loop, commands_text (commands for_loop)).

(** The characters the method language gives a meaning, and its layout. *)
Definition special_characters : list ascii :=
  [","%char; "("%char; ")"%char; "{"%char; "}"%char; ":"%char; ";"%char; "="%char;
   " "%char; LF].

Definition is_plain (c : ascii) : bool :=
  negb (existsb (Ascii.eqb c) special_characters).

(** A symbol is a non-empty run of plain characters; an identifier is a
    non-empty word. *)
Definition is_symbol (s : string) : bool :=
  negb (String.eqb s "") && string_forall is_plain s.

Definition is_identifier (s : string) : bool :=
  negb (String.eqb s "") && string_forall is_word s.

Fixpoint distinct (keys : list string) : bool :=
  match keys with
  | [] => true
  | key :: rest => negb (existsb (String.eqb key) rest) && distinct rest
  end.

Definition command_ok (cmd : Command) : bool :=
  match cmd with
  | Mean param | Delay param => is_symbol param
  | Outputs outputs =>
      forallb (fun kv => is_symbol (fst kv) && is_symbol (snd kv)) outputs
      && distinct (map fst outputs)
  end.

Definition loop_ok (for_loop : ForLoop) : bool :=
  is_symbol (start for_loop) && is_symbol (end_ for_loop) && is_symbol (step for_loop)
  && forallb command_ok (commands for_loop).

Definition repeat_block_ok (blk : RepeatBlock) : bool :=
  is_identifier (repeats blk) && forallb loop_ok (for_loops blk).

Definition program_ok (prog : Program) : bool := forallb repeat_block_ok prog.

(** The characters of the text of a command, of a loop and of a program. *)
Definition command_char (c : ascii) : bool :=
  is_plain c || existsb (Ascii.eqb c) ["("%char; ")"%char; ","%char; "="%char].

Definition loop_char (c : ascii) : bool :=
  command_char c || existsb (Ascii.eqb c) ["{"%char; "}"%char; ";"%char].

Definition program_char (c : ascii) : bool := loop_char c || (c =? ":")%char.

Definition no_paren (c : ascii) : bool := negb (c =? "(")%char && negb (c =? ")")%char.

(** The program of the test text of [Example.py]. *)
Definition example_program : Program :=
  let loop := {| start := "Vi"; end_ := "Vf"; step := "Vr";
                 commands := [Mean "R"; Delay "D"; Outputs [("Vout", "V"); ("Iout", "I")]] |} in
  let blk := {| repeats := "C"; for_loops := [loop; loop] |} in
  [blk; blk].

(** *** The name of the CSV file

    [task] names the file of a run after the experiment, with the number
    that follows the highest one among the files of the experiment in the
    listing of the project folder. *)

(** [s.endswith(suffix)] *)
Fixpoint ends_with (suffix s : string) : bool :=
  String.eqb s suffix ||
  match s with
  | String _ s' => ends_with suffix s'
  | "" => false
  end.

(** [re.search]: the first place, from the left, where the pattern matches. *)
Fixpoint search {A} (m : string -> option A) (s : string) : option A :=
  match m s with
  | Some a => Some a
  | None =>
      match s with
      | String _ s' => search m s'
      | "" => None
      end
  end.

(** The anchor [$]: the end of the text, or a line feed that ends it. *)
Definition end_of_text (s : string) : option string :=
  match s with
  | "" => Some s
  | String c "" => if (c =? LF)%char then Some s else None
  | _ => None
  end.

(** The pattern "_(\d+)\.csv$", with the class of the ASCII digits; it
    gives its group. *)
Definition number_pattern (s : string) : option string :=
  match Re.lit "_" (Re.plus is_digit (Re.lit ".csv" end_of_text)) s with
  | Some (digits, _) => Some digits
  | None => None
  end.

Definition zero_pad (width : nat) (digits : string) : string :=
  repeat_string (width - String.length digits) "0" +:+ digits.

(** The format [{n:03d}]: at least three characters, zeros after the sign. *)
Definition format_03d (n : Z) : string :=
  if n <? 0 then "-" +:+ zero_pad 2 (str_of_int (- n)) else zero_pad 3 (str_of_int n).

(** The numbers of the files that end the way the pattern asks. *)
Fixpoint csv_numbers (existing_files : list string) : result (list Z) :=
  match existing_files with
  | [] => Ok []
  | f :: rest =>
      match search number_pattern f with
      | Some digits =>
          do n <- to_int int_of_decimal digits;
          do numbers <- csv_numbers rest;
          Ok (n :: numbers)
      | None => csv_numbers rest
      end
  end.

(** [max(numbers, default=0)] *)
Definition max_or_zero (numbers : list Z) : Z :=
  match numbers with
  | [] => 0
  | n :: rest => fold_left Z.max rest n
  end.

(** The files of the listing that start with the experiment name and end
    in ".csv". *)
Definition existing_csv_files (experiment_name : string) (listing : list string)
    : list string :=
  List.filter (fun f => String.prefix experiment_name f && ends_with ".csv" f) listing.

Definition csv_name (experiment_name : string) (n : Z) : string :=
  experiment_name +:+ "_" +:+ format_03d n +:+ ".csv".

(** The lines of [task] under "Generate unique filename with increment";
    [listing] is what [os.listdir] gives for the project folder. *)
Definition next_csv_name (experiment_name : string) (listing : list string)
    : result string :=
  match existing_csv_files experiment_name listing with
  | [] => Ok (experiment_name +:+ "_001.csv")
  | existing_files =>
      do numbers <- csv_numbers existing_files;
      let next_num := max_or_zero numbers + 1 in
      Ok (csv_name experiment_name next_num)
  end.

(** *** The voltages of a run as the specification words them

    The blocks in the order of the program; every pass of a block over its
    loops in their order; every loop over its sweep values.  The passes of
    every block are read from the entry of [C], as the run reads them. *)

Section Plan.
Variable py_int : string -> option Z.
Variable py_float : string -> option Q.
Variable fuel : nat.
Variable input_widgets : gmap string string.

Definition loop_values (for_loop : ForLoop) : result (list Q) :=
  do start_val <- entry_or input_widgets (start for_loop) (to_float py_float) 0%Q;
  do end_val <- entry_or input_widgets (end_ for_loop) (to_float py_float) 1%Q;
  do step_val <- entry_or input_widgets (step for_loop) (to_float py_float) (1 # 10)%Q;
  sweep_values fuel start_val end_val step_val.

Definition planned_loop (for_loop : ForLoop) : list Q :=
  match loop_values for_loop with
  | Ok V_values => V_values
  | _ => []
  end.

Definition planned_pass (loops : list ForLoop) : list Q := flat_map planned_loop loops.

Definition planned_block (passes : nat) (blk : RepeatBlock) : list Q :=
  concat (repeat (planned_pass (for_loops blk)) passes).

Definition planned_run (prog : Program) : list Q :=
  match entry_or input_widgets "C" (to_int py_int) 1 with
  | Ok cycles_val => flat_map (planned_block (Z.to_nat cycles_val)) prog
  | _ => []
  end.

End Plan.

(** *** The outputs of an OUTPUT command as the specification words them *)

(** The value a piece gives [key], if the piece is a pair on that key. *)
Definition piece_value (key piece : string) : option string :=
  if contains "=" piece then
    match split_once "=" piece with
    | [k; v] => if String.eqb k key then Some v else None
    | _ => None
    end
  else None.

(** The value of the last piece that is a pair on [key]. *)
Definition last_value (pieces : list string) (key : string) : option string :=
  fold_left
    (fun found piece =>
       match piece_value key piece with
       | Some v => Some v
       | None => found
       end)
    pieces None.

(** ** The connection panel

    [_connect_device], [_set_connected], [_ask_disconnect] and
    [_update_status_color] of the main page, over the fields they read and
    write.  The VISA layer is a parameter: a call returns or raises.  The
    panel keeps the dialogs shown and the calls made on resources, in
    their order. *)

Inductive Colour : Type := Green | Blue | Red.

Inductive Dialog : Type :=
| InfoBox (title text : string)
| WarningBox (title text : string)
| ErrorBox (title text : string)
| YesNoBox (title text : string) (answer : bool).

Inductive VisaCall : Type :=
| VisaWrite (cmd : string)
| VisaRead
| VisaClose.

(** [handle] is [self.device], [connected] the flag of the controller. *)
Record Panel (Res : Type) : Type := {
  handle : option Res;
  connected : bool;
  disconnect_enabled : bool;
  indicator : Colour;
  listed_devices : list string;
  dialogs : list Dialog;
  visa_calls : list VisaCall
}.
Arguments handle {Res} _.
Arguments connected {Res} _.
Arguments disconnect_enabled {Res} _.
Arguments indicator {Res} _.
Arguments listed_devices {Res} _.
Arguments dialogs {Res} _.
Arguments visa_calls {Res} _.
Arguments Build_Panel {Res} _ _ _ _ _ _ _.

Section Connection.
Context {Res : Type}.
(** [self.rm.open_resource], and [write], [read] and [close] of a resource. *)
Variable open_resource : string -> exn + Res.
Variable write : string -> Res -> option exn * Res.
Variable read : Res -> (exn + string) * Res.
Variable close : Res -> option exn * Res.
(** [str(e)] of an exception. *)
Variable str_exn : exn -> string.
(** The answer to [messagebox.askyesno]. *)
Variable answer : bool.

Definition show_dialog (d : Dialog) (p : Panel Res) : Panel Res :=
  Build_Panel (handle p) (connected p) (disconnect_enabled p) (indicator p)
    (listed_devices p) (dialogs p ++ [d]) (visa_calls p).

(** Green while [self.device] holds a resource, blue while devices are
    listed, red otherwise. *)
Definition update_status_color (p : Panel Res) : Panel Res :=
  let color :=
    match handle p with
    | Some _ => Green
    | None =>
        match listed_devices p with
        | [] => Red
        | _ => Blue
        end
    end in
  Build_Panel (handle p) (connected p) (disconnect_enabled p) color (listed_devices p)
    (dialogs p) (visa_calls p).

Definition set_connected (c : bool) (p : Panel Res) : Panel Res :=
  update_status_color
    (Build_Panel (handle p) c c (indicator p) (listed_devices p) (dialogs p) (visa_calls p)).

Definition resource_call (c : VisaCall) (res : Res) : option exn * Res :=
  match c with
  | VisaWrite cmd => write cmd res
  | VisaRead =>
      match read res with
      | (inl e, res') => (Some e, res')
      | (inr _, res') => (None, res')
      end
  | VisaClose => close res
  end.

(** Calls on a resource, one after the other, up to the first that
    raises: the exception if any, the resource, and the calls made. *)
Fixpoint talk (calls : list VisaCall) (res : Res) : option exn * Res * list VisaCall :=
  match calls with
  | [] => (None, res, [])
  | c :: rest =>
      match resource_call c res with
      | (None, res') =>
          let '(failure, res'', made) := talk rest res' in
          (failure, res'', c :: made)
      | (Some e, res') => (Some e, res', [c])
      end
  end.

(** The panel holds the resource as the calls left it. *)
Definition hold (res : Res) (made : list VisaCall) (p : Panel Res) : Panel Res :=
  Build_Panel (Some res) (connected p) (disconnect_enabled p) (indicator p)
    (listed_devices p) (dialogs p) (visa_calls p ++ made).

Definition release (p : Panel Res) : Panel Res :=
  Build_Panel None (connected p) (disconnect_enabled p) (indicator p)
    (listed_devices p) (dialogs p) (visa_calls p).

Definition connection_failed (dev : string) (e : exn) (p : Panel Res) : Panel Res :=
  set_connected false
    (show_dialog
       (ErrorBox "Connection failed"
          ("Could not open " +:+ dev +:+ ":" +:+ String LF "" +:+ str_exn e)) p).

(** [_connect_device]; [dev] is the text of the device box.  The dialog
    that would show the identity of the instrument reads the name
    [dev_name], which nothing binds. *)
Definition connect_device (dev : string) (p : Panel Res) : Panel Res :=
  if String.eqb dev "" then show_dialog (WarningBox "No device" "Select a device first.") p
  else
    match open_resource dev with
    | inl e => connection_failed dev e p
    | inr res =>
        match talk [VisaWrite "MODE 2"; VisaWrite "CELL 1"] res with
        | (Some e, res, made) => connection_failed dev e (hold res made p)
        | (None, res, made) =>
            let p := hold res made p in
            let '(failure, res, made) :=
              talk [VisaWrite "ID"; VisaRead; VisaWrite "VER"; VisaRead;
                    VisaWrite "ERR"; VisaRead] res in
            let p := hold res made p in
            let e := match failure with
                     | Some e => e
                     | None => NameError "dev_name"
                     end in
            let p := show_dialog (ErrorBox "Connection Error" (str_exn e)) p in
            let p := set_connected true p in
            show_dialog
              (InfoBox "Connected"
                 ("Connection test to " +:+ dev +:+ " completed (quick test).")) p
        end
    end.

(** [_ask_disconnect] *)
Definition ask_disconnect (p : Panel Res) : Panel Res :=
  if negb (connected p) then p
  else
    let p :=
      show_dialog
        (YesNoBox "Disconnect" "Are you sure you want to disconnect the device?" answer) p in
    if answer then
      let p :=
        match handle p with
        | Some res =>
            let '(_, res, made) := talk [VisaWrite "CELL 0"; VisaClose] res in
            hold res made p
        | None => p
        end in
      let p := release p in
      let p := set_connected false p in
      let p := show_dialog (InfoBox "Disconnected" "Device disconnected.") p in
      update_status_color p
    else p.

End Connection.

(** A panel at start: nothing is held. *)
Definition fresh_panel {Res} (devices : list string) : Panel Res :=
  Build_Panel None false false (match devices with [] => Red | _ => Blue end) devices [] [].

(** A VISA layer for tests: a resource counts the calls it still accepts. *)
Definition counting_open (budget : nat) (dev : string) : exn + nat := inr budget.

Definition counting_write (cmd : string) (n : nat) : option exn * nat :=
  match n with
  | O => (Some (DeviceError "timeout"), O)
  | S n' => (None, n')
  end.

Definition counting_read (n : nat) : (exn + string) * nat :=
  match n with
  | O => (inl (DeviceError "timeout"), O)
  | S n' => (inr "273A", n')
  end.

Definition counting_close (n : nat) : option exn * nat := (None, n).

Definition exn_text (e : exn) : string :=
  match e with
  | NameError name => "name '" +:+ name +:+ "' is not defined"
  | DeviceError msg => msg
  | _ => "error"
  end.

(** ** The inputs of a method

    [update_inputs] fills [self.input_widgets] from the ["inputs"] list of
    the method selected: one entry for each item, holding the text of its
    default.  An item is the dict [json.load] gave; any of its keys may be
    missing.  [input_default] is the default already turned to text by
    [str]. *)

Record MethodInput : Type := {
  input_label : option string;
  input_variable : option string;
  input_default : option string
}.

(** [str(inp.get("default", ""))] *)
Definition default_text (inp : MethodInput) : string :=
  match input_default inp with
  | Some text => text
  | None => ""
  end.

(** How the loop over the items ends: at its end, or at the [KeyError] of
    the key it did not find. *)
Inductive Filling : Type :=
| Filled
| MissingKey (key : string).

(** [for inp in method.get("inputs", [])]: the label is read first, the
    variable last. *)
Fixpoint fill_inputs (inputs : list MethodInput) (input_widgets : gmap string string)
    : Filling * gmap string string :=
  match inputs with
  | [] => (Filled, input_widgets)
  | inp :: rest =>
      match input_label inp with
      | None => (MissingKey "label", input_widgets)
      | Some _ =>
          match input_variable inp with
          | None => (MissingKey "variable", input_widgets)
          | Some var => fill_inputs rest (<[var := default_text inp]> input_widgets)
          end
      end
  end.

(** [update_inputs]: [method] is the method found for the name selected,
    as its list of inputs.  The outcome, the entries, and whether the Run
    button was made. *)
Definition update_inputs (method : option (list MethodInput))
    : Filling * gmap string string * bool :=
  match method with
  | None => (Filled, ∅, false)
  | Some inputs =>
      match fill_inputs inputs ∅ with
      | (Filled, input_widgets) => (Filled, input_widgets, true)
      | (MissingKey key, input_widgets) => (MissingKey key, input_widgets, false)
      end
  end.

(** The default a list of inputs declares for a variable: the one of the
    last item on that variable. *)
Definition declared_default (inputs : list MethodInput) (var : string) : option string :=
  fold_left
    (fun found inp =>
       match input_variable inp with
       | Some v => if String.eqb v var then Some (default_text inp) else found
       | None => found
       end)
    inputs None.

Definition input_ok (inp : MethodInput) : bool :=
  match input_label inp, input_variable inp with
  | Some _, Some _ => true
  | _, _ => false
  end.

(** The inputs of a sweep method, as a method file lists them. *)
Definition sweep_inputs : list MethodInput :=
  [{| input_label := Some "Cycles"; input_variable := Some "C"; input_default := Some "2" |};
   {| input_label := Some "Start (mV)"; input_variable := Some "Vi";
      input_default := Some "0" |};
   {| input_label := Some "End (mV)"; input_variable := Some "Vf"; input_default := Some "1" |};
   {| input_label := Some "Step (mV)"; input_variable := Some "Vr";
      input_default := Some "0.5" |};
   {| input_label := Some "Cycles again"; input_variable := Some "C";
      input_default := Some "3" |}].

(** * Properties *)

(** ** Strings *)

Lemma append_nil_r (s : string) : s +:+ "" = s.
Proof. induction s as [|c s IH]; simpl; [reflexivity | now rewrite IH]. Qed.

Lemma append_assoc (a b c : string) : (a +:+ b) +:+ c = a +:+ (b +:+ c).
Proof. induction a as [|x a IH]; simpl; [reflexivity | now rewrite IH]. Qed.

Lemma append_length (a b : string) :
  String.length (a +:+ b) = (String.length a + String.length b)%nat.
Proof. induction a as [|x a IH]; simpl; [reflexivity | now rewrite IH]. Qed.

Lemma join_snoc (sep : string) (l : list string) (x : string) :
  join sep (l ++ [x]) =
  match l with
  | [] => x
  | _ => join sep l +:+ sep +:+ x
  end.
Proof.
  induction l as [|y l IH]; [reflexivity|].
  destruct l as [|z l]; [reflexivity|].
  change (join sep ((y :: z :: l) ++ [x])) with (y +:+ sep +:+ join sep ((z :: l) ++ [x])).
  rewrite IH.
  change (join sep (y :: z :: l)) with (y +:+ sep +:+ join sep (z :: l)).
  now rewrite !append_assoc.
Qed.

(** ** split_commands *)

Lemma depth_from_app (d : Z) (a b : string) :
  depth_from d (a +:+ b) = depth_from (depth_from d a) b.
Proof. revert d; induction a as [|c a IH]; intros d; simpl; [reflexivity | apply IH]. Qed.

Lemma no_top_comma_app (d : Z) (a b : string) :
  no_top_comma d (a +:+ b) = no_top_comma d a && no_top_comma (depth_from d a) b.
Proof.
  revert d; induction a as [|c a IH]; intros d; simpl; [reflexivity|].
  now rewrite IH, andb_assoc.
Qed.

Lemma split_loop_inv (s : string) :
  forall res current parens,
    split_inv res current parens ->
    join "," (fst (split_loop s res current parens) ++ [snd (split_loop s res current parens)])
      = join "," (res ++ [current]) +:+ s /\
    Forall (fun seg => no_top_comma 0 seg = true) (fst (split_loop s res current parens)) /\
    Forall (fun seg => depth_from 0 seg = 0) (fst (split_loop s res current parens)) /\
    no_top_comma 0 (snd (split_loop s res current parens)) = true.
Proof.
  induction s as [|c s IH]; intros res current parens (Hres & Hbal & Hcur & Hdep).
  - simpl. rewrite append_nil_r. auto.
  - cbn [split_loop].
    assert (Hstep : (if (c =? "(")%char then parens + 1
                     else if (c =? ")")%char then parens - 1 else parens)
                    = depth_step parens c) by reflexivity.
    rewrite Hstep.
    destruct ((c =? ",")%char && (depth_step parens c =? 0)) eqn:Hcut.
    + apply andb_prop in Hcut as [Hc Hz].
      apply Ascii.eqb_eq in Hc; subst c.
      apply Z.eqb_eq in Hz. change (depth_step parens ",") with parens in *.
      destruct (IH (res ++ [current]) "" parens) as (Hj & H1 & H2 & H3).
      { repeat split.
        - apply Forall_app; split; [assumption | constructor; [assumption | constructor]].
        - apply Forall_app; split; [assumption | constructor; [congruence | constructor]].
        - simpl; congruence. }
      split; [|auto].
      rewrite Hj. rewrite (join_snoc "," (res ++ [current]) "").
      destruct (res ++ [current]) eqn:E; [now destruct res|].
      rewrite <- E. rewrite !append_assoc. reflexivity.
    + destruct (IH res (current +:+ String c "") (depth_step parens c)) as (Hj & H1 & H2 & H3).
      { repeat split; try assumption.
        - rewrite no_top_comma_app, Hcur, Hdep. simpl. now rewrite Hcut.
        - rewrite depth_from_app, Hdep. reflexivity. }
      split; [|auto].
      rewrite Hj. rewrite !join_snoc.
      destruct res; rewrite !append_assoc; reflexivity.
Qed.

(** The cut at the commas of depth 0 is unique. *)

Lemma append_eq_append (a b c d : string) :
  a +:+ b = c +:+ d ->
  exists u, (a = c +:+ u /\ d = u +:+ b) \/ (c = a +:+ u /\ b = u +:+ d).
Proof.
  revert c. induction a as [|x a IH]; intros c H.
  - exists c. right. split; [reflexivity | exact H].
  - destruct c as [|y c].
    + exists (String x a). left. split; [reflexivity | symmetry; exact H].
    + cbn [append] in H. injection H as -> H.
      destruct (IH c H) as [u [[-> ->] | [-> ->]]]; exists u; [left | right]; auto.
Qed.

Lemma append_cancel_l (a b c : string) : a +:+ b = a +:+ c -> b = c.
Proof. induction a as [|x a IH]; cbn [append]; [auto | intros [= H]; auto]. Qed.

Lemma join_cons (s : string) (rest : list string) :
  join "," (s :: rest) = s +:+ after_first rest.
Proof. destruct rest; cbn [join after_first]; [now rewrite append_nil_r | reflexivity]. Qed.

Lemma cut_tail (text s r : string) (rs : list string) :
  cut_at_top_commas text (s :: r :: rs) -> cut_at_top_commas (join "," (r :: rs)) (r :: rs).
Proof.
  intros (_ & _ & Hc & Hd). repeat split.
  - discriminate.
  - now inversion Hc.
  - change (removelast (s :: r :: rs)) with (s :: removelast (r :: rs)) in Hd.
    now inversion Hd.
Qed.

(** A segment followed by a comma cannot be the start of a longer one. *)
Lemma no_longer_segment (s u : string) (rest : list string) (c : ascii) (t : string) :
  Forall (fun seg => depth_from 0 seg = 0) (removelast (s :: rest)) ->
  after_first rest = String c t ->
  no_top_comma 0 (s +:+ String c u) = false.
Proof.
  intros Hd Ht. destruct rest as [|r rs]; [discriminate|].
  cbn [after_first append] in Ht. injection Ht as <- _.
  change (removelast (s :: r :: rs)) with (s :: removelast (r :: rs)) in Hd.
  inversion Hd as [|? ? Hs _]; subst.
  rewrite no_top_comma_app, Hs. cbn. apply andb_false_r.
Qed.

Lemma cut_unique (segs : list string) :
  forall text segs',
    cut_at_top_commas text segs -> cut_at_top_commas text segs' -> segs' = segs.
Proof.
  induction segs as [|s rest IH]; intros text segs' H H'.
  - now destruct H.
  - destruct segs' as [|s' rest']; [now destruct H'|].
    pose proof H as (_ & Hj & Hc & Hd). pose proof H' as (_ & Hj' & Hc' & Hd').
    rewrite join_cons in Hj, Hj'.
    assert (Hs : s' = s /\ after_first rest' = after_first rest).
    { rewrite <- Hj' in Hj. destruct (append_eq_append _ _ _ _ Hj) as [u [[E1 E2] | [E1 E2]]].
      - destruct u as [|c u].
        + rewrite append_nil_r in E1. now split.
        + exfalso. cbn [append] in E2.
          pose proof (no_longer_segment s' u rest' c _ Hd' E2) as Hbad.
          rewrite <- E1 in Hbad. inversion Hc; congruence.
      - destruct u as [|c u].
        + rewrite append_nil_r in E1. now split.
        + exfalso. cbn [append] in E2.
          pose proof (no_longer_segment s u rest c _ Hd E2) as Hbad.
          rewrite <- E1 in Hbad. inversion Hc'; congruence. }
    destruct Hs as [-> Ht]. f_equal.
    destruct rest as [|r rs], rest' as [|r' rs']; try discriminate; [reflexivity|].
    cbn [after_first] in Ht. apply (append_cancel_l ",") in Ht.
    apply (IH (join "," (r :: rs))).
    + exact (cut_tail _ _ _ _ H).
    + rewrite <- Ht. exact (cut_tail _ _ _ _ H').
Qed.

(** C6.  [split_commands] cuts a text at exactly its commas of parenthesis
    depth 0, the depth being the signed count of opening minus closing
    parentheses read so far: the segments joined by commas give the text
    back, a comma inside a segment is never at depth 0, there is one such
    cut only, and whatever is open at the end of the text is the last
    segment, kept when it is not empty; and the command list of the example
    method splits into its three commands. *)
Theorem split_commands_top_level_commas (text : string) :
  (exists segs,
      cut_at_top_commas text segs /\
      (forall segs', cut_at_top_commas text segs' -> segs' = segs) /\
      split_commands text = drop_empty_last segs) /\
  split_commands "MEAN(R),DELAY(D),OUTPUT(Vout=V,Iout=I)"
    = ["MEAN(R)"; "DELAY(D)"; "OUTPUT(Vout=V,Iout=I)"].
Proof.
  split; [|reflexivity].
  destruct (split_loop_inv text [] "" 0) as (Hj & H1 & H2 & H3).
  { repeat split; constructor. }
  unfold split_commands.
  destruct (split_loop text [] "" 0) as [res current] eqn:E. simpl in *.
  assert (Hcut : cut_at_top_commas text (res ++ [current])).
  { repeat split.
    - now destruct res.
    - exact Hj.
    - apply Forall_app; split; [assumption | constructor; [assumption | constructor]].
    - rewrite removelast_last. assumption. }
  exists (res ++ [current]). split; [exact Hcut|]. split.
  - intros segs' H'. exact (cut_unique _ _ _ Hcut H').
  - unfold drop_empty_last. rewrite last_snoc.
    destruct current; [now rewrite removelast_last | reflexivity].
Qed.

(** ** Pattern matching *)

Lemma lit_app {A} (p : string) (k : string -> option A) (s : string) :
  Re.lit p k (p +:+ s) = k s.
Proof.
  induction p as [|c p IH]; simpl; [reflexivity|].
  now rewrite Ascii.eqb_refl.
Qed.

Lemma lit_head_mismatch {A} (c d : ascii) (p s : string) (k : string -> option A) :
  (c =? d)%char = false -> Re.lit (String c p) k (String d s) = None.
Proof. intros H; simpl; now rewrite H. Qed.

(** A greedy run takes all of [v] when what follows cannot extend it and
    the rest of the pattern matches there. *)
Lemma star_takes_all {A} (cls : ascii -> bool) (k : string -> option A) (v r : string) (a : A) :
  string_forall cls v = true ->
  (forall d r', r = String d r' -> cls d = false) ->
  k r = Some a ->
  Re.star cls k (v +:+ r) = Some (v, a).
Proof.
  intros Hv Hr Hk. induction v as [|c v IH].
  - destruct r as [|d r]; cbn [append Re.star Re.group0]; [now rewrite Hk|].
    rewrite (Hr d r eq_refl). now rewrite Hk.
  - cbn [string_forall] in Hv. apply andb_prop in Hv as [Hc Hv].
    change (String c v +:+ r) with (String c (v +:+ r)).
    cbn [Re.star]. rewrite Hc, (IH Hv). reflexivity.
Qed.

Lemma plus_takes_all {A} (cls : ascii -> bool) (k : string -> option A) (v r : string) (a : A) :
  v <> "" ->
  string_forall cls v = true ->
  (forall d r', r = String d r' -> cls d = false) ->
  k r = Some a ->
  Re.plus cls k (v +:+ r) = Some (v, a).
Proof.
  intros Hne Hv Hr Hk. destruct v as [|c v]; [congruence|].
  cbn [string_forall] in Hv. apply andb_prop in Hv as [Hc Hv].
  change (String c v +:+ r) with (String c (v +:+ r)).
  unfold Re.plus. rewrite Hc, (star_takes_all cls k v r a Hv Hr Hk). reflexivity.
Qed.

(** The lazy body of a block stops at the brace that closes the block. *)
Lemma lazy_body_stops (b tail : string) :
  string_forall is_dot b = true ->
  no_close_colon b = true ->
  Re.colon_or_end tail = Some tail ->
  Re.lazy_star is_dot (Re.lit "}" Re.colon_or_end) (b +:+ "}" +:+ tail) = Some (b, tail).
Proof.
  intros Hdot Hncc Htail. induction b as [|c b IH].
  - change ("" +:+ "}" +:+ tail) with (String "}" tail).
    cbn [Re.lazy_star Re.lit]. now rewrite Ascii.eqb_refl, Htail.
  - cbn [string_forall no_close_colon] in Hdot, Hncc.
    apply andb_prop in Hdot as [Hc Hdot]. apply andb_prop in Hncc as [Hcc Hncc].
    specialize (IH Hdot Hncc).
    change ((String c b) +:+ "}" +:+ tail) with (String c (b +:+ "}" +:+ tail)).
    cbn [Re.lazy_star].
    assert (Hk : Re.lit "}" Re.colon_or_end (String c (b +:+ "}" +:+ tail)) = None).
    { cbn [Re.lit]. destruct ("}" =? c)%char eqn:E; [|reflexivity].
      apply Ascii.eqb_eq in E; subst c.
      rewrite Ascii.eqb_refl in Hcc. cbn [andb negb] in Hcc.
      destruct b as [|d b]; [reflexivity|].
      change (String d b +:+ "}" +:+ tail) with (String d (b +:+ "}" +:+ tail)).
      cbn [starts_with string_forall] in *. apply andb_prop in Hdot as [Hd _].
      unfold is_dot in Hd. unfold Re.colon_or_end.
      destruct (d =? ":")%char; [discriminate|].
      destruct (d =? LF)%char; [discriminate | reflexivity]. }
    rewrite Hk, Hc, IH. reflexivity.
Qed.

Lemma findall_skip {A} (m : string -> option (A * string)) (a rest : string) :
  Re.findall_from m (a +:+ rest) (String.length a) = Re.findall_from m rest 0.
Proof. induction a as [|c a IH]; simpl; [reflexivity | exact IH]. Qed.

(** A match at the head of the text gives the first item, and the scan goes
    on after it. *)
Lemma findall_hit {A} (m : string -> option (A * string)) (c : ascii) (a rest : string) (g : A) :
  m (String c (a +:+ rest)) = Some (g, rest) ->
  Re.findall_from m (String c (a +:+ rest)) 0 = g :: Re.findall_from m rest 0.
Proof.
  intros H. cbn [Re.findall_from]. rewrite H. f_equal.
  rewrite append_length.
  replace (String.length a + String.length rest - String.length rest)%nat
    with (String.length a) by lia.
  apply findall_skip.
Qed.

Lemma findall_miss {A} (m : string -> option (A * string)) (c : ascii) (s : string) :
  m (String c s) = None ->
  Re.findall_from m (String c s) 0 = Re.findall_from m s 0.
Proof. intros H. cbn [Re.findall_from]. now rewrite H. Qed.

(** A pattern that matches at no place of the text finds nothing. *)
Lemma findall_nowhere {A} (m : string -> option (A * string)) (s : string) :
  (forall a b, s = a +:+ b -> m b = None) ->
  Re.findall m s = [].
Proof.
  unfold Re.findall. induction s as [|c s IH]; intros H.
  - simpl. now rewrite (H "" "" eq_refl).
  - rewrite findall_miss by (apply (H ""); reflexivity).
    apply IH. intros a b ->. apply (H (String c a)). reflexivity.
Qed.

(** ** parse_process never raises *)

Lemma split_once_two (c : ascii) (p : string) :
  contains c p = true -> exists k v, split_once c p = [k; v].
Proof.
  induction p as [|d p IH]; cbn [contains split_once]; [discriminate|].
  destruct (d =? c)%char; cbn [orb]; [eauto|].
  intros H. destruct (IH H) as (k & v & ->). eauto.
Qed.

Lemma parse_pairs_total (pairs : list string) :
  forall outputs, exists d, parse_pairs pairs outputs = Ok d.
Proof.
  induction pairs as [|p pairs IH]; intros outputs; cbn [parse_pairs]; [eauto|].
  destruct (contains "=" p) eqn:E; [|apply IH].
  destruct (split_once_two _ _ E) as (k & v & ->). apply IH.
Qed.

Lemma parse_command_total (cmd : string) : exists l, parse_command cmd = Ok l.
Proof.
  unfold parse_command.
  destruct (Re.command_pattern cmd) as [[name param]|]; [|eauto].
  destruct (String.eqb (upper name) "MEAN"); [eauto|].
  destruct (String.eqb (upper name) "DELAY"); [eauto|].
  destruct (String.eqb (upper name) "OUTPUT"); [|eauto].
  destruct (parse_pairs_total (split_commands param) []) as [d ->].
  cbn [rbind]. eauto.
Qed.

Lemma parse_commands_total (raw : list string) :
  forall acc, exists l, parse_commands raw acc = Ok l.
Proof.
  induction raw as [|cmd raw IH]; intros acc; cbn [parse_commands]; [eauto|].
  destruct (parse_command_total cmd) as [l ->]. cbn [rbind]. apply IH.
Qed.

Lemma parse_for_blocks_total (blocks : list (string * string * string * string)) :
  forall acc, exists l, parse_for_blocks blocks acc = Ok l.
Proof.
  induction blocks as [|[[[a b] c] body] blocks IH]; intros acc; cbn [parse_for_blocks]; [eauto|].
  destruct (parse_commands_total (split_commands body) []) as [l ->]. cbn [rbind]. apply IH.
Qed.

Lemma parse_for_loops_total (inner : string) : exists l, parse_for_loops inner = Ok l.
Proof. apply parse_for_blocks_total. Qed.

(** The blocks come out one per match, in the order of the matches, after
    those already in [parsed]. *)
Lemma parse_repeat_matches_in_order (ms : list (string * string)) :
  forall parsed, exists prog,
    parse_repeat_matches ms parsed = Ok (parsed ++ prog) /\
    map repeats prog = map fst ms /\
    Forall2 (fun blk vb => parse_for_loops (snd vb) = Ok (for_loops blk)) prog ms.
Proof.
  induction ms as [|[v b] ms IH]; intros parsed; cbn [parse_repeat_matches].
  - exists []. rewrite app_nil_r. repeat split; constructor.
  - destruct (parse_for_loops_total b) as [l Hl]. rewrite Hl. cbn [rbind].
    destruct (IH (parsed ++ [{| repeats := v; for_loops := l |}])) as (prog & Hp & Hn & Hf).
    exists ({| repeats := v; for_loops := l |} :: prog).
    rewrite Hp, <- app_assoc. repeat split.
    + cbn [map fst repeats]. now rewrite Hn.
    + constructor; [exact Hl | exact Hf].
Qed.

Lemma parse_process_total (text : string) : exists prog, parse_process text = Ok prog.
Proof.
  unfold parse_process.
  destruct (parse_repeat_matches_in_order
              (Re.findall Re.repeat_pattern (strip_layout text)) []) as (prog & H & _).
  eauto.
Qed.

(** ** The layout that [parse_process] removes *)

Lemma remove_char_app (c : ascii) (a b : string) :
  remove_char c (a +:+ b) = remove_char c a +:+ remove_char c b.
Proof.
  induction a as [|d a IH]; cbn [append remove_char]; [reflexivity|].
  destruct (d =? c)%char; [exact IH | cbn [append]; now rewrite IH].
Qed.

Lemma strip_layout_app (a b : string) :
  strip_layout (a +:+ b) = strip_layout a +:+ strip_layout b.
Proof. unfold strip_layout. now rewrite !remove_char_app. Qed.

Lemma strip_layout_layout (w : string) :
  string_forall is_layout w = true -> strip_layout w = "".
Proof.
  unfold strip_layout. induction w as [|c w IH]; cbn [string_forall remove_char]; [reflexivity|].
  intros H. apply andb_prop in H as [Hc Hw]. unfold is_layout in Hc.
  destruct (c =? " ")%char eqn:E1; [exact (IH Hw)|].
  cbn [orb] in Hc. cbn [remove_char]. rewrite Hc. exact (IH Hw).
Qed.

Lemma remove_char_absent (c : ascii) (s : string) :
  contains c s = false -> remove_char c s = s.
Proof.
  induction s as [|d s IH]; cbn [contains remove_char]; [reflexivity|].
  destruct (d =? c)%char; cbn [orb]; [discriminate|].
  intros H. now rewrite (IH H).
Qed.

Lemma contains_remove_char_same (c : ascii) (s : string) : contains c (remove_char c s) = false.
Proof.
  induction s as [|d s IH]; cbn [remove_char]; [reflexivity|].
  destruct (d =? c)%char eqn:E; [exact IH|]. cbn [contains]. now rewrite E, IH.
Qed.

Lemma contains_remove_char_other (c d : ascii) (s : string) :
  contains c s = false -> contains c (remove_char d s) = false.
Proof.
  induction s as [|x s IH]; cbn [contains remove_char]; [reflexivity|].
  intros H. apply orb_false_elim in H as [Hx Hs].
  destruct (x =? d)%char; [exact (IH Hs)|]. cbn [contains]. now rewrite Hx, (IH Hs).
Qed.

Lemma strip_layout_idempotent (text : string) :
  strip_layout (strip_layout text) = strip_layout text.
Proof.
  unfold strip_layout.
  rewrite (remove_char_absent " " (remove_char LF (remove_char " " text))).
  - apply remove_char_absent, contains_remove_char_same.
  - apply contains_remove_char_other, contains_remove_char_same.
Qed.

Lemma strip_layout_no_LF (text : string) : string_forall is_dot (strip_layout text) = true.
Proof.
  unfold strip_layout. generalize (remove_char " " text) as s.
  induction s as [|c s IH]; cbn [remove_char]; [reflexivity|].
  destruct (c =? LF)%char eqn:E; [exact IH|].
  cbn [string_forall]. unfold is_dot at 1. now rewrite E, IH.
Qed.

Lemma string_forall_app (p : ascii -> bool) (a b : string) :
  string_forall p (a +:+ b) = string_forall p a && string_forall p b.
Proof.
  induction a as [|c a IH]; cbn [append string_forall]; [reflexivity|].
  now rewrite IH, andb_assoc.
Qed.

(** ** Blocks separated by colons *)

Lemma block_text_app (vb : string * string) (tail : string) :
  block_text vb +:+ tail = "REPEAT(" +:+ fst vb +:+ "){" +:+ snd vb +:+ "}" +:+ tail.
Proof. unfold block_text. now rewrite !append_assoc. Qed.

Lemma repeat_pattern_block (vb : string * string) (tail : string) :
  block_ok vb ->
  string_forall is_dot (snd vb) = true ->
  Re.colon_or_end tail = Some tail ->
  Re.repeat_pattern (block_text vb +:+ tail) = Some (vb, tail).
Proof.
  intros (Hne & Hw & Hncc) Hdot Htail. destruct vb as [v b]. cbn [fst snd] in *.
  rewrite block_text_app. cbn [fst snd]. unfold Re.repeat_pattern.
  rewrite lit_app.
  rewrite (plus_takes_all is_word _ v ("){" +:+ b +:+ "}" +:+ tail) (b, tail)); auto.
  - intros d r' E. injection E as <- _. reflexivity.
  - rewrite lit_app. now apply lazy_body_stops.
Qed.

Lemma string_forall_block_body (p : ascii -> bool) (vb : string * string) :
  string_forall p (block_text vb) = true -> string_forall p (snd vb) = true.
Proof.
  unfold block_text. rewrite !string_forall_app. intros H.
  do 3 (apply andb_prop in H as [_ H]).
  apply andb_prop in H as [H _]. exact H.
Qed.

Lemma findall_block_step (vb : string * string) (tail : string) :
  block_ok vb ->
  string_forall is_dot (snd vb) = true ->
  Re.colon_or_end tail = Some tail ->
  Re.findall_from Re.repeat_pattern (block_text vb +:+ tail) 0
    = vb :: Re.findall_from Re.repeat_pattern tail 0.
Proof.
  intros Hok Hdot Htail.
  apply (findall_hit Re.repeat_pattern "R"
           ("EPEAT(" +:+ fst vb +:+ "){" +:+ snd vb +:+ "}") tail vb).
  exact (repeat_pattern_block vb tail Hok Hdot Htail).
Qed.

(** The scan for blocks finds every block of a text made of blocks
    separated by colons, in their order. *)
Lemma findall_blocks (blocks : list (string * string)) :
  Forall block_ok blocks ->
  string_forall is_dot (blocks_text blocks) = true ->
  Re.findall Re.repeat_pattern (blocks_text blocks) = blocks.
Proof.
  unfold Re.findall, blocks_text.
  induction blocks as [|vb blocks IH]; intros Hok Hdot; [reflexivity|].
  inversion Hok as [|? ? Hvb Hrest]; subst.
  destruct blocks as [|vb' blocks].
  - cbn [map join] in *.
    rewrite <- (append_nil_r (block_text vb)).
    rewrite findall_block_step; auto using string_forall_block_body.
  - change (join ":" (map block_text (vb :: vb' :: blocks)))
      with (block_text vb +:+ ":" +:+ join ":" (map block_text (vb' :: blocks))) in *.
    rewrite string_forall_app in Hdot. apply andb_prop in Hdot as [Hd1 Hd2].
    rewrite string_forall_app in Hd2. apply andb_prop in Hd2 as [_ Hd2].
    rewrite findall_block_step; auto using string_forall_block_body.
    f_equal.
    change (":" +:+ join ":" (map block_text (vb' :: blocks)))
      with (String ":" (join ":" (map block_text (vb' :: blocks)))).
    rewrite findall_miss by reflexivity.
    apply IH; assumption.
Qed.




(** C9, as stated, fails: a tab is whitespace, and the text of a block with
    a tab after the keyword parses to no block, while the same text without
    its whitespace parses to one. *)
Lemma parse_tab_counterexample :
  remove_whitespace tabbed_process = "REPEAT(C){}" /\
  parse_process tabbed_process = Ok [] /\
  parse_process (remove_whitespace tabbed_process) = Ok [{| repeats := "C"; for_loops := [] |}] /\
  parse_process tabbed_process <> parse_process (remove_whitespace tabbed_process).
Proof. repeat split. discriminate. Qed.

(** C9, amended.  A text parses to the same program as the text without
    its spaces and line feeds, and a run of spaces and line feeds inserted
    anywhere in a text does not change the program it parses to. *)
Theorem parse_ignores_spaces_and_line_feeds :
  (forall text : string, parse_process text = parse_process (strip_layout text)) /\
  (forall a w b : string,
      string_forall is_layout w = true ->
      parse_process (a +:+ w +:+ b) = parse_process (a +:+ b)).
Proof.
  split.
  - intros text. unfold parse_process. now rewrite strip_layout_idempotent.
  - intros a w b Hw. unfold parse_process.
    now rewrite !strip_layout_app, (strip_layout_layout w Hw).
Qed.

Lemma parse_ignores_spaces_and_line_feeds_witness :
  parse_process ("REPEAT(C)" +:+ ("  " +:+ nl +:+ " ") +:+ "{}") = parse_process ("REPEAT(C)" +:+ "{}").
Proof.
  apply (proj2 parse_ignores_spaces_and_line_feeds "REPEAT(C)" ("  " +:+ nl +:+ " ") "{}").
  reflexivity.
Defined.

(** ** readCurrent *)

Section ReadCurrent.
Context {Dev : Type}.
Variable py_float : string -> option Q.
Variable pow10 : Q -> option Q.
Variable device_write : string -> Dev -> result unit * Dev.
Variable device_read : Dev -> result string * Dev.

Lemma current_of_response_unbound (response : list Field) :
  length response <> 2%nat ->
  current_of_response py_float pow10 response = Raise (UnboundLocalError "current").
Proof.
  intros H. unfold current_of_response.
  destruct (length response =? 2)%nat eqn:E; [|reflexivity].
  apply Nat.eqb_eq in E. contradiction.
Qed.

Lemma current_of_response_value (response : list Field) (current : Q) :
  current_of_response py_float pow10 response = Ok current ->
  exists f1 f2 value exp p,
    response = [f1; f2] /\
    field_to_float py_float f1 = Ok value /\
    field_to_float py_float f2 = Ok exp /\
    pow10 exp = Some p /\
    current = (value * p)%Q.
Proof.
  unfold current_of_response.
  destruct (length response =? 2)%nat eqn:E; [|discriminate].
  destruct response as [|f1 [|f2 [|f3 rest]]]; try discriminate.
  destruct (field_to_float py_float f1) as [value| |] eqn:E1; cbn [rbind]; try discriminate.
  destruct (field_to_float py_float f2) as [exp| |] eqn:E2; cbn [rbind]; try discriminate.
  unfold power_of_ten. destruct (pow10 exp) as [p|] eqn:E3; cbn [rbind]; try discriminate.
  intros [= Hc]. exists f1, f2, value, exp, p. auto.
Qed.

(** C10.  With a device behind it, [readCurrent] returns value times ten
    to the exponent only when the text the device sent splits at its commas
    into exactly two fields (both accepted by [float], the power in range);
    for every text that splits into another number of fields it raises the
    unbound-local error on [current] at its [return]: a malformed reading
    is never a fallback value. *)
Theorem readCurrent_two_fields_or_unbound (dev dev1 dev2 : Dev) (text : string) :
  device_write "READI" dev = (Ok tt, dev1) ->
  device_read dev1 = (Ok text, dev2) ->
  (length (split_all "," (strip text)) <> 2%nat ->
   readCurrent py_float pow10 device_write device_read false dev
     = (Raise (UnboundLocalError "current"), dev2)) /\
  (forall current : Q,
      fst (readCurrent py_float pow10 device_write device_read false dev) = Ok current ->
      exists v e value exp p,
        split_all "," (strip text) = [v; e] /\
        py_float v = Some value /\ py_float e = Some exp /\ pow10 exp = Some p /\
        current = (value * p)%Q).
Proof.
  intros Hw Hr. unfold readCurrent. rewrite Hw, Hr. split.
  - intros Hlen. rewrite current_of_response_unbound; [reflexivity|].
    unfold response_fields. now rewrite length_map.
  - cbn [fst]. intros current Hc.
    apply current_of_response_value in Hc as (f1 & f2 & value & exp & p & Hf & H1 & H2 & H3 & H4).
    unfold response_fields in Hf.
    destruct (split_all "," (strip text)) as [|v [|e [|x rest]]]; try discriminate.
    injection Hf as <- <-. cbn [field_to_float] in H1, H2. unfold to_float in H1, H2.
    destruct (py_float v) as [value'|] eqn:Ev; [|discriminate].
    destruct (py_float e) as [exp'|] eqn:Ee; [|discriminate].
    injection H1 as ->. injection H2 as ->.
    exists v, e, value, exp, p. auto.
Qed.

End ReadCurrent.

Lemma readCurrent_two_fields_or_unbound_witness :
  readCurrent float_of_decimal pow10_whole echo_write echo_read false " 1.5,-3,0 "
    = (Raise (UnboundLocalError "current"), " 1.5,-3,0 ").
Proof.
  apply (proj1 (readCurrent_two_fields_or_unbound float_of_decimal pow10_whole
                  echo_write echo_read
                  " 1.5,-3,0 " " 1.5,-3,0 " " 1.5,-3,0 " " 1.5,-3,0 " eq_refl eq_refl)).
  vm_compute. discriminate.
Defined.

(** Readings of the echo device: one field, two fields, three fields, and
    the debugging branch. *)
Example readCurrent_samples :
  fst (readCurrent float_of_decimal pow10_whole echo_write echo_read false "No Current")
    = Raise (UnboundLocalError "current") /\
  fst (readCurrent float_of_decimal pow10_whole echo_write echo_read false " 1.5,-3,0 ")
    = Raise (UnboundLocalError "current") /\
  (exists x, fst (readCurrent float_of_decimal pow10_whole echo_write echo_read false "1.5,-3")
               = Ok x /\ (x == 15 # 10000)%Q) /\
  (exists x, fst (readCurrent float_of_decimal pow10_whole echo_write echo_read true "")
               = Ok x /\ (x == 1 # 10)%Q).
Proof.
  repeat split.
  - eexists; split; [reflexivity | reflexivity].
  - eexists; split; [reflexivity | reflexivity].
Qed.

(** ** describe_process never raises *)

Section Describe.
Context {Dev : Type}.
Variable py_int : string -> option Z.
Variable py_float : string -> option Q.
Variable str_int : Z -> string.
Variable str_float : Q -> string.
Variable confirm : string -> bool.
Variable input_widgets : gmap string string.

Let get_val' := get_val py_int py_float input_widgets.

Lemma get_val_total (var : string) : exists v, get_val' var = Ok v.
Proof.
  unfold get_val', get_val. destruct (input_widgets !! var) as [val|]; [|eauto].
  destruct (contains "." val); unfold to_float, to_int;
    [destruct (py_float val) | destruct (py_int val)]; cbn [rbind try_except]; eauto.
Qed.

Lemma get_val_unbound (var : string) :
  input_widgets !! var = None -> get_val' var = Ok (ShownText var).
Proof. intros H. unfold get_val', get_val. now rewrite H. Qed.

Lemma get_val_unparsable (var val : string) :
  input_widgets !! var = Some val ->
  (if contains "." val then py_float val = None else py_int val = None) ->
  get_val' var = Ok (ShownText val).
Proof.
  intros H Hbad. unfold get_val', get_val. rewrite H.
  destruct (contains "." val); unfold to_float, to_int; now rewrite Hbad.
Qed.

Lemma describe_command_total (cmd : Command) :
  exists l, describe_command py_int py_float str_int str_float input_widgets cmd = Ok l.
Proof.
  destruct cmd as [param|param|outputs]; cbn [describe_command]; [| |eauto];
    destruct (get_val_total param) as [v Hv]; unfold get_val' in Hv; rewrite Hv;
    cbn [rbind]; eauto.
Qed.

Lemma describe_commands_total (cmds : list Command) :
  forall acc, exists l,
    describe_commands py_int py_float str_int str_float input_widgets cmds acc = Ok l.
Proof.
  induction cmds as [|cmd cmds IH]; intros acc; cbn [describe_commands]; [eauto|].
  destruct (describe_command_total cmd) as [l ->]. cbn [rbind]. apply IH.
Qed.

Lemma describe_for_loops_total (loops : list ForLoop) :
  forall acc, exists l,
    describe_for_loops py_int py_float str_int str_float input_widgets loops acc = Ok l.
Proof.
  induction loops as [|fl loops IH]; intros acc; cbn [describe_for_loops]; [eauto|].
  destruct (get_val_total (start fl)) as [v1 H1]; unfold get_val' in H1; rewrite H1.
  destruct (get_val_total (end_ fl)) as [v2 H2]; unfold get_val' in H2; rewrite H2.
  destruct (get_val_total (step fl)) as [v3 H3]; unfold get_val' in H3; rewrite H3.
  cbn [rbind].
  match goal with
  | |- context [describe_commands _ _ _ _ _ ?c ?a] =>
      destruct (describe_commands_total c a) as [l ->]
  end.
  cbn [rbind]. apply IH.
Qed.

Lemma describe_blocks_total (prog : Program) :
  forall acc, exists l,
    describe_blocks py_int py_float str_int str_float input_widgets prog acc = Ok l.
Proof.
  induction prog as [|blk prog IH]; intros acc; cbn [describe_blocks]; [eauto|].
  destruct (get_val_total (repeats blk)) as [v Hv]; unfold get_val' in Hv; rewrite Hv.
  cbn [rbind].
  match goal with
  | |- context [describe_for_loops _ _ _ _ _ ?c ?a] =>
      destruct (describe_for_loops_total c a) as [l ->]
  end.
  cbn [rbind]. apply IH.
Qed.

(** The describer returns the answer of the operator (or [True] without a
    dialog) and leaves the device as it was. *)
Lemma describe_process_total (prog : Program) (show_messagebox : bool) (w : World Dev) :
  exists (answer : bool) (w' : World Dev),
    describe_process py_int py_float str_int str_float confirm input_widgets
      prog show_messagebox w = (Ok answer, w') /\
    device w' = device w.
Proof.
  unfold describe_process, final_description.
  match goal with
  | |- context [describe_blocks _ _ _ _ _ ?c ?a] =>
      destruct (describe_blocks_total c a) as [l Hl]
  end.
  unfold bind, lift. rewrite Hl. cbn [rbind].
  destruct show_messagebox; cbn; eauto.
Qed.

(** C8.  [parse_process] returns a program for every text, with one block
    for each match of the REPEAT pattern, and what it does not recognise is
    left out: a text in which the REPEAT pattern matches nowhere gives no
    block, a body in which the FOR_RANGEV pattern matches
    nowhere gives no loop, a command text that is not NAME(args) or whose
    name is none of MEAN, DELAY, OUTPUT gives no command, and a piece of
    OUTPUT without an equals sign gives no entry.  [describe_process]
    returns for every program and all entries: a variable without an
    entry is shown by its name, an entry that is not a number by its text. *)
Theorem parse_and_describe_never_raise :
  (forall text : string,
      exists prog,
        parse_process text = Ok prog /\
        map repeats prog = map fst (Re.findall Re.repeat_pattern (strip_layout text))) /\
  (forall text : string,
      (forall a b, strip_layout text = a +:+ b -> Re.repeat_pattern b = None) ->
      parse_process text = Ok []) /\
  (forall inner : string,
      (forall a b, inner = a +:+ b -> Re.for_pattern b = None) ->
      parse_for_loops inner = Ok []) /\
  (forall cmd : string, Re.command_pattern cmd = None -> parse_command cmd = Ok []) /\
  (forall cmd name args : string,
      Re.command_pattern cmd = Some (name, args) ->
      upper name <> "MEAN" -> upper name <> "DELAY" -> upper name <> "OUTPUT" ->
      parse_command cmd = Ok []) /\
  (forall (piece : string) (pieces : list string) (outputs : dict string),
      contains "=" piece = false ->
      parse_pairs (piece :: pieces) outputs = parse_pairs pieces outputs) /\
  (forall (prog : Program) (show_messagebox : bool) (w : World Dev),
      exists (answer : bool) (w' : World Dev),
        describe_process py_int py_float str_int str_float confirm input_widgets
          prog show_messagebox w = (Ok answer, w')) /\
  (forall var : string,
      input_widgets !! var = None ->
      get_val py_int py_float input_widgets var = Ok (ShownText var)) /\
  (forall var val : string,
      input_widgets !! var = Some val ->
      (if contains "." val then py_float val = None else py_int val = None) ->
      get_val py_int py_float input_widgets var = Ok (ShownText val)).
Proof.
  repeat apply conj.
  - intros text. unfold parse_process.
    destruct (parse_repeat_matches_in_order
                (Re.findall Re.repeat_pattern (strip_layout text)) []) as (prog & H & Hn & _).
    eauto.
  - intros text H. unfold parse_process. now rewrite findall_nowhere.
  - intros inner H. unfold parse_for_loops. now rewrite findall_nowhere.
  - intros cmd H. unfold parse_command. now rewrite H.
  - intros cmd name args H H1 H2 H3. unfold parse_command. rewrite H.
    apply String.eqb_neq in H1, H2, H3. now rewrite H1, H2, H3.
  - intros piece pieces outputs H. cbn [parse_pairs]. now rewrite H.
  - intros prog show_messagebox w.
    destruct (describe_process_total prog show_messagebox w) as (answer & w' & H & _). eauto.
  - apply get_val_unbound.
  - apply get_val_unparsable.
Qed.

End Describe.

Lemma parse_and_describe_never_raise_witness :
  parse_process "hi" = Ok [] /\
  parse_for_loops "hi" = Ok [] /\
  parse_command "zzz" = Ok [] /\
  parse_command "FOO(x)" = Ok [] /\
  parse_pairs ["c"; "a=b"] [] = parse_pairs ["a=b"] [] /\
  get_val int_of_decimal float_of_decimal bench_widgets "Z" = Ok (ShownText "Z") /\
  get_val int_of_decimal float_of_decimal bench_widgets "R" = Ok (ShownText "abc") /\
  get_val int_of_decimal float_of_decimal bench_widgets "D" = Ok (ShownText "1.x").
Proof.
  destruct (@parse_and_describe_never_raise unit int_of_decimal float_of_decimal
              str_of_int str_of_ratio yes bench_widgets)
    as (_ & H2 & H3 & H4 & H5 & H6 & _ & H8 & H9).
  repeat apply conj.
  - apply H2. intros a b H. change (strip_layout "hi") with "hi" in H.
    destruct a as [|x a]; simpl in H; [subst b; reflexivity|]. injection H as _ H.
    destruct a as [|y a]; simpl in H; [subst b; reflexivity|]. injection H as _ H.
    destruct a as [|z a]; simpl in H; [subst b; reflexivity|]. discriminate H.
  - apply H3. intros a b H.
    destruct a as [|x a]; simpl in H; [subst b; reflexivity|]. injection H as _ H.
    destruct a as [|y a]; simpl in H; [subst b; reflexivity|]. injection H as _ H.
    destruct a as [|z a]; simpl in H; [subst b; reflexivity|]. discriminate H.
  - apply H4. reflexivity.
  - apply (H5 "FOO(x)" "FOO" "x"); [reflexivity | vm_compute; discriminate ..].
  - apply H6. reflexivity.
  - apply H8. reflexivity.
  - apply (H9 "R" "abc"); reflexivity.
  - apply (H9 "D" "1.x"); reflexivity.
Defined.

(** ** The logic of runs *)

Lemma setpoints_app (a b : list Event) : setpoints (a ++ b) = setpoints a ++ setpoints b.
Proof. apply flat_map_app. Qed.

Lemma samples_app (a b : list Event) : samples (a ++ b) = samples a ++ samples b.
Proof. apply flat_map_app. Qed.

Lemma no_failure_snoc (tr : list Event) (ev : Event) :
  no_failure tr -> instrument_failure ev = None -> no_failure (tr ++ [ev]).
Proof. intros H He. apply Forall_app; split; [exact H | now constructor]. Qed.

Lemma in_phase_quiet (ph : phase) (tr : list Event) (ev : Event) :
  is_quiet ev = true -> in_phase ph tr -> in_phase ph (tr ++ [ev]).
Proof.
  intros Hq [Hn Hs]. split.
  - apply no_failure_snoc; [exact Hn|]. destruct ev as [| | | | | | |V []|[]| |]; try reflexivity; discriminate.
  - rewrite setpoints_app, samples_app, Hs.
    destruct ev as [| | | |[]| | | | | |]; try discriminate; cbn; now rewrite !app_nil_r.
Qed.

Section Triples.
Context {Dev : Type}.

Lemma triple_ret {A} (P : list Event -> Prop) (a : A) :
  triple (Dev := Dev) P (ret a) (fun _ => P).
Proof. intros w r w' HP [= <- <-]. exact HP. Qed.

Lemma triple_bind {A B} (P : list Event -> Prop) (Q : A -> list Event -> Prop)
    (R : B -> list Event -> Prop) (m : M Dev A) (k : A -> M Dev B) :
  triple P m Q -> (forall a, triple (Q a) (k a) R) -> triple P (bind m k) R.
Proof.
  intros Hm Hk w r w' HP. unfold bind.
  destruct (m w) as [[a|e|] w1] eqn:Em; specialize (Hm w _ w1 HP Em); cbn in Hm.
  - intros Hka. exact (Hk a w1 r w' Hm Hka).
  - intros [= <- <-]. exact Hm.
  - intros [= <- <-]. exact Hm.
Qed.

Lemma triple_lift {A} (ph : phase) (r : result A) :
  triple (Dev := Dev) (in_phase ph) (lift r) (fun _ => in_phase ph).
Proof.
  intros w r' w' HP [= <- <-]. destruct r; [exact HP | left; apply HP | left; apply HP].
Qed.

Lemma triple_emit (ph : phase) (ev : Event) :
  is_quiet ev = true ->
  triple (Dev := Dev) (in_phase ph) (emit ev) (fun _ => in_phase ph).
Proof. intros Hq w r w' HP [= <- <-]. cbn. now apply in_phase_quiet. Qed.

Lemma triple_sleep (ph : phase) (seconds : Q) :
  triple (Dev := Dev) (in_phase ph) (sleep seconds) (fun _ => in_phase ph).
Proof.
  unfold sleep. destruct (Qlt_bool seconds 0); [apply triple_lift | now apply triple_emit].
Qed.

Lemma triple_write_row (V I_mean : Q) :
  triple (Dev := Dev) (in_phase (Holding V)) (emit (WriteRow (DataRow V I_mean)))
    (fun _ => in_phase AtRest).
Proof.
  intros w r w' [Hn Hs] [= <- <-]. cbn. split.
  - now apply no_failure_snoc.
  - rewrite setpoints_app, samples_app, Hs, map_app. cbn. now rewrite !app_nil_r.
Qed.

Variable instrument : Instrument Dev.

Lemma triple_call_set (V : Q) :
  triple (in_phase AtRest) (call_set instrument V) (fun _ => in_phase (Holding V)).
Proof.
  intros w r w' [Hn Hs]. unfold call_set.
  destruct (set_quantity instrument V (device w)) as [r0 dev] eqn:E.
  intros [= <- <-]. cbn [trace].
  assert (Hsp : setpoints (trace w ++ [Setpoint V r0])
                = map fst (samples (trace w ++ [Setpoint V r0])) ++ [V]).
  { rewrite setpoints_app, samples_app, Hs. cbn. now rewrite !app_nil_r. }
  destruct r0 as [[]|e|].
  - split; [now apply no_failure_snoc | exact Hsp].
  - right. exists e. split; [reflexivity|].
    exists (trace w), (Setpoint V (Raise e)), V. auto.
  - left. now apply no_failure_snoc.
Qed.

Lemma triple_call_read (V : Q) :
  triple (in_phase (Holding V)) (call_read instrument) (fun _ => in_phase (Holding V)).
Proof.
  intros w r w' [Hn Hs]. unfold call_read.
  destruct (read_quantity instrument (device w)) as [r0 dev] eqn:E.
  intros [= <- <-]. cbn [trace].
  assert (Hsp : setpoints (trace w ++ [Reading r0])
                = map fst (samples (trace w ++ [Reading r0])) ++ [V]).
  { rewrite setpoints_app, samples_app, Hs. cbn. now rewrite !app_nil_r. }
  destruct r0 as [x|e|].
  - split; [now apply no_failure_snoc | exact Hsp].
  - right. exists e. split; [reflexivity|].
    exists (trace w), (Reading (Raise e)), V. auto.
  - left. now apply no_failure_snoc.
Qed.

End Triples.

(** One step of a sequence of effects. *)
Ltac step :=
  eapply triple_bind;
  [ first [ apply triple_lift
          | apply triple_emit; reflexivity
          | apply triple_sleep
          | apply triple_call_set
          | apply triple_call_read
          | apply triple_write_row
          | apply triple_ret ]
  | intros ? ].

Section EngineTriples.
Context {Dev : Type}.
Variable py_int : string -> option Z.
Variable py_float : string -> option Q.
Variable str_int : Z -> string.
Variable str_float : Q -> string.
Variable confirm : string -> bool.
Variable instrument : Instrument Dev.
Variable fuel : nat.
Variable input_widgets : gmap string string.

Lemma triple_read_currents (V : Q) (n : nat) (delay_val : Q) (r_val : Z) :
  forall currents,
    triple (in_phase (Holding V)) (read_currents instrument n delay_val r_val currents)
      (fun _ => in_phase (Holding V)).
Proof.
  induction n as [|n IH]; intros currents; cbn [read_currents].
  - apply triple_ret.
  - do 3 step. apply IH.
Qed.

Lemma triple_sweep_point (delay_val : Q) (r_val total_steps : Z) (V : Q) (step_counter : Z) :
  triple (in_phase AtRest)
    (sweep_point instrument delay_val r_val total_steps V step_counter)
    (fun _ => in_phase AtRest).
Proof.
  unfold sweep_point.
  do 2 step.
  eapply triple_bind; [apply triple_read_currents | intros currents].
  do 2 step. cbv zeta. do 2 step.
  apply triple_ret.
Qed.

Lemma triple_sweep (delay_val : Q) (r_val total_steps : Z) (V_values : list Q) :
  forall step_counter,
    triple (in_phase AtRest)
      (sweep instrument delay_val r_val total_steps V_values step_counter)
      (fun _ => in_phase AtRest).
Proof.
  induction V_values as [|V rest IH]; intros step_counter; cbn [sweep].
  - apply triple_ret.
  - eapply triple_bind; [apply triple_sweep_point | intros sc; apply IH].
Qed.

Lemma triple_scan_commands (cmds : list Command) :
  forall delay_val r_val,
    triple (Dev := Dev) (in_phase AtRest)
      (scan_commands py_int py_float input_widgets cmds delay_val r_val)
      (fun _ => in_phase AtRest).
Proof.
  induction cmds as [|[param|param|outputs] cmds IH]; intros delay_val r_val;
    cbn [scan_commands].
  - apply triple_ret.
  - step. apply IH.
  - do 2 step. apply IH.
  - apply IH.
Qed.

Lemma triple_run_for_loop (total_steps : Z) (for_loop : ForLoop) (step_counter : Z) :
  triple (in_phase AtRest)
    (run_for_loop py_int py_float instrument fuel input_widgets total_steps for_loop
       step_counter)
    (fun _ => in_phase AtRest).
Proof.
  unfold run_for_loop.
  do 3 step.
  eapply triple_bind; [apply triple_scan_commands | intros dr].
  step. apply triple_sweep.
Qed.

Lemma triple_run_for_loops (total_steps : Z) (loops : list ForLoop) :
  forall step_counter,
    triple (in_phase AtRest)
      (run_for_loops py_int py_float instrument fuel input_widgets total_steps loops
         step_counter)
      (fun _ => in_phase AtRest).
Proof.
  induction loops as [|fl loops IH]; intros step_counter; cbn [run_for_loops].
  - apply triple_ret.
  - eapply triple_bind; [apply triple_run_for_loop | intros sc; apply IH].
Qed.

Lemma triple_run_cycles (n : nat) (cycles_val total_steps : Z) (loops : list ForLoop) :
  forall c step_counter,
    triple (in_phase AtRest)
      (run_cycles py_int py_float instrument fuel input_widgets n c cycles_val total_steps
         loops step_counter)
      (fun _ => in_phase AtRest).
Proof.
  induction n as [|n IH]; intros c step_counter; cbn [run_cycles].
  - apply triple_ret.
  - step. eapply triple_bind; [apply triple_run_for_loops | intros sc; apply IH].
Qed.

Lemma triple_run_blocks (process_parsed : Program) (total_steps : Z) :
  forall step_counter,
    triple (in_phase AtRest)
      (run_blocks py_int py_float instrument fuel input_widgets process_parsed total_steps
         step_counter)
      (fun _ => in_phase AtRest).
Proof.
  induction process_parsed as [|blk rest IH]; intros step_counter; cbn [run_blocks].
  - apply triple_ret.
  - cbv zeta. do 2 step.
    eapply triple_bind; [apply triple_run_cycles | intros sc; apply IH].
Qed.

Lemma triple_describe_process (ph : phase) (prog : Program) (show_messagebox : bool) :
  triple (Dev := Dev) (in_phase ph)
    (describe_process py_int py_float str_int str_float confirm input_widgets prog
       show_messagebox)
    (fun _ => in_phase ph).
Proof.
  unfold describe_process. do 2 step.
  destruct show_messagebox; [|apply triple_ret].
  cbv zeta. step. apply triple_ret.
Qed.

Lemma triple_run (process_parsed : Program) :
  triple (in_phase AtRest)
    (run py_int py_float instrument fuel input_widgets process_parsed)
    (fun _ => in_phase AtRest).
Proof.
  unfold run. do 2 step.
  eapply triple_bind; [apply triple_run_blocks | intros sc].
  step. now apply triple_emit.
Qed.

Lemma triple_task (selection : Selection) (process_parsed : Program) :
  triple (in_phase AtRest)
    (task py_int py_float str_int str_float confirm instrument fuel input_widgets
       selection process_parsed)
    (fun _ => in_phase AtRest).
Proof.
  unfold task.
  destruct (_ || _ || _); [now apply triple_emit|].
  eapply triple_bind; [apply triple_describe_process | intros answer].
  apply triple_run.
Qed.

(** C5.  When an instrument call of a run fails, at the k-th sweep value,
    the run stops there: the failed call is the last thing the run did (no
    reading, no averaging, no sample and no progress report follows it), it
    is the only call that failed, the task ends with the exception of that
    call, and the CSV file holds the samples of the k-1 sweep values before
    it, one per setpoint issued, the last setpoint being the one without a
    sample. *)
Theorem instrument_failure_aborts_run (selection : Selection) (process_parsed : Program)
    (dev : Dev) (r : result unit) (w : World Dev) (ev : Event) (e : exn) :
  task py_int py_float str_int str_float confirm instrument fuel input_widgets
    selection process_parsed (start_world dev) = (r, w) ->
  In ev (trace w) ->
  instrument_failure ev = Some e ->
  r = Raise e /\
  (exists tr0, trace w = tr0 ++ [ev] /\ no_failure tr0) /\
  (exists Vk, setpoints (trace w) = map fst (samples (trace w)) ++ [Vk]) /\
  S (length (samples (trace w))) = length (setpoints (trace w)).
Proof.
  intros Hrun Hin Hfail.
  assert (Hstart : in_phase AtRest (trace (start_world dev))) by (split; [constructor | reflexivity]).
  pose proof (triple_task selection process_parsed _ _ _ Hstart Hrun) as H.
  assert (Hno : ~ no_failure (trace w)).
  { intros Hn. unfold no_failure in Hn. rewrite List.Forall_forall in Hn.
    specialize (Hn ev Hin). congruence. }
  assert (Hab : forall raised, aborted raised (trace w) ->
                exists e', raised = Some e' /\ failed_at_last e' (trace w)).
  { intros raised [Hn | Hf]; [contradiction | exact Hf]. }
  destruct r as [[]|e'|].
  - destruct H as [Hn _]. contradiction.
  - destruct (Hab _ H) as (e'' & [= <-] & tr0 & ev' & Vk & Htr & Hev' & Hn0 & Hsp).
    assert (ev = ev').
    { rewrite Htr in Hin. apply in_app_or in Hin as [Hin | [Hin | []]]; [|congruence].
      unfold no_failure in Hn0. rewrite List.Forall_forall in Hn0.
      specialize (Hn0 ev Hin). congruence. }
    subst ev'. repeat split.
    + congruence.
    + exists tr0. auto.
    + exists Vk. exact Hsp.
    + rewrite Hsp, length_app, length_map. cbn. lia.
  - destruct (Hab _ H) as (e'' & [=] & _).
Qed.

End EngineTriples.

Lemma instrument_failure_aborts_run_witness :
  let out := countdown_task 8 (sweep_widgets "C" "1" "0.25" "2") (one_sweep "C") in
  (fst out = Raise (DeviceError "timeout on read") /\
   (exists tr0,
       trace (snd out) = tr0 ++ [Reading (Raise (DeviceError "timeout on read"))] /\
       no_failure tr0) /\
   (exists Vk, setpoints (trace (snd out)) = map fst (samples (trace (snd out))) ++ [Vk]) /\
   S (length (samples (trace (snd out)))) = length (setpoints (trace (snd out)))) /\
  length (setpoints (trace (snd out))) = 3%nat /\
  length (samples (trace (snd out))) = 2%nat.
Proof.
  intros out. split; [|split; reflexivity].
  apply (instrument_failure_aborts_run int_of_decimal float_of_decimal str_of_int
           str_of_ratio yes countdown_instrument 100
           (sweep_widgets "C" "1" "0.25" "2") someone (one_sweep "C") 8%nat).
  - apply surjective_pairing.
  - vm_compute. repeat (try (left; reflexivity); right).
  - reflexivity.
Defined.

(** ** Runs on the bench *)

Lemma block_get_repeat_var (blk : RepeatBlock) : block_get blk "repeat_var" "C" = "C".
Proof. reflexivity. Qed.

Lemma bind_ext {Dev A B} (m : M Dev A) (k k' : A -> M Dev B) :
  (forall a w, k a w = k' a w) -> forall w, bind m k w = bind m k' w.
Proof. intros H w. unfold bind. destruct (m w) as [[a| |] w1]; auto. Qed.

(** The run reads nothing of a block but its loops. *)
Lemma run_blocks_ignores_repeats {Dev} py_int py_float (instrument : Instrument Dev) fuel
    input_widgets (prog prog' : Program) :
  map for_loops prog = map for_loops prog' ->
  forall total_steps step_counter w,
    run_blocks py_int py_float instrument fuel input_widgets prog total_steps step_counter w
    = run_blocks py_int py_float instrument fuel input_widgets prog' total_steps step_counter w.
Proof.
  revert prog'. induction prog as [|blk prog IH]; intros [|blk' prog'] H; try discriminate.
  - reflexivity.
  - injection H as Hl Hrest. intros total_steps step_counter w.
    cbn [run_blocks]. rewrite !block_get_repeat_var, Hl. cbv zeta.
    apply bind_ext; intros cycles_val w1.
    apply bind_ext; intros [] w2.
    apply bind_ext; intros sc w3.
    now apply IH.
Qed.

(** C1, the defect.  The run looks up the key [repeat_var] in the dict of a
    block, which holds [repeats] and [for_loops]: it always falls back to
    the symbol [C], whatever the symbol of the block is, so that the passes
    of a run do not depend on the symbols of its blocks.  The method whose
    block repeats [N] times, with [N] bound to 3 and no entry for [C], is
    counted as 3 passes of 3 steps before the run and run for one pass;
    the same method on [C], with [C] bound to 3, runs its three passes. *)
Theorem repeat_count_is_read_from_C :
  (forall blk : RepeatBlock, block_get blk "repeat_var" "C" = "C") /\
  parse_process method_on_N = Ok (one_sweep "N") /\
  to_int int_of_decimal "3" = Ok 3 /\
  bench_total_steps (sweep_widgets "N" "3" "0.5" "1") (one_sweep "N") = Ok 9 /\
  fst (bench_task yes (sweep_widgets "N" "3" "0.5" "1") (one_sweep "N")) = Ok tt /\
  passes (trace (snd (bench_task yes (sweep_widgets "N" "3" "0.5" "1") (one_sweep "N"))))
    = [(1, 1)] /\
  passes (trace (snd (bench_task yes (sweep_widgets "C" "3" "0.5" "1") (one_sweep "C"))))
    = [(1, 3); (2, 3); (3, 3)].
Proof. repeat split; vm_compute; reflexivity. Qed.

(** C2, the defect.  The total is counted with the symbol of each block and
    the run repeats by [C]: for the method on [N], with [N] bound to 2 and a
    sweep of 3 values, the total is 6 and the run, which completes, reports
    1/6, 2/6, 3/6 and then the closing 1. *)
Theorem progress_stops_short_of_total :
  parse_process method_on_N = Ok (one_sweep "N") /\
  bench_total_steps (sweep_widgets "N" "2" "0.5" "1") (one_sweep "N") = Ok 6 /\
  fst (bench_task yes (sweep_widgets "N" "2" "0.5" "1") (one_sweep "N")) = Ok tt /\
  map Qred
    (progress_reports
       (trace (snd (bench_task yes (sweep_widgets "N" "2" "0.5" "1") (one_sweep "N")))))
    = [(1 # 6)%Q; (1 # 3)%Q; (1 # 2)%Q; 1%Q] /\
  map Qred
    (progress_reports
       (trace (snd (bench_task yes (sweep_widgets "C" "2" "0.5" "1") (one_sweep "C")))))
    = [(1 # 6)%Q; (1 # 3)%Q; (1 # 2)%Q; (2 # 3)%Q; (5 # 6)%Q; 1%Q; 1%Q].
Proof. repeat split; vm_compute; reflexivity. Qed.

(** C3, the defect.  From 0 to 1 a bound step of -1/4 gives an empty
    sweep, where +1/4 gives the five points 0, 1/4, 1/2, 3/4, 1: the
    ascending branch passes the step as it is bound, and [frange] leaves at
    once on a step that is not positive.  From 1 to 0 both signs give the
    same five points. *)
Theorem ascending_sweep_depends_on_step_sign :
  (forall n : nat, sweep_values (S n) 0 1 (- (1 # 4)) = Ok []) /\
  (exists vals, sweep_values 6 0 1 (1 # 4) = Ok vals /\
                Forall2 Qeq vals [0; 1 # 4; 1 # 2; 3 # 4; 1]%Q) /\
  (exists vals, sweep_values 6 1 0 (1 # 4) = Ok vals /\
                sweep_values 6 1 0 (- (1 # 4)) = Ok vals /\
                Forall2 Qeq vals [1; 3 # 4; 1 # 2; 1 # 4; 0]%Q).
Proof.
  repeat split.
  - eexists. split; [reflexivity|]. repeat (constructor; [vm_compute; reflexivity|]). constructor.
  - eexists. split; [reflexivity|]. split; [reflexivity|].
    repeat (constructor; [vm_compute; reflexivity|]). constructor.
Qed.

(** C4, the defect.  [run_method] tests [continue_method] before anything
    binds it and raises there, before the plan is shown; [task] asks for the
    confirmation and does not test the answer: after a No it writes the
    header, drives the instrument through the sweep and records its three
    samples. *)
Theorem declined_run_goes_on :
  bench_run_method no (sweep_widgets "C" "1" "0.5" "1") [("cv", example_method)] "cv"
    = (Raise (NameError "continue_method"), start_world tt) /\
  fst (bench_task no (sweep_widgets "C" "1" "0.5" "1") (one_sweep "C")) = Ok tt /\
  asked (trace (snd (bench_task no (sweep_widgets "C" "1" "0.5" "1") (one_sweep "C"))))
    = [false] /\
  length (samples (trace (snd (bench_task no (sweep_widgets "C" "1" "0.5" "1") (one_sweep "C")))))
    = 3%nat /\
  length (instrument_calls
            (trace (snd (bench_task no (sweep_widgets "C" "1" "0.5" "1") (one_sweep "C")))))
    = 6%nat.
Proof. repeat split; vm_compute; reflexivity. Qed.

(** ** frange and the sweep *)

Lemma Qlt_bool_iff (a b : Q) : Qlt_bool a b = true <-> (a < b)%Q.
Proof.
  unfold Qlt_bool. rewrite negb_true_iff. split.
  - intros H. apply Qnot_le_lt. intros Hle. apply Qle_bool_iff in Hle. congruence.
  - intros H. destruct (Qle_bool b a) eqn:E; [|reflexivity].
    apply Qle_bool_iff in E. exfalso. apply (Qlt_not_le _ _ H E).
Qed.

Lemma Qle_bool_false (a b : Q) : Qle_bool a b = false <-> (b < a)%Q.
Proof.
  split.
  - intros H. apply Qnot_le_lt. intros Hle. apply Qle_bool_iff in Hle. congruence.
  - intros H. destruct (Qle_bool a b) eqn:E; [|reflexivity].
    apply Qle_bool_iff in E. exfalso. apply (Qlt_not_le _ _ H E).
Qed.

Lemma Qfloor_pred (q : Q) : Qfloor (q - 1) = Qfloor q - 1.
Proof.
  pose proof (Qfloor_le (q - 1)) as H1. pose proof (Qlt_floor (q - 1)) as H2.
  pose proof (Qfloor_le q) as H3. pose proof (Qlt_floor q) as H4.
  rewrite inject_Z_plus in H2, H4. change (inject_Z 1) with 1%Q in *.
  assert (A : (inject_Z (Qfloor (q - 1)) < inject_Z (Qfloor q))%Q) by lra.
  assert (B : (inject_Z (Qfloor q) < inject_Z (Qfloor (q - 1)) + 2)%Q) by lra.
  rewrite <- Zlt_Qlt in A.
  change 2%Q with (inject_Z 2) in B. rewrite <- inject_Z_plus, <- Zlt_Qlt in B.
  lia.
Qed.

Lemma Qfloor_div_nonneg (a d : Q) : (0 < d)%Q -> 0 <= Qfloor (a / d) <-> (0 <= a)%Q.
Proof.
  intros Hd. split.
  - intros H. pose proof (Qfloor_le (a / d)) as H1.
    assert (H0 : (0 <= a / d)%Q).
    { rewrite Zle_Qle in H. change (inject_Z 0) with 0%Q in H. lra. }
    assert (E : (a == (a / d) * d)%Q) by (field; lra).
    rewrite E. apply Qmult_le_0_compat; lra.
  - intros H. change 0 with (Qfloor 0). apply Qfloor_resp_le.
    apply Qle_shift_div_l; lra.
Qed.

(** The ascending loop makes one point for every multiple of the step that
    fits between [x] and [stop], and returns once the fuel covers them. *)
Lemma frange_up_points (stop d : Q) :
  (0 < d)%Q ->
  forall (m : nat) (x : Q) (vals : list Q) (fuel : nat),
    Z.to_nat (Qfloor ((stop - x) / d) + 1) = m ->
    (m < fuel)%nat ->
    frange_up fuel x stop d vals = Ok (vals ++ arithmetic_points m x d).
Proof.
  intros Hd. induction m as [|m IH]; intros x vals fuel Hm Hfuel;
    (destruct fuel as [|fuel]; [lia|]); cbn [frange_up arithmetic_points].
  - assert (Hneg : ~ 0 <= Qfloor ((stop - x) / d)) by lia.
    rewrite (Qfloor_div_nonneg _ _ Hd) in Hneg.
    assert (Hgt : (stop < x)%Q) by (apply Qnot_le_lt in Hneg; lra).
    apply Qle_bool_false in Hgt. rewrite Hgt. now rewrite app_nil_r.
  - assert (Hpos : 0 <= Qfloor ((stop - x) / d)) by lia.
    pose proof Hpos as Hle. rewrite (Qfloor_div_nonneg _ _ Hd) in Hle.
    assert (Hx : Qle_bool x stop = true) by (apply Qle_bool_iff; lra).
    rewrite Hx. rewrite (IH (x + d)%Q (vals ++ [x]) fuel).
    + now rewrite <- app_assoc.
    + assert (E : ((stop - (x + d)) / d == (stop - x) / d - 1)%Q) by (field; lra).
      rewrite (Qfloor_comp _ _ E), Qfloor_pred. lia.
    + lia.
Qed.

(** The descending loop, for a negative step. *)
Lemma frange_down_points (stop d : Q) :
  (d < 0)%Q ->
  forall (m : nat) (x : Q) (vals : list Q) (fuel : nat),
    Z.to_nat (Qfloor ((x - stop) / (- d)) + 1) = m ->
    (m < fuel)%nat ->
    frange_down fuel x stop d vals = Ok (vals ++ arithmetic_points m x d).
Proof.
  intros Hd. assert (Hd' : (0 < - d)%Q) by lra.
  induction m as [|m IH]; intros x vals fuel Hm Hfuel;
    (destruct fuel as [|fuel]; [lia|]); cbn [frange_down arithmetic_points].
  - assert (Hneg : ~ 0 <= Qfloor ((x - stop) / (- d))) by lia.
    rewrite (Qfloor_div_nonneg _ _ Hd') in Hneg.
    assert (Hgt : (x < stop)%Q) by (apply Qnot_le_lt in Hneg; lra).
    apply Qle_bool_false in Hgt. rewrite Hgt. now rewrite app_nil_r.
  - assert (Hpos : 0 <= Qfloor ((x - stop) / (- d))) by lia.
    pose proof Hpos as Hle. rewrite (Qfloor_div_nonneg _ _ Hd') in Hle.
    assert (Hx : Qle_bool stop x = true) by (apply Qle_bool_iff; lra).
    rewrite Hx. rewrite (IH (x + d)%Q (vals ++ [x]) fuel).
    + now rewrite <- app_assoc.
    + assert (E : ((x + d - stop) / (- d) == (x - stop) / (- d) - 1)%Q) by (field; lra).
      rewrite (Qfloor_comp _ _ E), Qfloor_pred. lia.
    + lia.
Qed.

(** A step of 0 that starts at or above [stop] never leaves the loop. *)
Lemma frange_zero_step_loops (fuel : nat) (start_ stop : Q) :
  (stop <= start_)%Q -> frange fuel start_ stop 0 = Loops.
Proof.
  intros H. unfold frange. change (Qlt_bool 0 0) with false. cbv iota.
  generalize (@nil Q) as vals. revert start_ H.
  induction fuel as [|fuel IH]; intros x H vals; cbn [frange_down]; [reflexivity|].
  assert (Hx : Qle_bool stop x = true) by (apply Qle_bool_iff; exact H).
  rewrite Hx. apply IH. lra.
Qed.

(** Where the count of steps is defined and an ascending sweep has a
    positive bound step, the sweep returns (given fuel for its points) the
    arithmetic sequence from [start_val], by the step upward or by its
    magnitude downward, with as many points as the count made before the
    run says. *)
Lemma sweep_values_arithmetic (start_val end_val step_val : Q) (k : Z) (fuel : nat) :
  steps_in_loop start_val end_val step_val = Ok k ->
  ((start_val < end_val)%Q -> (0 < step_val)%Q) ->
  (Z.to_nat k < fuel)%nat ->
  sweep_values fuel start_val end_val step_val
    = Ok (arithmetic_points (Z.to_nat k) start_val
            (if Qlt_bool start_val end_val then step_val else (- Qabs step_val)%Q)).
Proof.
  unfold steps_in_loop, py_div. intros Hk Hasc Hfuel.
  destruct (Qeq_bool (Qabs step_val) 0) eqn:Ez; [discriminate|].
  cbn [rbind] in Hk.
  assert (Hk' : int_of_float (Qabs (end_val - start_val) / Qabs step_val) + 1 = k)
    by congruence.
  clear Hk. rename Hk' into Hk.
  assert (Hnz : ~ (Qabs step_val == 0)%Q).
  { intros E. apply Qeq_bool_iff in E. congruence. }
  assert (Habs : (0 < Qabs step_val)%Q).
  { pose proof (Qabs_nonneg step_val). apply Qle_lteq in H as [H|H]; [exact H|].
    exfalso. apply Hnz. now symmetry. }
  assert (Hq : (0 <= Qabs (end_val - start_val) / Qabs step_val)%Q).
  { apply Qle_shift_div_l; [exact Habs|]. pose proof (Qabs_nonneg (end_val - start_val)). lra. }
  unfold int_of_float in Hk. apply Qle_bool_iff in Hq. rewrite Hq in Hk.
  unfold sweep_values, frange.
  destruct (Qlt_bool start_val end_val) eqn:Edir.
  - apply Qlt_bool_iff in Edir. specialize (Hasc Edir).
    assert (Es : Qlt_bool 0 step_val = true) by (now apply Qlt_bool_iff).
    rewrite Es.
    apply (frange_up_points end_val step_val Hasc (Z.to_nat k) start_val [] fuel);
      [|exact Hfuel].
    rewrite <- Hk. f_equal. f_equal. apply Qfloor_comp.
    rewrite (Qabs_pos (end_val - start_val)) by lra.
    rewrite (Qabs_pos step_val) by lra. reflexivity.
  - assert (Hge : (end_val <= start_val)%Q).
    { apply Qnot_lt_le. intros Hlt. apply Qlt_bool_iff in Hlt. congruence. }
    assert (Hd : (- Qabs step_val < 0)%Q) by lra.
    assert (Es : Qlt_bool 0 (- Qabs step_val) = false).
    { destruct (Qlt_bool 0 (- Qabs step_val)) eqn:E; [|reflexivity].
      apply Qlt_bool_iff in E. lra. }
    rewrite Es.
    apply (frange_down_points end_val (- Qabs step_val) Hd (Z.to_nat k) start_val [] fuel);
      [|exact Hfuel].
    rewrite <- Hk. f_equal. f_equal. apply Qfloor_comp.
    rewrite (Qabs_neg (end_val - start_val)) by lra.
    rewrite Qopp_involutive. apply Qdiv_comp; [ring | reflexivity].
Qed.

(** If the ascending loop returns, it returns the points counted above. *)
Lemma frange_up_returns (stop d : Q) :
  (0 < d)%Q ->
  forall (fuel : nat) (x : Q) (vals r : list Q),
    frange_up fuel x stop d vals = Ok r ->
    r = vals ++ arithmetic_points (Z.to_nat (Qfloor ((stop - x) / d) + 1)) x d.
Proof.
  intros Hd. induction fuel as [|fuel IH]; intros x vals r; cbn [frange_up]; [discriminate|].
  destruct (Qle_bool x stop) eqn:Ex.
  - intros H. apply IH in H. rewrite H, <- app_assoc. f_equal.
    apply Qle_bool_iff in Ex.
    assert (Hpos : 0 <= Qfloor ((stop - x) / d)) by (apply Qfloor_div_nonneg; lra).
    assert (E : ((stop - (x + d)) / d == (stop - x) / d - 1)%Q) by (field; lra).
    rewrite (Qfloor_comp _ _ E), Qfloor_pred.
    replace (Qfloor ((stop - x) / d) - 1 + 1) with (Qfloor ((stop - x) / d)) by lia.
    rewrite Z2Nat.inj_add by lia. rewrite Nat.add_comm. reflexivity.
  - intros [= <-]. apply Qle_bool_false in Ex.
    assert (Hneg : ~ 0 <= Qfloor ((stop - x) / d)).
    { rewrite (Qfloor_div_nonneg _ _ Hd). lra. }
    replace (Z.to_nat (Qfloor ((stop - x) / d) + 1)) with 0%nat by lia.
    now rewrite app_nil_r.
Qed.

Lemma frange_down_returns (stop d : Q) :
  (d < 0)%Q ->
  forall (fuel : nat) (x : Q) (vals r : list Q),
    frange_down fuel x stop d vals = Ok r ->
    r = vals ++ arithmetic_points (Z.to_nat (Qfloor ((x - stop) / (- d)) + 1)) x d.
Proof.
  intros Hd. assert (Hd' : (0 < - d)%Q) by lra.
  induction fuel as [|fuel IH]; intros x vals r; cbn [frange_down]; [discriminate|].
  destruct (Qle_bool stop x) eqn:Ex.
  - intros H. apply IH in H. rewrite H, <- app_assoc. f_equal.
    apply Qle_bool_iff in Ex.
    assert (Hpos : 0 <= Qfloor ((x - stop) / (- d))) by (apply Qfloor_div_nonneg; lra).
    assert (E : ((x + d - stop) / (- d) == (x - stop) / (- d) - 1)%Q) by (field; lra).
    rewrite (Qfloor_comp _ _ E), Qfloor_pred.
    replace (Qfloor ((x - stop) / (- d)) - 1 + 1) with (Qfloor ((x - stop) / (- d))) by lia.
    rewrite Z2Nat.inj_add by lia. rewrite Nat.add_comm. reflexivity.
  - intros [= <-]. apply Qle_bool_false in Ex.
    assert (Hneg : ~ 0 <= Qfloor ((x - stop) / (- d))).
    { rewrite (Qfloor_div_nonneg _ _ Hd'). lra. }
    replace (Z.to_nat (Qfloor ((x - stop) / (- d)) + 1)) with 0%nat by lia.
    now rewrite app_nil_r.
Qed.

Lemma arithmetic_points_length (n : nat) (x d : Q) : length (arithmetic_points n x d) = n.
Proof. revert x; induction n as [|n IH]; intros x; cbn; [reflexivity | now rewrite IH]. Qed.

Lemma steps_in_loop_positive (start_val end_val step_val : Q) (k : Z) :
  steps_in_loop start_val end_val step_val = Ok k -> 1 <= k.
Proof.
  unfold steps_in_loop, py_div.
  destruct (Qeq_bool (Qabs step_val) 0) eqn:Ez; [discriminate|]. cbn [rbind].
  intros H. assert (Hk : int_of_float (Qabs (end_val - start_val) / Qabs step_val) + 1 = k)
    by congruence.
  clear H. subst k.
  assert (Hnz : ~ (Qabs step_val == 0)%Q).
  { intros E. apply Qeq_bool_iff in E. congruence. }
  assert (Habs : (0 < Qabs step_val)%Q).
  { pose proof (Qabs_nonneg step_val) as H. apply Qle_lteq in H as [H|H]; [exact H|].
    exfalso. apply Hnz. now symmetry. }
  assert (Hq : (0 <= Qabs (end_val - start_val) / Qabs step_val)%Q).
  { apply Qle_shift_div_l; [exact Habs|]. pose proof (Qabs_nonneg (end_val - start_val)). lra. }
  unfold int_of_float. pose proof Hq as Hb. apply Qle_bool_iff in Hb. rewrite Hb.
  assert (0 <= Qfloor (Qabs (end_val - start_val) / Qabs step_val)); [|lia].
  change 0 with (Qfloor 0). now apply Qfloor_resp_le.
Qed.

(** A sweep that returns has as many points as the count made before the
    run says, where an ascending sweep has a positive bound step. *)
Lemma sweep_values_length (fuel : nat) (start_val end_val step_val : Q) (k : Z)
    (V_values : list Q) :
  steps_in_loop start_val end_val step_val = Ok k ->
  ((start_val < end_val)%Q -> (0 < step_val)%Q) ->
  sweep_values fuel start_val end_val step_val = Ok V_values ->
  length V_values = Z.to_nat k.
Proof.
  intros Hk Hasc Hrun.
  pose proof (steps_in_loop_positive _ _ _ _ Hk) as Hpos.
  pose proof (sweep_values_arithmetic _ _ _ _ (S (Z.to_nat k)) Hk Hasc (Nat.lt_succ_diag_r _))
    as Hfull.
  assert (Heq : V_values
                = arithmetic_points (Z.to_nat k) start_val
                    (if Qlt_bool start_val end_val then step_val else (- Qabs step_val)%Q)).
  { revert Hrun Hfull. unfold sweep_values, frange.
    destruct (Qlt_bool start_val end_val) eqn:Edir.
    - apply Qlt_bool_iff in Edir. specialize (Hasc Edir).
      assert (Es : Qlt_bool 0 step_val = true) by (now apply Qlt_bool_iff).
      rewrite Es. intros H1 H2.
      apply (frange_up_returns _ _ Hasc) in H1, H2.
      cbn [app] in *. congruence.
    - assert (Hd : (- Qabs step_val < 0)%Q).
      { unfold steps_in_loop, py_div in Hk.
        destruct (Qeq_bool (Qabs step_val) 0) eqn:Ez; [discriminate|].
        assert (Hnz : ~ (Qabs step_val == 0)%Q).
        { intros E. apply Qeq_bool_iff in E. congruence. }
        pose proof (Qabs_nonneg step_val) as H. apply Qle_lteq in H as [H|H]; [lra|].
        exfalso. apply Hnz. now symmetry. }
      assert (Es : Qlt_bool 0 (- Qabs step_val) = false).
      { destruct (Qlt_bool 0 (- Qabs step_val)) eqn:E; [|reflexivity].
        apply Qlt_bool_iff in E. lra. }
      rewrite Es. intros H1 H2.
      apply (frange_down_returns _ _ Hd) in H1, H2.
      cbn [app] in *. congruence. }
  rewrite Heq.
  apply arithmetic_points_length.
Qed.

(** ** The progress reports of a run that completes *)

Lemma progress_reports_app (a b : list Event) :
  progress_reports (a ++ b) = progress_reports a ++ progress_reports b.
Proof. apply flat_map_app. Qed.

Lemma bind_ok {Dev A B} (m : M Dev A) (k : A -> M Dev B) (w w' : World Dev) (b : B) :
  bind m k w = (Ok b, w') -> exists a w1, m w = (Ok a, w1) /\ k a w1 = (Ok b, w').
Proof.
  unfold bind. destruct (m w) as [[a|e|] w1]; try discriminate. eauto.
Qed.

Lemma lift_ok {Dev A} (r : result A) (w w' : World Dev) (a : A) :
  lift r w = (Ok a, w') -> r = Ok a /\ w' = w.
Proof. unfold lift. intros [= -> ->]. auto. Qed.

Lemma emit_ok {Dev} (ev : Event) (w w' : World Dev) (r : result unit) :
  emit ev w = (r, w') -> reports w' = reports w ++ progress_reports [ev].
Proof. unfold emit, reports. intros [= <- <-]. cbn [trace]. apply progress_reports_app. Qed.

Lemma sleep_ok {Dev} (seconds : Q) (w w' : World Dev) (r : result unit) :
  sleep seconds w = (r, w') -> reports w' = reports w.
Proof.
  unfold sleep. destruct (Qlt_bool seconds 0).
  - unfold lift. now intros [= <- <-].
  - intros H. apply emit_ok in H. now rewrite app_nil_r in H.
Qed.

Lemma call_set_ok {Dev} (instrument : Instrument Dev) (V : Q) (w w' : World Dev)
    (r : result unit) :
  call_set instrument V w = (r, w') -> reports w' = reports w.
Proof.
  unfold call_set, reports. destruct (set_quantity instrument V (device w)) as [r0 dev].
  intros [= <- <-]. cbn [trace]. rewrite progress_reports_app. apply app_nil_r.
Qed.

Lemma call_read_ok {Dev} (instrument : Instrument Dev) (w w' : World Dev) (r : result Q) :
  call_read instrument w = (r, w') -> reports w' = reports w.
Proof.
  unfold call_read, reports. destruct (read_quantity instrument (device w)) as [r0 dev].
  intros [= <- <-]. cbn [trace]. rewrite progress_reports_app. apply app_nil_r.
Qed.

Lemma py_div_ok (a b q : Q) : py_div a b = Ok q -> q = (a / b)%Q.
Proof. unfold py_div. destruct (Qeq_bool b 0); [discriminate | congruence]. Qed.

Lemma map_seq_shift {A} (f : nat -> A) (n : nat) :
  forall m a, map f (seq (n + a) m) = map (fun j => f (n + j)%nat) (seq a m).
Proof.
  induction m as [|m IH]; intros a; cbn [seq map]; [reflexivity|].
  f_equal. rewrite <- IH. now rewrite Nat.add_succ_r.
Qed.

Lemma fractions_app (T from : Z) (n m : nat) :
  fractions T from n ++ fractions T (from + Z.of_nat n) m = fractions T from (n + m).
Proof.
  unfold fractions. rewrite seq_app, map_app. f_equal.
  rewrite (Nat.add_comm 1 n), map_seq_shift.
  apply map_ext. intros j. now rewrite Nat2Z.inj_add, Z.add_assoc.
Qed.

(** Unfold one [let!] of a run that returned. *)
Ltac unbind H :=
  let a := fresh "a" in
  let w1 := fresh "w" in
  let H1 := fresh "H" in
  apply bind_ok in H as (a & w1 & H1 & H).

Section Progress.
Context {Dev : Type}.
Variable py_int : string -> option Z.
Variable py_float : string -> option Q.
Variable str_int : Z -> string.
Variable str_float : Q -> string.
Variable confirm : string -> bool.
Variable instrument : Instrument Dev.
Variable fuel : nat.
Variable input_widgets : gmap string string.

Lemma read_currents_reports (n : nat) (delay_val : Q) (r_val : Z) :
  forall currents (w w' : World Dev) l,
    read_currents instrument n delay_val r_val currents w = (Ok l, w') ->
    reports w' = reports w.
Proof.
  induction n as [|n IH]; intros currents w w' l; cbn [read_currents].
  - unfold ret. now intros [= _ <-].
  - intros H. unbind H. unbind H. unbind H.
    apply lift_ok in H0 as [_ ->]. apply sleep_ok in H1. apply call_read_ok in H2.
    apply IH in H. congruence.
Qed.

Lemma sweep_point_reports (delay_val : Q) (r_val total_steps : Z) (V : Q) (step_counter : Z)
    (w w' : World Dev) (sc : Z) :
  sweep_point instrument delay_val r_val total_steps V step_counter w = (Ok sc, w') ->
  sc = step_counter + 1 /\
  reports w' = reports w ++ fractions total_steps step_counter 1.
Proof.
  unfold sweep_point. intros H.
  unbind H. apply call_set_ok in H0.
  unbind H. apply sleep_ok in H1.
  unbind H. apply read_currents_reports in H2.
  unbind H. apply lift_ok in H3 as [_ ->].
  unbind H. apply emit_ok in H3. cbn in H3. rewrite app_nil_r in H3.
  cbv zeta in H.
  unbind H. apply lift_ok in H4 as [Hf ->]. apply py_div_ok in Hf.
  unbind H. apply emit_ok in H4. cbn in H4.
  unfold ret in H. injection H as <- <-.
  split; [reflexivity|].
  rewrite H4, H3, H2, H1, H0, Hf. reflexivity.
Qed.

Lemma sweep_reports (delay_val : Q) (r_val total_steps : Z) (V_values : list Q) :
  forall (step_counter : Z) (w w' : World Dev) (sc : Z),
    sweep instrument delay_val r_val total_steps V_values step_counter w = (Ok sc, w') ->
    sc = step_counter + Z.of_nat (length V_values) /\
    reports w' = reports w ++ fractions total_steps step_counter (length V_values).
Proof.
  induction V_values as [|V rest IH]; intros step_counter w w' sc; cbn [sweep].
  - unfold ret. intros [= <- <-]. split; [cbn; lia | cbn; now rewrite app_nil_r].
  - intros H. unbind H. apply sweep_point_reports in H0 as [-> Hr1].
    apply IH in H as [-> Hr2]. split; [cbn [length]; lia|].
    rewrite Hr2, Hr1, <- app_assoc.
    change (step_counter + 1) with (step_counter + Z.of_nat 1).
    rewrite fractions_app. reflexivity.
Qed.

Lemma scan_commands_reports (cmds : list Command) :
  forall delay_val r_val (w w' : World Dev) dr,
    scan_commands py_int py_float input_widgets cmds delay_val r_val w = (Ok dr, w') ->
    reports w' = reports w.
Proof.
  induction cmds as [|[param|param|outputs] cmds IH]; intros delay_val r_val w w' dr;
    cbn [scan_commands].
  - unfold ret. now intros [= _ <-].
  - intros H. unbind H. apply lift_ok in H0 as [_ ->]. now apply IH in H.
  - intros H. unbind H. apply lift_ok in H0 as [_ ->].
    unbind H. apply sleep_ok in H0. apply IH in H. congruence.
  - apply IH.
Qed.

(** A loop that returns has made the steps counted for it. *)
Lemma run_for_loop_reports (total_steps : Z) (for_loop : ForLoop) (k : Z) (step_counter : Z)
    (w w' : World Dev) (sc : Z) :
  loop_steps py_float input_widgets for_loop = Ok k ->
  ascending_step_positive py_float input_widgets for_loop ->
  run_for_loop py_int py_float instrument fuel input_widgets total_steps for_loop
    step_counter w = (Ok sc, w') ->
  sc = step_counter + Z.of_nat (Z.to_nat k) /\
  reports w' = reports w ++ fractions total_steps step_counter (Z.to_nat k).
Proof.
  unfold loop_steps, run_for_loop. intros Hk Hasc H.
  unbind H. apply lift_ok in H0 as [Hs ->].
  unbind H. apply lift_ok in H0 as [He ->].
  unbind H. apply lift_ok in H0 as [Hd ->].
  rewrite Hs, He, Hd in Hk. cbn [rbind] in Hk.
  unbind H. apply scan_commands_reports in H0.
  unbind H. apply lift_ok in H1 as [Hv ->].
  apply sweep_reports in H as [-> Hr].
  rewrite (sweep_values_length _ _ _ _ _ _ Hk (Hasc _ _ _ Hs He Hd) Hv) in *.
  split; [reflexivity | congruence].
Qed.

Let counted (for_loop : ForLoop) (k : Z) : Prop :=
  loop_steps py_float input_widgets for_loop = Ok k.

Let ascending_ok : ForLoop -> Prop := ascending_step_positive py_float input_widgets.

Lemma run_for_loops_reports (total_steps : Z) (loops : list ForLoop) (ks : list Z) :
  Forall2 counted loops ks ->
  Forall ascending_ok loops ->
  forall (step_counter : Z) (w w' : World Dev) (sc : Z),
    run_for_loops py_int py_float instrument fuel input_widgets total_steps loops
      step_counter w = (Ok sc, w') ->
    sc = step_counter + Z.of_nat (points ks) /\
    reports w' = reports w ++ fractions total_steps step_counter (points ks).
Proof.
  intros Hks. induction Hks as [|fl k loops ks Hk Hks IH]; intros Hasc step_counter w w' sc;
    cbn [run_for_loops points fold_right].
  - unfold ret. intros [= <- <-]. split; [cbn; lia | cbn; now rewrite app_nil_r].
  - inversion Hasc as [|? ? Hfl Hrest]; subst.
    intros H. unbind H.
    apply (run_for_loop_reports _ _ k) in H0 as [-> Hr1]; [|exact Hk|exact Hfl].
    apply (IH Hrest) in H as [-> Hr2]. split; [fold (points ks); lia|].
    fold (points ks). rewrite Hr2, Hr1, <- app_assoc, fractions_app. reflexivity.
Qed.

Lemma run_cycles_reports (cycles_val total_steps : Z) (loops : list ForLoop) (ks : list Z) :
  Forall2 counted loops ks ->
  Forall ascending_ok loops ->
  forall (n : nat) (c step_counter : Z) (w w' : World Dev) (sc : Z),
    run_cycles py_int py_float instrument fuel input_widgets n c cycles_val total_steps
      loops step_counter w = (Ok sc, w') ->
    sc = step_counter + Z.of_nat (n * points ks) /\
    reports w' = reports w ++ fractions total_steps step_counter (n * points ks).
Proof.
  intros Hks Hasc. induction n as [|n IH]; intros c step_counter w w' sc; cbn [run_cycles].
  - unfold ret. intros [= <- <-]. split; [cbn; lia | cbn; now rewrite app_nil_r].
  - intros H. unbind H. apply emit_ok in H0. cbn in H0. rewrite app_nil_r in H0.
    unbind H. apply (run_for_loops_reports _ _ _ Hks Hasc) in H1 as [-> Hr1].
    apply IH in H as [-> Hr2]. split; [lia|].
    rewrite Hr2, Hr1, H0, <- app_assoc, fractions_app. reflexivity.
Qed.

(** Every block of the run repeats by the entry of [C]. *)
Lemma run_blocks_reports (total_steps c : Z) (prog : Program) (kss : list (list Z)) :
  entry_or input_widgets "C" (to_int py_int) 1 = Ok c ->
  Forall2 (fun blk ks => Forall2 counted (for_loops blk) ks) prog kss ->
  Forall (fun blk => Forall ascending_ok (for_loops blk)) prog ->
  forall (step_counter : Z) (w w' : World Dev) (sc : Z),
    run_blocks py_int py_float instrument fuel input_widgets prog total_steps
      step_counter w = (Ok sc, w') ->
    sc = step_counter + Z.of_nat (Z.to_nat c * all_points kss) /\
    reports w' = reports w ++ fractions total_steps step_counter (Z.to_nat c * all_points kss).
Proof.
  intros Hc Hkss. induction Hkss as [|blk ks prog kss Hks Hkss IH];
    intros Hasc step_counter w w' sc; cbn [run_blocks all_points fold_right].
  - unfold ret. intros [= <- <-]. rewrite Nat.mul_0_r.
    split; [cbn; lia | cbn; now rewrite app_nil_r].
  - inversion Hasc as [|? ? Hblk Hrest]; subst.
    rewrite block_get_repeat_var. cbv zeta. intros H.
    unbind H. apply lift_ok in H0 as [Hc' ->]. rewrite Hc in Hc'. injection Hc' as <-.
    unbind H. apply emit_ok in H0. cbn in H0. rewrite app_nil_r in H0.
    unbind H. apply (run_cycles_reports _ _ _ _ Hks Hblk) in H1 as [-> Hr1].
    apply (IH Hrest) in H as [-> Hr2]. fold (all_points kss).
    rewrite Nat.mul_add_distr_l. split; [lia|].
    rewrite Hr2, Hr1, H0, <- app_assoc, fractions_app. reflexivity.
Qed.

Lemma count_for_loops_sum (loops : list ForLoop) :
  forall c total total',
    count_for_loops py_float input_widgets loops c total = Ok total' ->
    exists ks, Forall2 counted loops ks /\ total' = total + c * Z.of_nat (points ks).
Proof.
  induction loops as [|fl loops IH]; intros c total total'; cbn [count_for_loops].
  - intros [= <-]. exists []. split; [constructor | cbn; lia].
  - destruct (entry_or input_widgets (start fl) (to_float py_float) 0%Q) as [s| |] eqn:Es;
      cbn [rbind]; try discriminate.
    destruct (entry_or input_widgets (end_ fl) (to_float py_float) 1%Q) as [e| |] eqn:Ee;
      cbn [rbind]; try discriminate.
    destruct (entry_or input_widgets (step fl) (to_float py_float) (1 # 10)%Q) as [d| |] eqn:Ed;
      cbn [rbind]; try discriminate.
    destruct (steps_in_loop s e d) as [k| |] eqn:Ek; cbn [rbind]; try discriminate.
    intros H. apply IH in H as (ks & Hks & ->).
    exists (k :: ks). split.
    + constructor; [|exact Hks]. unfold counted, loop_steps. now rewrite Es, Ee, Ed.
    + pose proof (steps_in_loop_positive _ _ _ _ Ek). cbn [points fold_right].
      fold (points ks). lia.
Qed.

Lemma count_blocks_sum (prog : Program) (c : Z) :
  Forall (fun blk => repeats blk = "C") prog ->
  entry_or input_widgets "C" (to_int py_int) 1 = Ok c ->
  forall total total',
    count_blocks py_int py_float input_widgets prog total = Ok total' ->
    exists kss,
      Forall2 (fun blk ks => Forall2 counted (for_loops blk) ks) prog kss /\
      total' = total + c * Z.of_nat (all_points kss).
Proof.
  intros HC Hc. induction HC as [|blk prog Hblk HC IH]; intros total total';
    cbn [count_blocks].
  - intros [= <-]. exists []. split; [constructor | cbn; lia].
  - rewrite Hblk. cbv zeta. rewrite Hc. cbn [rbind].
    destruct (count_for_loops py_float input_widgets (for_loops blk) c total)
      as [t1| |] eqn:E1; cbn [rbind]; try discriminate.
    apply count_for_loops_sum in E1 as (ks & Hks & ->).
    intros H. apply IH in H as (kss & Hkss & ->).
    exists (ks :: kss). split; [now constructor|].
    cbn [all_points fold_right]. fold (all_points kss). lia.
Qed.

Lemma describe_process_reports (prog : Program) (show_messagebox : bool)
    (w w' : World Dev) (answer : bool) :
  describe_process py_int py_float str_int str_float confirm input_widgets prog
    show_messagebox w = (Ok answer, w') ->
  reports w' = reports w.
Proof.
  unfold describe_process. intros H.
  unbind H. apply lift_ok in H0 as [_ ->].
  unbind H. apply emit_ok in H0. cbn in H0. rewrite app_nil_r in H0.
  destruct show_messagebox.
  - cbv zeta in H. unbind H. apply emit_ok in H1. cbn in H1. rewrite app_nil_r in H1.
    unfold ret in H. injection H as _ <-. congruence.
  - unfold ret in H. injection H as _ <-. congruence.
Qed.

(** The progress of the runs on which the count and the run agree.  When
    every block repeats on the symbol [C] and every ascending loop has a
    positive bound step, a task that completes has counted a total T before
    the run and has reported 1/T, 2/T, ..., T/T in this order, and then the
    closing 1. *)
Lemma to_nat_scaled (c : Z) (n : nat) : Z.to_nat (c * Z.of_nat n) = (Z.to_nat c * n)%nat.
Proof.
  destruct (Z_le_gt_dec 0 c) as [Hc|Hc].
  - rewrite Z2Nat.inj_mul by lia. now rewrite Nat2Z.id.
  - replace (Z.to_nat c) with 0%nat by lia.
    assert (c * Z.of_nat n <= 0) by nia. lia.
Qed.

Lemma completed_run_reports_every_step (selection : Selection) (prog : Program) (dev : Dev)
    (w : World Dev) :
  selection_filled selection = true ->
  Forall (fun blk => repeats blk = "C") prog ->
  Forall (fun blk => Forall ascending_ok (for_loops blk)) prog ->
  task py_int py_float str_int str_float confirm instrument fuel input_widgets
    selection prog (start_world dev) = (Ok tt, w) ->
  exists T,
    count_blocks py_int py_float input_widgets prog 0 = Ok T /\
    progress_reports (trace w) = fractions T 0 (Z.to_nat T) ++ [1%Q].
Proof.
  intros Hsel HC Hasc H. unfold task in H.
  unfold selection_filled in Hsel. apply negb_true_iff in Hsel. rewrite Hsel in H.
  unbind H. apply describe_process_reports in H0.
  unfold run in H.
  unbind H. apply emit_ok in H1. cbn in H1. rewrite app_nil_r in H1.
  unbind H. apply lift_ok in H2 as [Hcount ->].
  unbind H. rename H2 into Hrun.
  unbind H. apply emit_ok in H2. cbn in H2.
  apply emit_ok in H. cbn in H. rewrite app_nil_r in H.
  exists a1. split; [exact Hcount|].
  change (progress_reports (trace w)) with (reports w).
  assert (Hstart : reports (start_world dev) = []) by reflexivity.
  destruct prog as [|blk rest].
  - cbn in Hcount. injection Hcount as <-.
    cbn in Hrun. unfold ret in Hrun. injection Hrun as _ <-.
    rewrite H, H2, H1, H0, Hstart. reflexivity.
  - destruct (entry_or input_widgets "C" (to_int py_int) 1) as [c| |] eqn:Hc.
    + destruct (count_blocks_sum _ c HC Hc _ _ Hcount) as (kss & Hkss & ->).
      apply (run_blocks_reports _ c _ kss Hc Hkss Hasc) in Hrun as [_ Hr].
      rewrite H, H2, Hr, H1, H0, Hstart. cbn [app].
      now rewrite Z.add_0_l, to_nat_scaled.
    + exfalso. inversion HC as [|? ? Hblk _]; subst.
      cbn [count_blocks] in Hcount. rewrite Hblk, Hc in Hcount. discriminate.
    + exfalso. inversion HC as [|? ? Hblk _]; subst.
      cbn [count_blocks] in Hcount. rewrite Hblk, Hc in Hcount. discriminate.
Qed.

End Progress.


(** ** The values of a sweep *)

Lemma Qlt_bool_false (a b : Q) : Qlt_bool a b = false <-> (b <= a)%Q.
Proof.
  unfold Qlt_bool. rewrite negb_false_iff. apply Qle_bool_iff.
Qed.

Lemma frange_up_bounds (lo stop d : Q) :
  (0 < d)%Q ->
  forall (fuel : nat) (x : Q) (vals r : list Q),
    (lo <= x)%Q ->
    Forall (fun v => (lo <= v <= stop)%Q) vals ->
    frange_up fuel x stop d vals = Ok r ->
    Forall (fun v => (lo <= v <= stop)%Q) r.
Proof.
  intros Hd. induction fuel as [|fuel IH]; intros x vals r Hx Hvals; cbn [frange_up];
    [discriminate|].
  destruct (Qle_bool x stop) eqn:Ex.
  - apply Qle_bool_iff in Ex. apply IH; [lra|].
    apply Forall_app; split; [exact Hvals|]. constructor; [split; lra | constructor].
  - now intros [= <-].
Qed.

Lemma frange_down_bounds (hi stop d : Q) :
  (d <= 0)%Q ->
  forall (fuel : nat) (x : Q) (vals r : list Q),
    (x <= hi)%Q ->
    Forall (fun v => (stop <= v <= hi)%Q) vals ->
    frange_down fuel x stop d vals = Ok r ->
    Forall (fun v => (stop <= v <= hi)%Q) r.
Proof.
  intros Hd. induction fuel as [|fuel IH]; intros x vals r Hx Hvals; cbn [frange_down];
    [discriminate|].
  destruct (Qle_bool stop x) eqn:Ex.
  - apply Qle_bool_iff in Ex. apply IH; [lra|].
    apply Forall_app; split; [exact Hvals|]. constructor; [split; lra | constructor].
  - now intros [= <-].
Qed.

(** A sweep never leaves the interval between its two ends, whatever the
    size and the sign of the bound step: every value it returns lies
    between [start_val] and [end_val]. *)
Theorem sweep_values_between_ends (fuel : nat) (start_val end_val step_val : Q)
    (V_values : list Q) :
  sweep_values fuel start_val end_val step_val = Ok V_values ->
  Forall (fun V => (start_val <= V <= end_val)%Q \/ (end_val <= V <= start_val)%Q) V_values.
Proof.
  unfold sweep_values, frange. intros H.
  destruct (Qlt_bool start_val end_val) eqn:Edir.
  - apply Qlt_bool_iff in Edir.
    destruct (Qlt_bool 0 step_val) eqn:Es.
    + apply Qlt_bool_iff in Es.
      apply (frange_up_bounds start_val _ _ Es) in H; [|lra|constructor].
      eapply List.Forall_impl; [|exact H]. intros v Hv. now left.
    + destruct fuel as [|fuel]; [discriminate|]. cbn [frange_down] in H.
      assert (Ex : Qle_bool end_val start_val = false) by (now apply Qle_bool_false).
      rewrite Ex in H. injection H as <-. constructor.
  - apply Qlt_bool_false in Edir.
    assert (Hd : (- Qabs step_val <= 0)%Q) by (pose proof (Qabs_nonneg step_val); lra).
    assert (Es : Qlt_bool 0 (- Qabs step_val) = false) by (now apply Qlt_bool_false).
    rewrite Es in H.
    apply (frange_down_bounds start_val _ _ Hd) in H; [|lra|constructor].
    eapply List.Forall_impl; [|exact H]. intros v Hv. now right.
Qed.

Lemma sweep_values_between_ends_witness :
  exists V_values,
    sweep_values 6 1 0 (1 # 4) = Ok V_values /\
    Forall (fun V => (1 <= V <= 0)%Q \/ (0 <= V <= 1)%Q) V_values.
Proof.
  eexists. split; [reflexivity|].
  apply (sweep_values_between_ends 6 1 0 (1 # 4)). reflexivity.
Defined.

(** ** Assertions kept by a run *)

Section Hoare.
Context {Dev : Type}.
Implicit Types (P : World Dev -> Prop) (E : option exn -> World Dev -> Prop).

Lemma hoare_ret {A} P (Q : A -> World Dev -> Prop) E (a : A) :
  (forall w, P w -> Q a w) -> hoare P (ret a) Q E.
Proof. intros H w r w' HP [= <- <-]. now apply H. Qed.

Lemma hoare_bind {A B} P (Q : A -> World Dev -> Prop) (R : B -> World Dev -> Prop) E
    (m : M Dev A) (k : A -> M Dev B) :
  hoare P m Q E -> (forall a, hoare (Q a) (k a) R E) -> hoare P (bind m k) R E.
Proof.
  intros Hm Hk w r w' HP. unfold bind.
  destruct (m w) as [[a|e|] w1] eqn:Em; specialize (Hm w _ w1 HP Em); cbn in Hm.
  - intros Hka. exact (Hk a w1 r w' Hm Hka).
  - intros [= <- <-]. exact Hm.
  - intros [= <- <-]. exact Hm.
Qed.

Lemma hoare_bind_lift {A B} P (R : B -> World Dev -> Prop) E (r : result A)
    (k : A -> M Dev B) :
  (forall w raised, P w -> E raised w) ->
  (forall a, r = Ok a -> hoare P (k a) R E) ->
  hoare P (bind (lift r) k) R E.
Proof.
  intros HE Hk w r' w' HP. unfold bind, lift. destruct r as [a|e|].
  - intros Hka. exact (Hk a eq_refl w r' w' HP Hka).
  - intros [= <- <-]. now apply HE.
  - intros [= <- <-]. now apply HE.
Qed.

Lemma hoare_emit P (Q : World Dev -> Prop) E (ev : Event) :
  (forall w, P w -> Q (with_event w ev)) -> hoare P (emit ev) (fun _ => Q) E.
Proof. intros H w r w' HP [= <- <-]. now apply H. Qed.

Lemma hoare_sleep P E (seconds : Q) :
  (forall w raised, P w -> E raised w) ->
  (forall w, P w -> P (with_event w (Sleep seconds))) ->
  hoare P (sleep seconds) (fun _ => P) E.
Proof.
  intros HE HP. unfold sleep. destruct (Qlt_bool seconds 0).
  - intros w r w' Hw [= <- <-]. now apply HE.
  - now apply hoare_emit.
Qed.

Lemma hoare_fact {A} P (Q : A -> World Dev -> Prop) E (m : M Dev A) (fact : Prop) :
  (fact -> hoare P m Q E) -> hoare (fun w => P w /\ fact) m Q E.
Proof. intros H w r w' [HP Hf]. now apply H. Qed.

End Hoare.

Section EngineHoare.
Context {Dev : Type}.
Variable py_int : string -> option Z.
Variable py_float : string -> option Q.
Variable str_int : Z -> string.
Variable str_float : Q -> string.
Variable confirm : string -> bool.
Variable instrument : Instrument Dev.
Variable fuel : nat.
Variable input_widgets : gmap string string.

(** [Rest] holds between sweep values and [Hold V] while [V] is held;
    every reading is [Good]. *)
Variable Rest : World Dev -> Prop.
Variable Hold : Q -> World Dev -> Prop.
Variable Good : Q -> Prop.
Variable E : option exn -> World Dev -> Prop.

Hypothesis Rest_quiet : forall w ev, is_quiet ev = true -> Rest w -> Rest (with_event w ev).
Hypothesis Hold_quiet :
  forall V w ev, is_quiet ev = true -> Hold V w -> Hold V (with_event w ev).
Hypothesis Rest_E : forall w raised, Rest w -> E raised w.
Hypothesis Hold_E : forall V w raised, Hold V w -> E raised w.
Hypothesis set_ok : forall V, hoare Rest (call_set instrument V) (fun _ => Hold V) E.
Hypothesis read_ok :
  forall V, hoare (Hold V) (call_read instrument) (fun i w => Hold V w /\ Good i) E.
Hypothesis row_ok :
  forall V currents I_mean w,
    Hold V w -> Forall Good currents ->
    py_div (py_sum currents) (inject_Z (Z.of_nat (length currents))) = Ok I_mean ->
    Rest (with_event w (WriteRow (DataRow V I_mean))).

Lemma hoare_read_currents (V : Q) (n : nat) (delay_val : Q) (r_val : Z) :
  forall currents,
    Forall Good currents ->
    hoare (Hold V) (read_currents instrument n delay_val r_val currents)
      (fun l w => Hold V w /\ Forall Good l) E.
Proof.
  induction n as [|n IH]; intros currents Hc; cbn [read_currents].
  - apply hoare_ret. auto.
  - apply hoare_bind_lift; [intros; eapply Hold_E; eassumption | intros wait _].
    eapply hoare_bind;
      [apply hoare_sleep; [intros; eapply Hold_E; eassumption | intros; now apply Hold_quiet]
      | intros ?].
    eapply hoare_bind; [apply read_ok | intros i]. apply hoare_fact. intros Hi.
    apply IH. apply Forall_app; split; [assumption | now constructor].
Qed.

Lemma hoare_sweep_point (delay_val : Q) (r_val total_steps : Z) (V : Q) (step_counter : Z) :
  hoare Rest (sweep_point instrument delay_val r_val total_steps V step_counter)
    (fun _ => Rest) E.
Proof.
  unfold sweep_point.
  eapply hoare_bind; [apply set_ok | intros ?].
  eapply hoare_bind;
    [apply hoare_sleep; [intros; eapply Hold_E; eassumption | intros; now apply Hold_quiet]
    | intros ?].
  eapply hoare_bind; [apply hoare_read_currents; constructor | intros currents].
  apply hoare_fact. intros Hc.
  apply hoare_bind_lift; [intros; eapply Hold_E; eassumption | intros I_mean HI].
  eapply hoare_bind;
    [apply hoare_emit; intros w Hw; eapply row_ok; eassumption | intros ?].
  cbv zeta.
  apply hoare_bind_lift; [exact Rest_E | intros fraction _].
  eapply hoare_bind; [apply hoare_emit; intros; now apply Rest_quiet | intros ?].
  apply hoare_ret. auto.
Qed.

Lemma hoare_sweep (delay_val : Q) (r_val total_steps : Z) (V_values : list Q) :
  forall step_counter,
    hoare Rest (sweep instrument delay_val r_val total_steps V_values step_counter)
      (fun _ => Rest) E.
Proof.
  induction V_values as [|V rest IH]; intros step_counter; cbn [sweep].
  - apply hoare_ret. auto.
  - eapply hoare_bind; [apply hoare_sweep_point | intros sc; apply IH].
Qed.

Lemma hoare_scan_commands (cmds : list Command) :
  forall delay_val r_val,
    hoare Rest (scan_commands py_int py_float input_widgets cmds delay_val r_val)
      (fun _ => Rest) E.
Proof.
  induction cmds as [|[param|param|outputs] cmds IH]; intros delay_val r_val;
    cbn [scan_commands].
  - apply hoare_ret. auto.
  - apply hoare_bind_lift; [exact Rest_E | intros r _]. apply IH.
  - apply hoare_bind_lift; [exact Rest_E | intros d _].
    eapply hoare_bind;
      [apply hoare_sleep; [exact Rest_E | intros; now apply Rest_quiet] | intros ?].
    apply IH.
  - apply IH.
Qed.

Lemma hoare_run_for_loop (total_steps : Z) (for_loop : ForLoop) (step_counter : Z) :
  hoare Rest
    (run_for_loop py_int py_float instrument fuel input_widgets total_steps for_loop
       step_counter)
    (fun _ => Rest) E.
Proof.
  unfold run_for_loop.
  apply hoare_bind_lift; [exact Rest_E | intros start_val _].
  apply hoare_bind_lift; [exact Rest_E | intros end_val _].
  apply hoare_bind_lift; [exact Rest_E | intros step_val _].
  eapply hoare_bind; [apply hoare_scan_commands | intros dr].
  apply hoare_bind_lift; [exact Rest_E | intros V_values _].
  apply hoare_sweep.
Qed.

Lemma hoare_run_for_loops (total_steps : Z) (loops : list ForLoop) :
  forall step_counter,
    hoare Rest
      (run_for_loops py_int py_float instrument fuel input_widgets total_steps loops
         step_counter)
      (fun _ => Rest) E.
Proof.
  induction loops as [|fl loops IH]; intros step_counter; cbn [run_for_loops].
  - apply hoare_ret. auto.
  - eapply hoare_bind; [apply hoare_run_for_loop | intros sc; apply IH].
Qed.

Lemma hoare_run_cycles (n : nat) (cycles_val total_steps : Z) (loops : list ForLoop) :
  forall c step_counter,
    hoare Rest
      (run_cycles py_int py_float instrument fuel input_widgets n c cycles_val total_steps
         loops step_counter)
      (fun _ => Rest) E.
Proof.
  induction n as [|n IH]; intros c step_counter; cbn [run_cycles].
  - apply hoare_ret. auto.
  - eapply hoare_bind; [apply hoare_emit; intros; now apply Rest_quiet | intros ?].
    eapply hoare_bind; [apply hoare_run_for_loops | intros sc; apply IH].
Qed.

Lemma hoare_run_blocks (process_parsed : Program) (total_steps : Z) :
  forall step_counter,
    hoare Rest
      (run_blocks py_int py_float instrument fuel input_widgets process_parsed total_steps
         step_counter)
      (fun _ => Rest) E.
Proof.
  induction process_parsed as [|blk rest IH]; intros step_counter; cbn [run_blocks].
  - apply hoare_ret. auto.
  - cbv zeta. apply hoare_bind_lift; [exact Rest_E | intros cycles_val _].
    eapply hoare_bind; [apply hoare_emit; intros; now apply Rest_quiet | intros ?].
    eapply hoare_bind; [apply hoare_run_cycles | intros sc; apply IH].
Qed.

Lemma hoare_describe_process (prog : Program) (show_messagebox : bool) :
  hoare Rest
    (describe_process py_int py_float str_int str_float confirm input_widgets prog
       show_messagebox)
    (fun _ => Rest) E.
Proof.
  unfold describe_process.
  apply hoare_bind_lift; [exact Rest_E | intros text _].
  eapply hoare_bind; [apply hoare_emit; intros; now apply Rest_quiet | intros ?].
  destruct show_messagebox; [|apply hoare_ret; auto].
  cbv zeta.
  eapply hoare_bind; [apply hoare_emit; intros; now apply Rest_quiet | intros ?].
  apply hoare_ret. auto.
Qed.

Lemma hoare_task (selection : Selection) (process_parsed : Program) :
  hoare Rest
    (task py_int py_float str_int str_float confirm instrument fuel input_widgets
       selection process_parsed)
    (fun _ => Rest) E.
Proof.
  unfold task.
  destruct (_ || _ || _); [apply hoare_emit; intros; now apply Rest_quiet|].
  eapply hoare_bind; [apply hoare_describe_process | intros answer].
  unfold run.
  eapply hoare_bind; [apply hoare_emit; intros; now apply Rest_quiet | intros ?].
  apply hoare_bind_lift; [exact Rest_E | intros total_steps _].
  eapply hoare_bind; [apply hoare_run_blocks | intros sc].
  eapply hoare_bind; [apply hoare_emit; intros; now apply Rest_quiet | intros ?].
  apply hoare_emit; intros; now apply Rest_quiet.
Qed.

End EngineHoare.

(** ** Rows and setpoints, however the run ends *)

Lemma quiet_projections (tr : list Event) (ev : Event) :
  is_quiet ev = true ->
  setpoints (tr ++ [ev]) = setpoints tr /\ samples (tr ++ [ev]) = samples tr.
Proof.
  intros H. rewrite setpoints_app, samples_app.
  destruct ev as [| | | |[]| | | | | |]; try discriminate H; cbn; now rewrite !app_nil_r.
Qed.

Lemma held_quiet (ph : phase) (tr : list Event) (ev : Event) :
  is_quiet ev = true -> held ph tr -> held ph (tr ++ [ev]).
Proof.
  intros Hq H. unfold held. destruct (quiet_projections tr ev Hq) as [-> ->]. exact H.
Qed.

Lemma held_setpoint (tr : list Event) (V : Q) (outcome : result unit) :
  held AtRest tr -> held (Holding V) (tr ++ [Setpoint V outcome]).
Proof.
  unfold held. intros H. rewrite setpoints_app, samples_app, H. cbn. now rewrite !app_nil_r.
Qed.

Lemma held_reading (tr : list Event) (V : Q) (outcome : result Q) :
  held (Holding V) tr -> held (Holding V) (tr ++ [Reading outcome]).
Proof.
  unfold held. intros H. rewrite setpoints_app, samples_app, H. cbn. now rewrite !app_nil_r.
Qed.

Lemma held_row (tr : list Event) (V I_mean : Q) :
  held (Holding V) tr -> held AtRest (tr ++ [WriteRow (DataRow V I_mean)]).
Proof.
  unfold held. intros H. rewrite setpoints_app, samples_app, H, map_app. cbn.
  now rewrite !app_nil_r.
Qed.

Section Rows.
Context {Dev : Type}.
Variable py_int : string -> option Z.
Variable py_float : string -> option Q.
Variable str_int : Z -> string.
Variable str_float : Q -> string.
Variable confirm : string -> bool.
Variable instrument : Instrument Dev.
Variable fuel : nat.
Variable input_widgets : gmap string string.

(** However a task ends (it completes, an entry is not a number, a count
    of readings is 0, a wait is negative, the instrument fails, a loop
    does not end), the data rows in the CSV file are the sweep values
    commanded so far, in the order they were commanded and one row for
    each, except that the last sweep value commanded may still be without
    its row; a task that completes has a row for every one. *)
Theorem every_row_follows_its_setpoint (selection : Selection) (process_parsed : Program)
    (dev : Dev) (r : result unit) (w : World Dev) :
  task py_int py_float str_int str_float confirm instrument fuel input_widgets
    selection process_parsed (start_world dev) = (r, w) ->
  rows_follow_setpoints (trace w) /\
  (length (samples (trace w)) <= length (setpoints (trace w)) <= S (length (samples (trace w))))%nat /\
  (r = Ok tt -> setpoints (trace w) = map fst (samples (trace w))).
Proof.
  intros Hrun.
  assert (H : match r with
              | Ok _ => held AtRest (trace w)
              | _ => rows_follow_setpoints (trace w)
              end).
  { assert (Hh := hoare_task py_int py_float str_int str_float confirm instrument fuel
                    input_widgets
                    (fun w => held AtRest (trace w))
                    (fun V w => held (Holding V) (trace w))
                    (fun _ => True)
                    (fun _ w => rows_follow_setpoints (trace w))).
    specialize (Hh (fun w ev Hq H => held_quiet _ _ _ Hq H)
                   (fun V w ev Hq H => held_quiet _ _ _ Hq H)
                   (fun w raised H => ex_intro _ AtRest H)
                   (fun V w raised H => ex_intro _ (Holding V) H)).
    assert (Hset : forall V,
               hoare (fun w : World Dev => held AtRest (trace w)) (call_set instrument V)
                 (fun _ w => held (Holding V) (trace w))
                 (fun _ w => rows_follow_setpoints (trace w))).
    { intros V w0 r0 w1 H0. unfold call_set.
      destruct (set_quantity instrument V (device w0)) as [o d]. intros [= <- <-].
      pose proof (held_setpoint _ V o H0) as H1.
      destruct o; [exact H1 | now exists (Holding V) | now exists (Holding V)]. }
    assert (Hread : forall V,
               hoare (fun w : World Dev => held (Holding V) (trace w)) (call_read instrument)
                 (fun _ w => held (Holding V) (trace w) /\ True)
                 (fun _ w => rows_follow_setpoints (trace w))).
    { intros V w0 r0 w1 H0. unfold call_read.
      destruct (read_quantity instrument (device w0)) as [o d]. intros [= <- <-].
      pose proof (held_reading _ V o H0) as H1.
      destruct o; [now split | now exists (Holding V) | now exists (Holding V)]. }
    specialize (Hh Hset Hread (fun V currents I_mean w H _ _ => held_row _ V I_mean H)).
    specialize (Hh selection process_parsed (start_world dev) r w eq_refl Hrun).
    destruct r; exact Hh. }
  assert (Hrows : rows_follow_setpoints (trace w)).
  { destruct r; [now exists AtRest | exact H | exact H]. }
  split; [exact Hrows|]. split.
  - destruct Hrows as [ph Hph]. unfold held in Hph.
    rewrite Hph, length_app, length_map. destruct ph; cbn; lia.
  - intros ->. unfold held in H. cbn in H. now rewrite app_nil_r in H.
Qed.

End Rows.

Lemma every_row_follows_its_setpoint_witness :
  let out := countdown_task 8 (sweep_widgets "C" "1" "0.25" "0") (one_sweep "C") in
  fst out = Raise ZeroDivisionError /\
  setpoints (trace (snd out)) = [0%Q] /\
  samples (trace (snd out)) = [] /\
  rows_follow_setpoints (trace (snd out)).
Proof.
  intros out. repeat split.
  apply (every_row_follows_its_setpoint int_of_decimal float_of_decimal str_of_int
           str_of_ratio yes countdown_instrument 100
           (sweep_widgets "C" "1" "0.25" "0") someone (one_sweep "C") 8%nat
           (fst out) (snd out)).
  apply surjective_pairing.
Defined.

(** ** The two modes of the instrument primitives *)

Lemma all_quiet_silent (tr : list Event) :
  all_quiet tr ->
  setpoints tr = [] /\ samples tr = [] /\ instrument_calls tr = [].
Proof.
  induction 1 as [|ev tr Hev _ IH]; [auto|].
  destruct IH as (IH1 & IH2 & IH3).
  destruct ev as [| | | |[]| | | | | |]; try discriminate Hev; cbn;
    rewrite ?IH1, ?IH2; auto.
Qed.

Lemma all_quiet_snoc (tr : list Event) (ev : Event) :
  is_quiet ev = true -> all_quiet tr -> all_quiet (tr ++ [ev]).
Proof. intros Hq H. apply Forall_app; split; [exact H | now constructor]. Qed.

Section Modes.
Context {Dev : Type}.
Variable py_int : string -> option Z.
Variable py_float : string -> option Q.
Variable str_int : Z -> string.
Variable str_float : Q -> string.
Variable confirm : string -> bool.
Variable pow10 : Q -> option Q.
Variable device_write : string -> Dev -> result unit * Dev.
Variable device_read : Dev -> result string * Dev.
Variable device_present : Dev -> bool.
Variable fuel : nat.
Variable input_widgets : gmap string string.

(** With [DEBUGGING = False] a task never measures anything: the first
    sweep value it reaches ends it with the exception of [setVoltage],
    before a command is written to the device.  The exception is the
    [AttributeError] of [None] while the page holds no device, and the
    [NameError] of [V] once it holds one.  The device is left as it was,
    nothing is read from it, no sample is recorded, and at most one
    setpoint is attempted. *)
Theorem device_mode_never_measures (selection : Selection) (process_parsed : Program)
    (dev : Dev) (r : result unit) (w : World Dev) :
  task py_int py_float str_int str_float confirm
    (source_instrument py_float str_float pow10 device_write device_read device_present false)
    fuel input_widgets selection process_parsed (start_world dev) = (r, w) ->
  device w = dev /\
  samples (trace w) = [] /\
  (forall outcome, ~ In (Reading outcome) (trace w)) /\
  (forall V outcome,
      In (Setpoint V outcome) (trace w) ->
      outcome = Raise (setVoltage_failure (device_present dev))) /\
  (length (setpoints (trace w)) <= 1)%nat /\
  (setpoints (trace w) <> [] -> r = Raise (setVoltage_failure (device_present dev))).
Proof.
  intros Hrun.
  set (failure := setVoltage_failure (device_present dev)).
  set (instrument :=
         source_instrument py_float str_float pow10 device_write device_read
           device_present false) in *.
  set (stopped := fun (raised : option exn) (w : World Dev) =>
         device w = dev /\
         (all_quiet (trace w) \/
          raised = Some failure /\
          exists tr0 V, trace w = tr0 ++ [Setpoint V (Raise failure)] /\
                        all_quiet tr0)).
  set (Rest := fun w : World Dev => device w = dev /\ all_quiet (trace w)).
  assert (Hh := hoare_task py_int py_float str_int str_float confirm instrument
                  fuel input_widgets Rest (fun _ _ => False) (fun _ => True) stopped).
  assert (Hq : forall w ev, is_quiet ev = true -> Rest w -> Rest (with_event w ev)).
  { intros w0 ev Hev [H1 H2]. split; [exact H1 | now apply all_quiet_snoc]. }
  assert (HE : forall w raised, Rest w -> stopped raised w).
  { intros w0 raised [H1 H2]. split; [exact H1 | now left]. }
  specialize (Hh Hq (fun _ _ _ _ H => H) HE (fun _ _ _ H => match H with end)).
  assert (Hset : forall V,
             hoare Rest (call_set instrument V) (fun _ _ => False) stopped).
  { intros V w0 r0 w1 [H1 H2]. unfold call_set, instrument.
    cbn [set_quantity source_instrument setVoltage]. rewrite H1.
    assert (Hfail : (if device_present dev
                     then match free_variable "V" with
                          | Ok V0 => device_write ("SETE " +:+ str_float V0) dev
                          | Raise e => (Raise e, dev)
                          | Loops => (Loops, dev)
                          end
                     else (none_attribute "write", dev))
                    = (Raise failure, dev)).
    { unfold failure, setVoltage_failure. now destruct (device_present dev). }
    rewrite Hfail. intros [= <- <-].
    split; [reflexivity|]. right. split; [reflexivity|]. exists (trace w0), V. auto. }
  assert (Hread : forall V : Q,
             hoare (fun _ : World Dev => False) (call_read instrument)
               (fun _ _ => False /\ True) stopped).
  { intros V w0 r0 w1 []. }
  specialize (Hh Hset Hread (fun _ _ _ _ H => match H with end)).
  assert (Hstart : Rest (start_world dev)) by (split; [reflexivity | constructor]).
  specialize (Hh selection process_parsed (start_world dev) r w Hstart Hrun).
  assert (Hs : stopped (match r with Raise e => Some e | _ => None end) w
               /\ (forall a, r = Ok a -> all_quiet (trace w))).
  { destruct r as [a|e|]; (split; [|try discriminate]).
    - now apply HE.
    - intros a' _. apply Hh.
    - exact Hh.
    - exact Hh. }
  destruct Hs as [[Hdev Hcase] Hok]. split; [exact Hdev|].
  destruct Hcase as [Hquiet | (Hr & tr0 & V & Htr & Hquiet)].
  - destruct (all_quiet_silent _ Hquiet) as (Hsp & Hsm & _).
    assert (Hno : forall ev, In ev (trace w) -> is_quiet ev = true).
    { now apply List.Forall_forall. }
    repeat split.
    + exact Hsm.
    + intros outcome Hin. apply Hno in Hin. discriminate.
    + intros V outcome Hin. apply Hno in Hin. discriminate.
    + rewrite Hsp. cbn. lia.
    + rewrite Hsp. congruence.
  - destruct (all_quiet_silent _ Hquiet) as (Hsp & Hsm & _).
    assert (Hno : forall ev, In ev tr0 -> is_quiet ev = true).
    { now apply List.Forall_forall. }
    rewrite Htr. rewrite setpoints_app, samples_app, Hsp, Hsm.
    repeat split.
    + intros outcome Hin. apply in_app_or in Hin as [Hin | [Hin | []]]; [|discriminate].
      apply Hno in Hin. discriminate.
    + intros V' outcome Hin. apply in_app_or in Hin as [Hin | [Hin | []]]; [|congruence].
      apply Hno in Hin. discriminate.
    + cbn. lia.
    + intros _. destruct r; congruence.
Qed.

(** With [DEBUGGING = True], as the source is configured, a run is a
    simulation: the device is left as it was, no instrument call fails,
    every reading is the current of the debugging branch, 10 times ten to
    the -2, and every sample is the mean [sum(currents) / len(currents)]
    of one or more such readings. *)
Theorem debugging_run_is_simulated (selection : Selection) (process_parsed : Program)
    (dev : Dev) (r : result unit) (w : World Dev) (p : Q) :
  pow10 (inject_Z (-2)) = Some p ->
  task py_int py_float str_int str_float confirm
    (source_instrument py_float str_float pow10 device_write device_read device_present true)
    fuel input_widgets selection process_parsed (start_world dev) = (r, w) ->
  device w = dev /\
  no_failure (trace w) /\
  (forall outcome, In (Reading outcome) (trace w) -> outcome = Ok (inject_Z 10 * p)%Q) /\
  Forall (fun s => simulated_mean p (snd s)) (samples (trace w)).
Proof.
  intros Hp Hrun.
  set (instrument :=
         source_instrument py_float str_float pow10 device_write device_read
           device_present true) in *.
  set (Rest := fun w : World Dev =>
         device w = dev /\ no_failure (trace w) /\
         simulated_readings p (trace w) /\
         Forall (fun s => simulated_mean p (snd s)) (samples (trace w))).
  assert (Hh := hoare_task py_int py_float str_int str_float confirm instrument
                  fuel input_widgets Rest (fun _ => Rest)
                  (fun i => i = (inject_Z 10 * p)%Q) (fun _ => Rest)).
  assert (Hq : forall w ev, is_quiet ev = true -> Rest w -> Rest (with_event w ev)).
  { intros w0 ev Hev (H1 & H2 & H3 & H4). split; [exact H1|]. cbn [with_event trace].
    split; [|split].
    - apply no_failure_snoc; [exact H2|].
      destruct ev as [| | | |[]| | | | | |]; try discriminate Hev; reflexivity.
    - apply Forall_app; split; [exact H3|]. constructor; [|constructor].
      destruct ev as [| | | |[]| | | | | |]; try discriminate Hev; exact I.
    - destruct (quiet_projections (trace w0) ev Hev) as [_ ->]. exact H4. }
  specialize (Hh Hq (fun _ => Hq) (fun _ _ H => H) (fun _ _ _ H => H)).
  assert (Hset : forall V,
             hoare Rest (call_set instrument V) (fun _ => Rest) (fun _ => Rest)).
  { intros V w0 r0 w1 (H1 & H2 & H3 & H4). unfold call_set. cbn. intros [= <- <-].
    split; [exact H1|]. cbn [trace]. split; [|split].
    - now apply no_failure_snoc.
    - apply Forall_app; split; [exact H3|]. now repeat constructor.
    - rewrite samples_app. cbn. now rewrite app_nil_r. }
  assert (Hread : forall V : Q,
             hoare Rest (call_read instrument)
               (fun i w => Rest w /\ i = (inject_Z 10 * p)%Q) (fun _ => Rest)).
  { intros V w0 r0 w1 (H1 & H2 & H3 & H4). unfold call_read, instrument.
    cbn [read_quantity source_instrument readCurrent].
    assert (Hc : current_of_response py_float pow10 [IntField 10; IntField (-2)]
                 = Ok (inject_Z 10 * p)%Q).
    { unfold current_of_response. cbn [length Nat.eqb field_to_float rbind].
      unfold power_of_ten. rewrite Hp. reflexivity. }
    rewrite Hc. intros [= <- <-]. split; [|reflexivity].
    split; [exact H1|]. cbn [trace]. split; [|split].
    - now apply no_failure_snoc.
    - apply Forall_app; split; [exact H3|]. now repeat constructor.
    - rewrite samples_app. cbn. now rewrite app_nil_r. }
  assert (Hrow : forall V currents I_mean w,
             Rest w -> Forall (fun i => i = (inject_Z 10 * p)%Q) currents ->
             py_div (py_sum currents) (inject_Z (Z.of_nat (length currents))) = Ok I_mean ->
             Rest (with_event w (WriteRow (DataRow V I_mean)))).
  { intros V currents I_mean w0 (H1 & H2 & H3 & H4) Hc Hdiv.
    split; [exact H1|]. cbn [with_event trace]. split; [|split].
    - now apply no_failure_snoc.
    - apply Forall_app; split; [exact H3|]. now repeat constructor.
    - rewrite samples_app. apply Forall_app; split; [exact H4|].
      constructor; [|constructor]. cbn [snd].
      exists currents. split; [|split; [exact Hc|]].
      + intros ->. discriminate Hdiv.
      + unfold py_div in Hdiv.
        destruct (Qeq_bool (inject_Z (Z.of_nat (length currents))) 0); [discriminate|].
        congruence. }
  specialize (Hh Hset Hread Hrow).
  specialize (Hh selection process_parsed (start_world dev) r w).
  assert (Hstart : Rest (start_world dev)).
  { split; [reflexivity|]. repeat split; constructor. }
  specialize (Hh Hstart Hrun).
  assert (HR : Rest w) by (destruct r; exact Hh).
  destruct HR as (H1 & H2 & H3 & H4). repeat split; try assumption.
  intros outcome Hin.
  exact (proj1 (List.Forall_forall _ _) H3 _ Hin).
Qed.

End Modes.

Lemma device_mode_never_measures_witness :
  let out := device_task false (sweep_widgets "C" "1" "0.25" "2") (one_sweep "C") in
  fst out = Raise (AttributeError "'NoneType' object has no attribute 'write'") /\
  setpoints (trace (snd out)) = [0%Q] /\
  device (snd out) = "1.5,-3" /\
  samples (trace (snd out)) = [] /\
  (forall outcome, ~ In (Reading outcome) (trace (snd out))) /\
  (forall V outcome,
      In (Setpoint V outcome) (trace (snd out)) ->
      outcome = Raise (setVoltage_failure false)) /\
  (length (setpoints (trace (snd out))) <= 1)%nat /\
  (setpoints (trace (snd out)) <> [] -> fst out = Raise (setVoltage_failure false)).
Proof.
  intros out. split; [reflexivity|]. split; [reflexivity|].
  apply (device_mode_never_measures int_of_decimal float_of_decimal str_of_int str_of_ratio
           yes pow10_whole echo_write echo_read (fun _ => false) 100
           (sweep_widgets "C" "1" "0.25" "2") someone (one_sweep "C") "1.5,-3"
           (fst out) (snd out)).
  apply surjective_pairing.
Defined.

(** The same run on a page that holds a device ends on the name [V]. *)
Example connected_device_run_sample :
  let out := device_task true (sweep_widgets "C" "1" "0.25" "2") (one_sweep "C") in
  fst out = Raise (NameError "V") /\
  setpoints (trace (snd out)) = [0%Q] /\
  samples (trace (snd out)) = [] /\
  device (snd out) = "1.5,-3".
Proof. repeat split. Qed.

Lemma debugging_run_is_simulated_witness :
  let out := bench_task yes (sweep_widgets "C" "1" "0.25" "2") (one_sweep "C") in
  length (samples (trace (snd out))) = 5%nat /\
  device (snd out) = tt /\
  no_failure (trace (snd out)) /\
  (forall outcome,
      In (Reading outcome) (trace (snd out)) -> outcome = Ok (inject_Z 10 * (1 # 100))%Q) /\
  Forall (fun s => simulated_mean (1 # 100) (snd s)) (samples (trace (snd out))).
Proof.
  intros out. split; [reflexivity|].
  apply (debugging_run_is_simulated int_of_decimal float_of_decimal str_of_int str_of_ratio
           yes pow10_whole (fun _ dev => (Ok tt, dev)) (fun dev => (Ok "", dev))
           (fun _ => false) 100
           (sweep_widgets "C" "1" "0.25" "2") someone (one_sweep "C") tt
           (fst out) (snd out) (1 # 100)).
  - reflexivity.
  - apply surjective_pairing.
Defined.

(** ** One sweep value *)



Lemma sleep_trace {Dev} (seconds : Q) (w w' : World Dev) (u : unit) :
  sleep seconds w = (Ok u, w') -> w' = with_event w (Sleep seconds).
Proof.
  unfold sleep. destruct (Qlt_bool seconds 0); [discriminate|]. now intros [= _ <-].
Qed.

Lemma sleep_device {Dev} (seconds : Q) (w w' : World Dev) (r : result unit) :
  sleep seconds w = (r, w') -> device w' = device w.
Proof.
  unfold sleep. destruct (Qlt_bool seconds 0); now intros [= _ <-].
Qed.

Lemma call_set_trace {Dev} (instrument : Instrument Dev) (V : Q) (w w' : World Dev) (u : unit) :
  call_set instrument V w = (Ok u, w') -> trace w' = trace w ++ [Setpoint V (Ok tt)].
Proof.
  unfold call_set. destruct (set_quantity instrument V (device w)) as [[[]|e|] dev];
    try discriminate. now intros [= _ <-].
Qed.

Lemma call_read_trace {Dev} (instrument : Instrument Dev) (w w' : World Dev) (i : Q) :
  call_read instrument w = (Ok i, w') -> trace w' = trace w ++ [Reading (Ok i)].
Proof.
  unfold call_read. destruct (read_quantity instrument (device w)) as [[x|e|] dev];
    try discriminate. now intros [= <- <-].
Qed.

Section Points.
Context {Dev : Type}.
Variable py_int : string -> option Z.
Variable py_float : string -> option Q.
Variable str_int : Z -> string.
Variable str_float : Q -> string.
Variable confirm : string -> bool.
Variable instrument : Instrument Dev.
Variable fuel : nat.
Variable input_widgets : gmap string string.

Lemma read_currents_trace (delay_val : Q) (r_val : Z) (n : nat) :
  forall (currents : list Q) (w w' : World Dev) (l : list Q),
    read_currents instrument n delay_val r_val currents w = (Ok l, w') ->
    exists new,
      l = currents ++ new /\ length new = n /\
      trace w' = trace w ++ reading_events delay_val r_val new.
Proof.
  induction n as [|n IH]; intros currents w w' l; cbn [read_currents].
  - unfold ret. intros [= <- <-]. exists []. now rewrite !app_nil_r.
  - intros H. unbind H. apply lift_ok in H0 as [Hwait ->]. apply py_div_ok in Hwait.
    unbind H. apply sleep_trace in H0. unbind H. apply call_read_trace in H1.
    apply IH in H as (new & -> & Hlen & Htr).
    exists (a1 :: new). split; [now rewrite <- app_assoc|]. split; [cbn; lia|].
    rewrite Htr, H1, H0, Hwait. cbn [with_event trace reading_events flat_map app].
    now rewrite <- !app_assoc.
Qed.


(** A count of readings that is 0 or negative ends the sweep value with
    [ZeroDivisionError]: the setpoint is commanded and half the delay is
    waited, no reading is taken, and the mean of no reading divides by 0
    before any row is written. *)
Theorem no_reading_divides_by_zero (delay_val : Q) (r_val total_steps : Z) (V : Q)
    (step_counter : Z) (w : World Dev) (dev' : Dev) :
  r_val <= 0 ->
  (0 <= delay_val)%Q ->
  set_quantity instrument V (device w) = (Ok tt, dev') ->
  sweep_point instrument delay_val r_val total_steps V step_counter w
    = (Raise ZeroDivisionError,
       {| device := dev';
          trace := (trace w ++ [Setpoint V (Ok tt)]) ++ [Sleep (delay_val / 2)] |}).
Proof.
  intros Hr Hd Hset. unfold sweep_point, bind, call_set. rewrite Hset.
  unfold sleep.
  assert (Hs : Qlt_bool (delay_val / 2) 0 = false).
  { apply Qlt_bool_false. apply Qle_shift_div_l; lra. }
  rewrite Hs. unfold emit. cbn [device trace].
  replace (Z.to_nat r_val) with 0%nat by lia. reflexivity.
Qed.

(** The repetitions and the delay of a loop are those of its last MEAN and
    of its last DELAY, each read from its entry (1 and 1.0 without one);
    the commands before them, and every OUTPUT, change neither.  Without a
    MEAN or without a DELAY the values the scan started from are kept (1
    and 0 in a loop), and the scan leaves the device as it was. *)
Theorem last_mean_and_last_delay_win (cmds : list Command) :
  forall (delay_val : Q) (r_val : Z) (w w' : World Dev) (d : Q) (r : Z),
    scan_commands py_int py_float input_widgets cmds delay_val r_val w = (Ok (d, r), w') ->
    (forall pre param post,
        cmds = pre ++ Mean param :: post ->
        forallb (fun c => negb (is_mean c)) post = true ->
        entry_or input_widgets param (to_int py_int) 1 = Ok r) /\
    (forall pre param post,
        cmds = pre ++ Delay param :: post ->
        forallb (fun c => negb (is_delay c)) post = true ->
        entry_or input_widgets param (to_float py_float) 1%Q = Ok d) /\
    (forallb (fun c => negb (is_mean c)) cmds = true -> r = r_val) /\
    (forallb (fun c => negb (is_delay c)) cmds = true -> d = delay_val) /\
    device w' = device w.
Proof.
  induction cmds as [|[p|p|outputs] cmds IH]; intros delay_val r_val w w' d r;
    cbn [scan_commands].
  - unfold ret. intros [= <- <- <-]. repeat split; try reflexivity.
    + intros [|c pre] param post Hc; discriminate Hc.
    + intros [|c pre] param post Hc; discriminate Hc.
  - intros H. unbind H. apply lift_ok in H0 as [Hentry ->].
    apply IH in H as (IH1 & IH2 & IH3 & IH4 & IH5). repeat split.
    + intros [|c pre] param post Hc Hpost; injection Hc as Hc1 Hc2.
      * subst. rewrite (IH3 Hpost). exact Hentry.
      * eapply IH1; eassumption.
    + intros [|c pre] param post Hc Hpost; [discriminate Hc|]. injection Hc as Hc1 Hc2.
      eapply IH2; eassumption.
    + discriminate.
    + exact IH4.
    + exact IH5.
  - intros H. unbind H. apply lift_ok in H0 as [Hentry ->].
    unbind H. apply sleep_device in H0.
    apply IH in H as (IH1 & IH2 & IH3 & IH4 & IH5). repeat split.
    + intros [|c pre] param post Hc Hpost; [discriminate Hc|]. injection Hc as Hc1 Hc2.
      eapply IH1; eassumption.
    + intros [|c pre] param post Hc Hpost; injection Hc as Hc1 Hc2.
      * subst. rewrite (IH4 Hpost). exact Hentry.
      * eapply IH2; eassumption.
    + exact IH3.
    + discriminate.
    + congruence.
  - intros H. apply IH in H as (IH1 & IH2 & IH3 & IH4 & IH5). repeat split.
    + intros [|c pre] param post Hc Hpost; [discriminate Hc|]. injection Hc as Hc1 Hc2.
      eapply IH1; eassumption.
    + intros [|c pre] param post Hc Hpost; [discriminate Hc|]. injection Hc as Hc1 Hc2.
      eapply IH2; eassumption.
    + exact IH3.
    + exact IH4.
    + exact IH5.
Qed.

Lemma final_description_total (prog : Program) :
  exists text,
    final_description py_int py_float str_int str_float input_widgets prog = Ok text.
Proof.
  unfold final_description.
  match goal with
  | |- context [describe_blocks _ _ _ _ _ ?c ?a] =>
      destruct (describe_blocks_total py_int py_float str_int str_float input_widgets c a)
        as [l ->]
  end.
  cbn [rbind]. eauto.
Qed.

(** A run whose count of steps raises (an entry of a repeat count or of
    a loop bound is not a number, or a step is 0) ends with that exception
    right after the header row: the plan was shown and confirmed and the
    CSV file holds its header, but the instrument was not called and the
    device is as it was. *)
Theorem uncountable_run_stops_at_header (selection : Selection) (prog : Program) (dev : Dev)
    (e : exn) :
  selection_filled selection = true ->
  count_blocks py_int py_float input_widgets prog 0 = Raise e ->
  exists text,
    final_description py_int py_float str_int str_float input_widgets prog = Ok text /\
    task py_int py_float str_int str_float confirm instrument fuel input_widgets
      selection prog (start_world dev)
    = (Raise e,
       {| device := dev;
          trace := [PrintPlan text;
                    AskYesNo "Process Description" text (confirm text);
                    WriteRow HeaderRow] |}).
Proof.
  intros Hsel Hcount. destruct (final_description_total prog) as [text Htext].
  exists text. split; [exact Htext|].
  unfold selection_filled in Hsel. apply negb_true_iff in Hsel.
  unfold task. rewrite Hsel.
  unfold describe_process, run, bind, lift, emit, ret. rewrite Htext.
  cbn [device trace start_world app]. rewrite Hcount. reflexivity.
Qed.

(** [run_method] never starts the task: for a name that is not in the
    method list it shows the warning and returns, and for every method it
    finds it raises [NameError] on [continue_method] right after parsing,
    leaving no trace at all (no plan, no dialog, no file, no instrument
    call), whatever the method text, the entries and the selection are. *)
Theorem run_method_never_starts_task (methods : list (string * string))
    (selected_name : string) (selection : Selection) (w : World Dev) :
  run_method py_int py_float str_int str_float confirm instrument fuel input_widgets
    methods selected_name selection w
  = match find (fun m => String.eqb (fst m) selected_name) methods with
    | None => (Ok tt, with_event w (ShowWarning "Warning" "Select a valid method first."))
    | Some _ => (Raise (NameError "continue_method"), w)
    end.
Proof.
  unfold run_method.
  destruct (find (fun m => String.eqb (fst m) selected_name) methods) as [method|];
    [|reflexivity].
  destruct (parse_process_total (snd method)) as [prog Hprog].
  unfold bind, lift. rewrite Hprog. reflexivity.
Qed.

End Points.


Lemma no_reading_divides_by_zero_witness :
  sweep_point countdown_instrument 1 0 6 (1 # 2) 0 (start_world 8%nat)
  = (Raise ZeroDivisionError,
     {| device := 7%nat;
        trace := ([] ++ [Setpoint (1 # 2) (Ok tt)]) ++ [Sleep (1 / 2)] |}).
Proof.
  apply (no_reading_divides_by_zero countdown_instrument 1 0 6 (1 # 2) 0
           (start_world 8%nat) 7%nat); [lia | vm_compute; discriminate | reflexivity].
Defined.

Lemma last_mean_and_last_delay_win_witness :
  entry_or (sweep_widgets "C" "1" "0.25" "3") "R" (to_int int_of_decimal) 1 = Ok 3 /\
  entry_or (sweep_widgets "C" "1" "0.25" "3") "D" (to_float float_of_decimal) 1%Q
    = Ok (inject_Z 0) /\
  device (snd (scan_commands int_of_decimal float_of_decimal
                 (sweep_widgets "C" "1" "0.25" "3")
                 [Mean "Z"; Delay "D"; Mean "R"; Outputs []] 0%Q 1 (start_world tt))) = tt.
Proof.
  destruct (last_mean_and_last_delay_win int_of_decimal float_of_decimal
              (sweep_widgets "C" "1" "0.25" "3")
              [Mean "Z"; Delay "D"; Mean "R"; Outputs []] 0%Q 1 (start_world tt)
              _ (inject_Z 0) 3 eq_refl) as (H1 & H2 & _ & _ & H5).
  split; [|split].
  - apply (H1 [Mean "Z"; Delay "D"] "R" [Outputs []]); reflexivity.
  - apply (H2 [Mean "Z"] "D" [Mean "R"; Outputs []]); reflexivity.
  - exact H5.
Defined.

Lemma uncountable_run_stops_at_header_witness :
  exists text,
    final_description int_of_decimal float_of_decimal str_of_int str_of_ratio
      (sweep_widgets "C" "2" "0" "1") (one_sweep "C") = Ok text /\
    countdown_task 8 (sweep_widgets "C" "2" "0" "1") (one_sweep "C")
    = (Raise ZeroDivisionError,
       {| device := 8%nat;
          trace := [PrintPlan text;
                    AskYesNo "Process Description" text (yes text);
                    WriteRow HeaderRow] |}).
Proof.
  apply (uncountable_run_stops_at_header int_of_decimal float_of_decimal str_of_int
           str_of_ratio yes countdown_instrument 100 (sweep_widgets "C" "2" "0" "1")
           someone (one_sweep "C") 8%nat ZeroDivisionError); reflexivity.
Defined.

(** ** Method text read back *)

Ltac in_list := repeat first [left; reflexivity | right].

Lemma plain_neq (c x : ascii) :
  is_plain c = true -> In x special_characters -> (c =? x)%char = false.
Proof.
  unfold is_plain. intros H Hin. apply negb_true_iff in H.
  destruct (c =? x)%char eqn:E; [|reflexivity].
  assert (existsb (Ascii.eqb c) special_characters = true); [|congruence].
  apply existsb_exists. eauto.
Qed.

Lemma word_is_plain (c : ascii) : is_word c = true -> is_plain c = true.
Proof. destruct c as [[] [] [] [] [] [] [] []]; vm_compute; congruence. Qed.

Lemma plain_is_dot (c : ascii) : is_plain c = true -> is_dot c = true.
Proof.
  intros H. unfold is_dot. rewrite (plain_neq c LF H); [reflexivity | unfold special_characters; in_list].
Qed.

Lemma command_char_facts (c : ascii) :
  command_char c = true ->
  is_dot c = true /\ (c =? "}")%char = false /\ (c =? ":")%char = false /\
  is_layout c = false.
Proof. destruct c as [[] [] [] [] [] [] [] []]; vm_compute; intuition congruence. Qed.

Lemma loop_char_facts (c : ascii) :
  loop_char c = true ->
  is_dot c = true /\ (c =? ":")%char = false /\ is_layout c = false.
Proof. destruct c as [[] [] [] [] [] [] [] []]; vm_compute; intuition congruence. Qed.

Lemma program_char_facts (c : ascii) :
  program_char c = true -> is_dot c = true /\ is_layout c = false.
Proof. destruct c as [[] [] [] [] [] [] [] []]; vm_compute; intuition congruence. Qed.

Lemma string_forall_impl (p q : ascii -> bool) (s : string) :
  (forall c, p c = true -> q c = true) ->
  string_forall p s = true -> string_forall q s = true.
Proof.
  intros H. induction s as [|c s IH]; cbn [string_forall]; [reflexivity|].
  intros Hs. apply andb_prop in Hs as [Hc Hs]. now rewrite (H c Hc), (IH Hs).
Qed.

Lemma string_forall_join (p : ascii -> bool) (sep : string) (l : list string) :
  string_forall p sep = true ->
  Forall (fun s => string_forall p s = true) l ->
  string_forall p (join sep l) = true.
Proof.
  intros Hsep H. induction H as [|s l Hs Hl IH]; [reflexivity|].
  destruct l as [|s' l]; [exact Hs|].
  change (join sep (s :: s' :: l)) with (s +:+ sep +:+ join sep (s' :: l)).
  rewrite !string_forall_app, Hs, Hsep, IH. reflexivity.
Qed.

Lemma symbol_plain (s : string) :
  is_symbol s = true -> s <> "" /\ string_forall is_plain s = true.
Proof.
  unfold is_symbol. intros H. apply andb_prop in H as [Hne Hs]. split; [|exact Hs].
  intros ->. discriminate Hne.
Qed.

(** A text without parentheses stays at its depth; it holds no comma at
    depth 0 when it is read from another depth, or holds no comma. *)
Lemma flat_text (d : Z) (s : string) :
  string_forall no_paren s = true ->
  depth_from d s = d /\
  (d <> 0 -> no_top_comma d s = true) /\
  (string_forall Re.not_comma s = true -> no_top_comma d s = true).
Proof.
  induction s as [|c s IH]; cbn [string_forall depth_from no_top_comma]; [auto|].
  intros H. apply andb_prop in H as [Hc Hs]. unfold no_paren in Hc.
  apply andb_prop in Hc as [H1 H2]. apply negb_true_iff in H1, H2.
  unfold depth_step. rewrite H1, H2. destruct (IH Hs) as (IH1 & IH2 & IH3).
  split; [exact IH1|]. split.
  - intros Hd. pose proof Hd as Hz. apply Z.eqb_neq in Hz. rewrite Hz, andb_false_r.
    cbn [negb andb]. now apply IH2.
  - intros Hn. apply andb_prop in Hn as [Hn1 Hn2]. unfold Re.not_comma in Hn1.
    apply negb_true_iff in Hn1. rewrite Hn1. cbn [negb andb]. now apply IH3.
Qed.

Lemma plain_no_paren (s : string) :
  string_forall is_plain s = true -> string_forall no_paren s = true.
Proof.
  apply string_forall_impl. intros c H. unfold no_paren.
  rewrite (plain_neq c "(" H), (plain_neq c ")" H);
    [reflexivity | unfold special_characters; in_list ..].
Qed.

Lemma plain_not_comma (s : string) :
  string_forall is_plain s = true -> string_forall Re.not_comma s = true.
Proof.
  apply string_forall_impl. intros c H. unfold Re.not_comma.
  rewrite (plain_neq c "," H); [reflexivity | unfold special_characters; in_list].
Qed.

Lemma plain_not_rparen (s : string) :
  string_forall is_plain s = true -> string_forall Re.not_rparen s = true.
Proof.
  apply string_forall_impl. intros c H. unfold Re.not_rparen.
  rewrite (plain_neq c ")" H); [reflexivity | unfold special_characters; in_list].
Qed.

Lemma plain_command_char (s : string) :
  string_forall is_plain s = true -> string_forall command_char s = true.
Proof.
  apply string_forall_impl. intros c H. unfold command_char. now rewrite H.
Qed.

(** *** The splitter on texts joined by commas *)

Lemma split_loop_app (seg rest : string) :
  forall (res : list string) (current : string) (parens : Z),
    no_top_comma parens seg = true ->
    split_loop (seg +:+ rest) res current parens
    = split_loop rest res (current +:+ seg) (depth_from parens seg).
Proof.
  induction seg as [|c seg IH]; intros res current parens H.
  - cbn [append depth_from]. now rewrite append_nil_r.
  - cbn [no_top_comma] in H. apply andb_prop in H as [Hc Hseg].
    apply negb_true_iff in Hc. unfold depth_step in Hc, Hseg.
    change (String c seg +:+ rest) with (String c (seg +:+ rest)).
    cbn [split_loop depth_from]. unfold depth_step. rewrite Hc.
    rewrite (IH _ _ _ Hseg), append_assoc. reflexivity.
Qed.

Lemma split_loop_join (init : list string) (lst : string) :
  Forall (fun seg => no_top_comma 0 seg = true /\ depth_from 0 seg = 0) (init ++ [lst]) ->
  forall res, split_loop (join "," (init ++ [lst])) res "" 0 = (res ++ init, lst).
Proof.
  induction init as [|seg init IH]; intros H res.
  - cbn [app join] in *. inversion H as [|? ? [H1 H2] _]; subst.
    rewrite <- (append_nil_r lst) at 1. rewrite (split_loop_app lst "" res "" 0 H1).
    cbn [split_loop append]. now rewrite app_nil_r.
  - inversion H as [|? ? [H1 H2] Hrest]; subst.
    change ((seg :: init) ++ [lst]) with (seg :: (init ++ [lst])).
    rewrite join_cons.
    assert (Hafter : after_first (init ++ [lst]) = String "," (join "," (init ++ [lst]))).
    { destruct init; reflexivity. }
    rewrite Hafter, (split_loop_app seg _ res "" 0 H1), H2.
    change (split_loop (String "," (join "," (init ++ [lst]))) res ("" +:+ seg) 0)
      with (split_loop (join "," (init ++ [lst])) (res ++ [seg]) "" 0).
    rewrite (IH Hrest), <- app_assoc. reflexivity.
Qed.

(** Texts that hold no comma at depth 0, end at depth 0 and are not empty
    are what the splitter gives back from their join. *)
Lemma split_commands_join (segs : list string) :
  Forall (fun seg => no_top_comma 0 seg = true /\ depth_from 0 seg = 0) segs ->
  Forall (fun seg => seg <> "") segs ->
  split_commands (join "," segs) = segs.
Proof.
  intros H Hne. destruct segs as [|seg0 rest]; [reflexivity|].
  destruct (exists_last (l := seg0 :: rest)) as (init & lst & E); [discriminate|].
  rewrite E in *. unfold split_commands. rewrite (split_loop_join init lst H []).
  apply Forall_app in Hne as [_ Hl]. inversion Hl; subst.
  destruct lst; [congruence | reflexivity].
Qed.

(** *** The patterns on the text of a command and of a loop *)

Lemma star_dot_last_paren (args : string) :
  string_forall is_dot args = true ->
  Re.star is_dot (Re.lit ")" Re.done) (args +:+ ")") = Some (args, "").
Proof.
  induction args as [|c args IH]; cbn [string_forall]; [reflexivity|].
  intros H. apply andb_prop in H as [Hc Hargs].
  change (String c args +:+ ")") with (String c (args +:+ ")")).
  cbn [Re.star]. rewrite Hc, (IH Hargs). reflexivity.
Qed.

Lemma command_pattern_text (name args : string) :
  name <> "" ->
  string_forall is_word name = true ->
  string_forall is_dot args = true ->
  Re.command_pattern (name +:+ "(" +:+ args +:+ ")") = Some (name, args).
Proof.
  intros Hne Hname Hargs. unfold Re.command_pattern.
  rewrite (plus_takes_all is_word _ name ("(" +:+ args +:+ ")") (args, "")); auto.
  - intros d r' E. injection E as <- _. reflexivity.
  - rewrite lit_app. now apply star_dot_last_paren.
Qed.

Lemma contains_app (c : ascii) (a b : string) :
  contains c (a +:+ b) = contains c a || contains c b.
Proof.
  induction a as [|d a IH]; cbn [append contains]; [reflexivity|].
  now rewrite IH, orb_assoc.
Qed.

Lemma plain_no_equals (s : string) :
  string_forall is_plain s = true -> contains "=" s = false.
Proof.
  induction s as [|c s IH]; cbn [string_forall contains]; [reflexivity|].
  intros H. apply andb_prop in H as [Hc Hs].
  rewrite (plain_neq c "=" Hc), (IH Hs); [reflexivity | unfold special_characters; in_list].
Qed.

Lemma split_once_pair (key val : string) :
  contains "=" key = false -> split_once "=" (key +:+ "=" +:+ val) = [key; val].
Proof.
  induction key as [|c key IH]; cbn [contains]; [reflexivity|].
  intros H. apply orb_false_elim in H as [Hc Hkey].
  change (String c key +:+ "=" +:+ val) with (String c (key +:+ "=" +:+ val)).
  cbn [split_once]. rewrite Hc, (IH Hkey). reflexivity.
Qed.

Lemma dict_set_fresh {V} (d : dict V) (key : string) (v : V) :
  ~ In key (map fst d) -> dict_set d key v = d ++ [(key, v)].
Proof.
  induction d as [|[k w] d IH]; cbn [dict_set map fst In app]; [reflexivity|].
  intros H. destruct (String.eqb k key) eqn:E.
  - apply String.eqb_eq in E. tauto.
  - rewrite IH by tauto. reflexivity.
Qed.

Lemma distinct_NoDup (keys : list string) : distinct keys = true -> List.NoDup keys.
Proof.
  induction keys as [|key rest IH]; cbn [distinct]; [constructor|].
  intros H. apply andb_prop in H as [Hk Hrest]. apply negb_true_iff in Hk.
  constructor; [|now apply IH].
  intros Hin. assert (existsb (String.eqb key) rest = true); [|congruence].
  apply existsb_exists. exists key. split; [exact Hin | apply String.eqb_refl].
Qed.

Lemma parse_pairs_text (outputs : list (string * string)) :
  forall acc,
    forallb (fun kv => is_symbol (fst kv) && is_symbol (snd kv)) outputs = true ->
    List.NoDup (map fst (acc ++ outputs)) ->
    parse_pairs (map pair_text outputs) acc = Ok (acc ++ outputs).
Proof.
  induction outputs as [|[key val] outputs IH]; intros acc Hok Hnd; cbn [map parse_pairs].
  - now rewrite app_nil_r.
  - cbn [forallb fst snd] in Hok. apply andb_prop in Hok as [Hkv Hok].
    apply andb_prop in Hkv as [Hk Hv].
    apply symbol_plain in Hk as [_ Hk]. apply plain_no_equals in Hk.
    unfold pair_text. cbn [fst snd].
    rewrite contains_app, (contains_app _ "=" val). cbn [contains orb].
    rewrite Ascii.eqb_refl, orb_true_r. cbn [orb].
    rewrite (split_once_pair key val Hk).
    rewrite map_app in Hnd. cbn [map fst] in Hnd.
    rewrite dict_set_fresh.
    + rewrite IH; [now rewrite <- app_assoc | exact Hok |].
      rewrite <- app_assoc, map_app. exact Hnd.
    + apply List.NoDup_remove_2 in Hnd. intros Hin. apply Hnd. apply in_or_app. now left.
Qed.

Lemma pair_text_flat (kv : string * string) :
  is_symbol (fst kv) && is_symbol (snd kv) = true ->
  pair_text kv <> "" /\
  string_forall no_paren (pair_text kv) = true /\
  string_forall Re.not_comma (pair_text kv) = true /\
  string_forall command_char (pair_text kv) = true.
Proof.
  intros H. apply andb_prop in H as [Hk Hv].
  apply symbol_plain in Hk as [Hne Hk]. apply symbol_plain in Hv as [_ Hv].
  unfold pair_text. split.
  - destruct (fst kv); [congruence | discriminate].
  - rewrite !string_forall_app.
    rewrite (plain_no_paren _ Hk), (plain_no_paren _ Hv), (plain_not_comma _ Hk),
      (plain_not_comma _ Hv), (plain_command_char _ Hk), (plain_command_char _ Hv).
    repeat split.
Qed.

Lemma pairs_text_flat (outputs : list (string * string)) :
  forallb (fun kv => is_symbol (fst kv) && is_symbol (snd kv)) outputs = true ->
  Forall (fun s => s <> "" /\ string_forall no_paren s = true /\
                   string_forall Re.not_comma s = true /\
                   string_forall command_char s = true) (map pair_text outputs).
Proof.
  induction outputs as [|kv outputs IH]; cbn [forallb map]; [constructor|].
  intros H. apply andb_prop in H as [Hkv H].
  constructor; [now apply pair_text_flat | now apply IH].
Qed.

Lemma split_commands_pairs (outputs : list (string * string)) :
  forallb (fun kv => is_symbol (fst kv) && is_symbol (snd kv)) outputs = true ->
  split_commands (join "," (map pair_text outputs)) = map pair_text outputs.
Proof.
  intros H. apply pairs_text_flat in H. apply split_commands_join.
  - eapply List.Forall_impl; [|exact H]. intros s (_ & Hp & Hc & _).
    destruct (flat_text 0 s Hp) as (Hd & _ & Hn). auto.
  - eapply List.Forall_impl; [|exact H]. now intros s (Hne & _).
Qed.

(** The text between the parentheses of OUTPUT. *)
Lemma pairs_text_inside (outputs : list (string * string)) :
  forallb (fun kv => is_symbol (fst kv) && is_symbol (snd kv)) outputs = true ->
  string_forall no_paren (join "," (map pair_text outputs)) = true /\
  string_forall command_char (join "," (map pair_text outputs)) = true.
Proof.
  intros H. apply pairs_text_flat in H. split; apply string_forall_join; try reflexivity.
  - eapply List.Forall_impl; [|exact H]. now intros s (_ & Hp & _).
  - eapply List.Forall_impl; [|exact H]. now intros s (_ & _ & _ & Hc).
Qed.

Lemma command_text_inside (cmd : Command) :
  command_ok cmd = true ->
  exists name inner,
    command_text cmd = name +:+ "(" +:+ inner +:+ ")" /\
    In name ["MEAN"; "DELAY"; "OUTPUT"] /\
    string_forall no_paren inner = true /\
    string_forall command_char inner = true.
Proof.
  destruct cmd as [param|param|outputs]; cbn [command_ok command_text]; intros H.
  - apply symbol_plain in H as [_ H]. exists "MEAN", param.
    split; [reflexivity|]. split; [in_list|].
    split; [now apply plain_no_paren | now apply plain_command_char].
  - apply symbol_plain in H as [_ H]. exists "DELAY", param.
    split; [reflexivity|]. split; [in_list|].
    split; [now apply plain_no_paren | now apply plain_command_char].
  - apply andb_prop in H as [H _]. exists "OUTPUT", (join "," (map pair_text outputs)).
    split; [reflexivity|]. split; [in_list|]. now apply pairs_text_inside.
Qed.

Lemma command_text_flat (cmd : Command) :
  command_ok cmd = true ->
  command_text cmd <> "" /\
  no_top_comma 0 (command_text cmd) = true /\
  depth_from 0 (command_text cmd) = 0 /\
  string_forall command_char (command_text cmd) = true.
Proof.
  intros H. destruct (command_text_inside cmd H) as (name & inner & -> & Hname & Hp & Hc).
  destruct (flat_text 1 inner Hp) as (Hd & Hn & _).
  assert (Hn1 : no_top_comma 1 inner = true) by (apply Hn; lia).
  cbn [In] in Hname. destruct Hname as [<- | [<- | [<- | []]]].
  all: split; [discriminate|].
  all: rewrite !no_top_comma_app, !depth_from_app, !string_forall_app, Hc.
  all: cbn [depth_from no_top_comma depth_step Ascii.eqb Bool.eqb andb negb Z.eqb Z.add
            Pos.add append].
  all: change (0 + 1) with 1; rewrite Hd, Hn1.
  all: repeat split.
Qed.

Lemma parse_command_text (cmd : Command) :
  command_ok cmd = true -> parse_command (command_text cmd) = Ok [cmd].
Proof.
  intros H. unfold parse_command.
  destruct cmd as [param|param|outputs]; cbn [command_ok command_text] in *.
  - apply symbol_plain in H as [_ H].
    change ("MEAN(" +:+ param +:+ ")") with ("MEAN" +:+ "(" +:+ param +:+ ")").
    rewrite (command_pattern_text "MEAN" param);
      [reflexivity | discriminate | reflexivity |].
    eapply string_forall_impl; [apply plain_is_dot | exact H].
  - apply symbol_plain in H as [_ H].
    change ("DELAY(" +:+ param +:+ ")") with ("DELAY" +:+ "(" +:+ param +:+ ")").
    rewrite (command_pattern_text "DELAY" param);
      [reflexivity | discriminate | reflexivity |].
    eapply string_forall_impl; [apply plain_is_dot | exact H].
  - apply andb_prop in H as [H Hd].
    change ("OUTPUT(" +:+ join "," (map pair_text outputs) +:+ ")")
      with ("OUTPUT" +:+ "(" +:+ join "," (map pair_text outputs) +:+ ")").
    rewrite (command_pattern_text "OUTPUT" (join "," (map pair_text outputs)));
      [| discriminate | reflexivity |].
    + change (upper "OUTPUT") with "OUTPUT". cbn [String.eqb Ascii.eqb Bool.eqb].
      rewrite (split_commands_pairs _ H), (parse_pairs_text outputs [] H); [reflexivity|].
      now apply distinct_NoDup.
    + destruct (pairs_text_inside _ H) as [_ Hc].
      eapply string_forall_impl; [|exact Hc]. intros c Hcc. now apply command_char_facts.
Qed.

Lemma parse_commands_text (cmds : list Command) :
  forall acc,
    forallb command_ok cmds = true ->
    parse_commands (map command_text cmds) acc = Ok (acc ++ cmds).
Proof.
  induction cmds as [|cmd cmds IH]; intros acc H; cbn [map parse_commands].
  - now rewrite app_nil_r.
  - cbn [forallb] in H. apply andb_prop in H as [Hc H].
    rewrite (parse_command_text cmd Hc). cbn [rbind].
    rewrite (IH _ H), <- app_assoc. reflexivity.
Qed.

Lemma commands_text_flat (cmds : list Command) :
  forallb command_ok cmds = true ->
  Forall (fun s => s <> "" /\ no_top_comma 0 s = true /\ depth_from 0 s = 0 /\
                   string_forall command_char s = true) (map command_text cmds).
Proof.
  induction cmds as [|cmd cmds IH]; cbn [forallb map]; [constructor|].
  intros H. apply andb_prop in H as [Hc H].
  constructor; [now apply command_text_flat | now apply IH].
Qed.

Lemma split_commands_text (cmds : list Command) :
  forallb command_ok cmds = true ->
  split_commands (commands_text cmds) = map command_text cmds.
Proof.
  intros H. apply commands_text_flat in H. apply split_commands_join.
  - eapply List.Forall_impl; [|exact H]. now intros s (_ & Hn & Hd & _).
  - eapply List.Forall_impl; [|exact H]. now intros s (Hne & _).
Qed.

Lemma commands_text_chars (cmds : list Command) :
  forallb command_ok cmds = true ->
  string_forall command_char (commands_text cmds) = true.
Proof.
  intros H. apply commands_text_flat in H. apply string_forall_join; [reflexivity|].
  eapply List.Forall_impl; [|exact H]. now intros s (_ & _ & _ & Hc).
Qed.

Lemma lazy_stops_at_brace (b tail : string) :
  string_forall (fun c => is_dot c && negb (c =? "}")%char) b = true ->
  Re.lazy_star is_dot (Re.lit "}" Re.done) (b +:+ "}" +:+ tail) = Some (b, tail).
Proof.
  induction b as [|c b IH]; cbn [string_forall]; [reflexivity|].
  intros H. apply andb_prop in H as [Hc Hb]. apply andb_prop in Hc as [Hdot Hbrace].
  apply negb_true_iff in Hbrace. rewrite Ascii.eqb_sym in Hbrace.
  change (String c b +:+ "}" +:+ tail) with (String c (b +:+ "}" +:+ tail)).
  cbn [Re.lazy_star].
  assert (Hk : Re.lit "}" Re.done (String c (b +:+ "}" +:+ tail)) = None)
    by (now apply lit_head_mismatch).
  rewrite Hk, Hdot, (IH Hb). reflexivity.
Qed.

Lemma loop_text_app (for_loop : ForLoop) (tail : string) :
  loop_text for_loop +:+ tail
  = "FOR_RANGEV(" +:+ start for_loop +:+ "," +:+ end_ for_loop +:+ "," +:+ step for_loop
    +:+ "){" +:+ commands_text (commands for_loop) +:+ "}" +:+ tail.
Proof. unfold loop_text. now rewrite !append_assoc. Qed.

Lemma loop_ok_parts (for_loop : ForLoop) :
  loop_ok for_loop = true ->
  is_symbol (start for_loop) = true /\ is_symbol (end_ for_loop) = true /\
  is_symbol (step for_loop) = true /\ forallb command_ok (commands for_loop) = true.
Proof.
  unfold loop_ok. intros H.
  apply andb_prop in H as [H H4]. apply andb_prop in H as [H H3].
  apply andb_prop in H as [H1 H2]. auto.
Qed.

(** The FOR_RANGEV pattern on the text of a loop takes its three symbols
    and the text of its commands, up to the brace that closes the loop. *)
Lemma for_pattern_loop (for_loop : ForLoop) (tail : string) :
  loop_ok for_loop = true ->
  Re.for_pattern (loop_text for_loop +:+ tail) = Some (loop_fields for_loop, tail).
Proof.
  intros H. apply loop_ok_parts in H as (H1 & H2 & H3 & H4).
  apply symbol_plain in H1 as [Hn1 H1]. apply symbol_plain in H2 as [Hn2 H2].
  apply symbol_plain in H3 as [Hn3 H3].
  rewrite loop_text_app. unfold Re.for_pattern, loop_fields. rewrite lit_app.
  set (body := commands_text (commands for_loop)).
  assert (Hbody : Re.lazy_star is_dot (Re.lit "}" Re.done) (body +:+ "}" +:+ tail)
                  = Some (body, tail)).
  { apply lazy_stops_at_brace.
    eapply string_forall_impl; [|exact (commands_text_chars _ H4)].
    intros c Hc. apply command_char_facts in Hc as (Hd & Hb & _). now rewrite Hd, Hb. }
  rewrite (plus_takes_all Re.not_comma _ (start for_loop) _
             (end_ for_loop, (step for_loop, (body, tail))) Hn1 (plain_not_comma _ H1));
    [reflexivity | intros d r' E; injection E as <- _; reflexivity |].
  rewrite lit_app.
  rewrite (plus_takes_all Re.not_comma _ (end_ for_loop) _
             (step for_loop, (body, tail)) Hn2 (plain_not_comma _ H2));
    [reflexivity | intros d r' E; injection E as <- _; reflexivity |].
  rewrite lit_app.
  rewrite (plus_takes_all Re.not_rparen _ (step for_loop) _ (body, tail) Hn3
             (plain_not_rparen _ H3));
    [reflexivity | intros d r' E; injection E as <- _; reflexivity |].
  now rewrite lit_app.
Qed.

Lemma findall_loop_step (for_loop : ForLoop) (tail : string) :
  loop_ok for_loop = true ->
  Re.findall_from Re.for_pattern (loop_text for_loop +:+ tail) 0
    = loop_fields for_loop :: Re.findall_from Re.for_pattern tail 0.
Proof.
  intros H.
  apply (findall_hit Re.for_pattern "F"
           ("OR_RANGEV(" +:+ start for_loop +:+ "," +:+ end_ for_loop +:+ ","
            +:+ step for_loop +:+ "){" +:+ commands_text (commands for_loop) +:+ "}")
           tail (loop_fields for_loop)).
  exact (for_pattern_loop for_loop tail H).
Qed.

(** The scan for loops finds every loop of a body made of loops separated
    by semicolons, in their order. *)
Lemma findall_loops (loops : list ForLoop) :
  forallb loop_ok loops = true ->
  Re.findall Re.for_pattern (loops_text loops) = map loop_fields loops.
Proof.
  unfold Re.findall, loops_text.
  induction loops as [|fl loops IH]; intros H; [reflexivity|].
  cbn [forallb] in H. apply andb_prop in H as [Hfl H].
  destruct loops as [|fl' loops].
  - cbn [map join]. rewrite <- (append_nil_r (loop_text fl)).
    now rewrite findall_loop_step.
  - change (join ";" (map loop_text (fl :: fl' :: loops)))
      with (loop_text fl +:+ ";" +:+ join ";" (map loop_text (fl' :: loops))).
    rewrite findall_loop_step by assumption.
    change (map loop_fields (fl :: fl' :: loops))
      with (loop_fields fl :: map loop_fields (fl' :: loops)).
    f_equal.
    change (";" +:+ join ";" (map loop_text (fl' :: loops)))
      with (String ";" (join ";" (map loop_text (fl' :: loops)))).
    rewrite findall_miss by reflexivity.
    now apply IH.
Qed.

Lemma parse_for_blocks_text (loops : list ForLoop) :
  forall acc,
    forallb loop_ok loops = true ->
    parse_for_blocks (map loop_fields loops) acc = Ok (acc ++ loops).
Proof.
  induction loops as [|fl loops IH]; intros acc H; cbn [map parse_for_blocks loop_fields].
  - now rewrite app_nil_r.
  - cbn [forallb] in H. apply andb_prop in H as [Hfl H].
    apply loop_ok_parts in Hfl as (_ & _ & _ & Hcmds).
    rewrite (split_commands_text _ Hcmds), (parse_commands_text _ [] Hcmds).
    cbn [rbind app]. rewrite (IH _ H), <- app_assoc. now destruct fl.
Qed.

Lemma parse_for_loops_text (loops : list ForLoop) :
  forallb loop_ok loops = true -> parse_for_loops (loops_text loops) = Ok loops.
Proof.
  intros H. unfold parse_for_loops. rewrite (findall_loops _ H).
  exact (parse_for_blocks_text loops [] H).
Qed.

(** *** Blocks *)

Lemma command_is_loop_char (s : string) :
  string_forall command_char s = true -> string_forall loop_char s = true.
Proof.
  apply string_forall_impl. intros c H. unfold loop_char. now rewrite H.
Qed.

Lemma loop_is_program_char (s : string) :
  string_forall loop_char s = true -> string_forall program_char s = true.
Proof.
  apply string_forall_impl. intros c H. unfold program_char. now rewrite H.
Qed.

Lemma loops_text_chars (loops : list ForLoop) :
  forallb loop_ok loops = true -> string_forall loop_char (loops_text loops) = true.
Proof.
  intros H. apply string_forall_join; [reflexivity|].
  induction loops as [|fl loops IH]; cbn [map]; [constructor|].
  cbn [forallb] in H. apply andb_prop in H as [Hfl H].
  constructor; [|now apply IH].
  apply loop_ok_parts in Hfl as (H1 & H2 & H3 & H4).
  apply symbol_plain in H1 as [_ H1]. apply symbol_plain in H2 as [_ H2].
  apply symbol_plain in H3 as [_ H3].
  unfold loop_text. rewrite !string_forall_app.
  rewrite (command_is_loop_char _ (plain_command_char _ H1)),
    (command_is_loop_char _ (plain_command_char _ H2)),
    (command_is_loop_char _ (plain_command_char _ H3)),
    (command_is_loop_char _ (commands_text_chars _ H4)).
  reflexivity.
Qed.

Lemma no_colon_no_close (s : string) :
  string_forall (fun c => negb (c =? ":")%char) s = true -> no_close_colon s = true.
Proof.
  induction s as [|c s IH]; cbn [string_forall no_close_colon]; [reflexivity|].
  intros H. apply andb_prop in H as [_ Hs]. rewrite (IH Hs).
  destruct s as [|d s]; cbn [starts_with]; [now rewrite andb_false_r|].
  cbn [string_forall] in Hs. apply andb_prop in Hs as [Hd _].
  apply negb_true_iff in Hd. now rewrite Hd, andb_false_r.
Qed.

Lemma repeat_block_ok_parts (blk : RepeatBlock) :
  repeat_block_ok blk = true ->
  repeats blk <> "" /\ string_forall is_word (repeats blk) = true /\
  forallb loop_ok (for_loops blk) = true.
Proof.
  unfold repeat_block_ok, is_identifier. intros H.
  apply andb_prop in H as [H Hl]. apply andb_prop in H as [Hne Hw].
  repeat split; try assumption. intros E. rewrite E in Hne. discriminate Hne.
Qed.

Lemma program_blocks_ok (prog : Program) :
  program_ok prog = true -> Forall block_ok (program_blocks prog).
Proof.
  unfold program_ok. induction prog as [|blk prog IH]; cbn [forallb program_blocks map];
    [constructor|].
  intros H. apply andb_prop in H as [Hblk H]. constructor; [|now apply IH].
  apply repeat_block_ok_parts in Hblk as (Hne & Hw & Hl).
  unfold block_ok. cbn [fst snd]. repeat split; try assumption.
  apply no_colon_no_close.
  eapply string_forall_impl; [|exact (loops_text_chars _ Hl)].
  intros c Hc. apply loop_char_facts in Hc as (_ & Hcolon & _). now rewrite Hcolon.
Qed.

Lemma parse_repeat_matches_text (prog : Program) :
  forall parsed,
    program_ok prog = true ->
    parse_repeat_matches (program_blocks prog) parsed = Ok (parsed ++ prog).
Proof.
  unfold program_ok.
  induction prog as [|blk prog IH]; intros parsed H;
    cbn [program_blocks map parse_repeat_matches].
  - now rewrite app_nil_r.
  - cbn [forallb] in H. apply andb_prop in H as [Hblk H].
    apply repeat_block_ok_parts in Hblk as (_ & _ & Hl).
    rewrite (parse_for_loops_text _ Hl). cbn [rbind].
    fold (program_blocks prog). rewrite (IH _ H), <- app_assoc. now destruct blk.
Qed.

Lemma program_text_chars (prog : Program) :
  program_ok prog = true -> string_forall program_char (program_text prog) = true.
Proof.
  unfold program_ok, program_text, blocks_text. intros H.
  apply string_forall_join; [reflexivity|].
  induction prog as [|blk prog IH]; cbn [program_blocks map]; [constructor|].
  cbn [forallb] in H. apply andb_prop in H as [Hblk H].
  constructor; [|now apply IH].
  apply repeat_block_ok_parts in Hblk as (_ & Hw & Hl).
  unfold block_text. cbn [fst snd]. rewrite !string_forall_app.
  rewrite (loop_is_program_char _ (loops_text_chars _ Hl)).
  assert (Hv : string_forall program_char (repeats blk) = true).
  { apply loop_is_program_char, command_is_loop_char, plain_command_char.
    eapply string_forall_impl; [apply word_is_plain | exact Hw]. }
  rewrite Hv. reflexivity.
Qed.

Lemma strip_layout_fixed (s : string) :
  string_forall (fun c => negb (is_layout c)) s = true -> strip_layout s = s.
Proof.
  unfold strip_layout. induction s as [|c s IH]; cbn [string_forall remove_char];
    [reflexivity|].
  intros H. apply andb_prop in H as [Hc Hs]. apply negb_true_iff in Hc.
  unfold is_layout in Hc. apply orb_false_elim in Hc as [H1 H2].
  rewrite H1. cbn [remove_char]. rewrite H2, (IH Hs). reflexivity.
Qed.

(** The parser reads back the text of a program.  For every program whose
    repeat symbols are identifiers, whose loop bounds, parameters, output
    names and output values are symbols, and whose OUTPUT commands name
    each output once, [parse_process] returns the program itself from its
    text, and from every text that is its text with spaces and line feeds
    put in anywhere. *)
Theorem parse_reads_back_program_text (prog : Program) :
  program_ok prog = true ->
  parse_process (program_text prog) = Ok prog /\
  (forall text, strip_layout text = program_text prog -> parse_process text = Ok prog).
Proof.
  intros H.
  assert (Hany : forall text,
             strip_layout text = program_text prog -> parse_process text = Ok prog).
  { intros text Htext. unfold parse_process. rewrite Htext. unfold program_text.
    rewrite findall_blocks.
    - exact (parse_repeat_matches_text prog [] H).
    - now apply program_blocks_ok.
    - eapply string_forall_impl; [|exact (program_text_chars _ H)].
      intros c Hc. now apply program_char_facts in Hc as [Hd _]. }
  split; [|exact Hany].
  apply Hany. apply strip_layout_fixed.
  eapply string_forall_impl; [|exact (program_text_chars _ H)].
  intros c Hc. apply program_char_facts in Hc as [_ Hl]. now rewrite Hl.
Qed.

Lemma parse_reads_back_program_text_witness :
  parse_process (program_text example_program) = Ok example_program /\
  parse_process example_process = Ok example_program.
Proof.
  destruct (parse_reads_back_program_text example_program eq_refl) as [H1 H2].
  split; [exact H1 | apply H2; reflexivity].
Defined.

(** ** The name of the CSV file *)












Lemma lit_inv {A} (p : string) (k : string -> option A) (s : string) (a : A) :
  Re.lit p k s = Some a -> exists rest, s = p +:+ rest /\ k rest = Some a.
Proof.
  revert s. induction p as [|c p IH]; intros s; cbn [Re.lit]; [eauto|].
  destruct s as [|d s]; [discriminate|].
  destruct (c =? d)%char eqn:E; [|discriminate]. apply Ascii.eqb_eq in E. subst d.
  intros H. destruct (IH _ H) as (rest & -> & Hk). eauto.
Qed.














(** The numbering on a listing: the files of another experiment whose
    name starts with this one count, and a name without a number does
    not. *)
Example next_csv_name_samples :
  next_csv_name "cv" [] = Ok "cv_001.csv" /\
  next_csv_name "cv" ["cv.csv"; "notes.txt"] = Ok "cv_001.csv" /\
  next_csv_name "cv" ["cv_001.csv"; "cv_007.csv"; "dc_100.csv"] = Ok "cv_008.csv" /\
  next_csv_name "cv" ["cv_001.csv"; "cv2_012.csv"] = Ok "cv_013.csv" /\
  next_csv_name "cv" ["cv_999.csv"; "cv_12_003.csv"] = Ok "cv_1000.csv".
Proof. repeat split. Qed.

(** ** The order of a run *)

Lemma emit_setpoints {Dev} (ev : Event) (w w' : World Dev) (r : result unit) :
  emit ev w = (r, w') -> setpoints (trace w') = setpoints (trace w) ++ setpoints [ev].
Proof. unfold emit. intros [= <- <-]. cbn [trace]. apply setpoints_app. Qed.

Lemma sleep_setpoints {Dev} (seconds : Q) (w w' : World Dev) (r : result unit) :
  sleep seconds w = (r, w') -> setpoints (trace w') = setpoints (trace w).
Proof.
  unfold sleep. destruct (Qlt_bool seconds 0).
  - unfold lift. now intros [= <- <-].
  - intros H. apply emit_setpoints in H. now rewrite app_nil_r in H.
Qed.

Lemma reading_events_setpoints (delay_val : Q) (r_val : Z) (currents : list Q) :
  setpoints (reading_events delay_val r_val currents) = [].
Proof. induction currents as [|i currents IH]; [reflexivity | exact IH]. Qed.

Section Order.
Context {Dev : Type}.
Variable py_int : string -> option Z.
Variable py_float : string -> option Q.
Variable str_int : Z -> string.
Variable str_float : Q -> string.
Variable confirm : string -> bool.
Variable instrument : Instrument Dev.
Variable fuel : nat.
Variable input_widgets : gmap string string.

Lemma sweep_point_setpoints (delay_val : Q) (r_val total_steps : Z) (V : Q)
    (step_counter : Z) (w w' : World Dev) (sc : Z) :
  sweep_point instrument delay_val r_val total_steps V step_counter w = (Ok sc, w') ->
  setpoints (trace w') = setpoints (trace w) ++ [V].
Proof.
  unfold sweep_point. intros H.
  unbind H. apply call_set_trace in H0.
  unbind H. apply sleep_setpoints in H1.
  unbind H. apply read_currents_trace in H2 as (currents & _ & _ & Htr).
  unbind H. apply lift_ok in H2 as [_ ->].
  unbind H. apply emit_setpoints in H2. cbv zeta in H.
  unbind H. apply lift_ok in H3 as [_ ->].
  unbind H. apply emit_setpoints in H3.
  unfold ret in H. injection H as _ <-.
  rewrite H3, H2, Htr, setpoints_app, reading_events_setpoints, H1, H0, setpoints_app.
  cbn. now rewrite !app_nil_r.
Qed.

Lemma sweep_setpoints (delay_val : Q) (r_val total_steps : Z) (V_values : list Q) :
  forall (step_counter : Z) (w w' : World Dev) (sc : Z),
    sweep instrument delay_val r_val total_steps V_values step_counter w = (Ok sc, w') ->
    setpoints (trace w') = setpoints (trace w) ++ V_values.
Proof.
  induction V_values as [|V rest IH]; intros step_counter w w' sc; cbn [sweep].
  - unfold ret. intros [= _ <-]. now rewrite app_nil_r.
  - intros H. unbind H. apply sweep_point_setpoints in H0. apply IH in H.
    rewrite H, H0, <- app_assoc. reflexivity.
Qed.

Lemma scan_commands_setpoints (cmds : list Command) :
  forall delay_val r_val (w w' : World Dev) dr,
    scan_commands py_int py_float input_widgets cmds delay_val r_val w = (Ok dr, w') ->
    setpoints (trace w') = setpoints (trace w).
Proof.
  induction cmds as [|[param|param|outputs] cmds IH]; intros delay_val r_val w w' dr;
    cbn [scan_commands].
  - unfold ret. now intros [= _ <-].
  - intros H. unbind H. apply lift_ok in H0 as [_ ->]. now apply IH in H.
  - intros H. unbind H. apply lift_ok in H0 as [_ ->].
    unbind H. apply sleep_setpoints in H0. apply IH in H. congruence.
  - apply IH.
Qed.

Let plan_loop := planned_loop py_float fuel input_widgets.
Let plan_pass := planned_pass py_float fuel input_widgets.

Lemma run_for_loop_setpoints (total_steps : Z) (for_loop : ForLoop) (step_counter : Z)
    (w w' : World Dev) (sc : Z) :
  run_for_loop py_int py_float instrument fuel input_widgets total_steps for_loop
    step_counter w = (Ok sc, w') ->
  setpoints (trace w') = setpoints (trace w) ++ plan_loop for_loop.
Proof.
  unfold run_for_loop. intros H.
  unbind H. apply lift_ok in H0 as [Hs ->].
  unbind H. apply lift_ok in H0 as [He ->].
  unbind H. apply lift_ok in H0 as [Hd ->].
  unbind H. apply scan_commands_setpoints in H0.
  unbind H. apply lift_ok in H1 as [Hv ->].
  apply sweep_setpoints in H.
  unfold plan_loop, planned_loop, loop_values. rewrite Hs, He, Hd. cbn [rbind]. rewrite Hv.
  congruence.
Qed.

Lemma run_for_loops_setpoints (total_steps : Z) (loops : list ForLoop) :
  forall (step_counter : Z) (w w' : World Dev) (sc : Z),
    run_for_loops py_int py_float instrument fuel input_widgets total_steps loops
      step_counter w = (Ok sc, w') ->
    setpoints (trace w') = setpoints (trace w) ++ plan_pass loops.
Proof.
  induction loops as [|fl loops IH]; intros step_counter w w' sc; cbn [run_for_loops].
  - unfold ret. intros [= _ <-]. cbn. now rewrite app_nil_r.
  - intros H. unbind H. apply run_for_loop_setpoints in H0. apply IH in H.
    rewrite H, H0, <- app_assoc. reflexivity.
Qed.

Lemma run_cycles_setpoints (cycles_val total_steps : Z) (loops : list ForLoop) :
  forall (n : nat) (c step_counter : Z) (w w' : World Dev) (sc : Z),
    run_cycles py_int py_float instrument fuel input_widgets n c cycles_val total_steps
      loops step_counter w = (Ok sc, w') ->
    setpoints (trace w') = setpoints (trace w) ++ concat (repeat (plan_pass loops) n).
Proof.
  induction n as [|n IH]; intros c step_counter w w' sc; cbn [run_cycles].
  - unfold ret. intros [= _ <-]. cbn. now rewrite app_nil_r.
  - intros H. unbind H. apply emit_setpoints in H0. cbn in H0. rewrite app_nil_r in H0.
    unbind H. apply run_for_loops_setpoints in H1. apply IH in H.
    rewrite H, H1, H0, <- app_assoc. reflexivity.
Qed.

Lemma run_blocks_setpoints (total_steps cycles_val : Z) (prog : Program) :
  entry_or input_widgets "C" (to_int py_int) 1 = Ok cycles_val ->
  forall (step_counter : Z) (w w' : World Dev) (sc : Z),
    run_blocks py_int py_float instrument fuel input_widgets prog total_steps
      step_counter w = (Ok sc, w') ->
    setpoints (trace w')
    = setpoints (trace w)
      ++ flat_map (planned_block py_float fuel input_widgets (Z.to_nat cycles_val)) prog.
Proof.
  intros Hc. induction prog as [|blk prog IH]; intros step_counter w w' sc;
    cbn [run_blocks flat_map].
  - unfold ret. intros [= _ <-]. now rewrite app_nil_r.
  - rewrite block_get_repeat_var. cbv zeta. intros H.
    unbind H. apply lift_ok in H0 as [Hc' ->]. rewrite Hc in Hc'. injection Hc' as <-.
    unbind H. apply emit_setpoints in H0. cbn in H0. rewrite app_nil_r in H0.
    unbind H. apply run_cycles_setpoints in H1. apply IH in H.
    rewrite H, H1, H0, <- app_assoc. reflexivity.
Qed.

(** The order of a run.  A task that completes has commanded exactly the
    voltages of its plan, in the order of the plan: block after block as
    the program lists them, every block as many passes as the entry of
    [C] says, every pass over the loops of the block in their order, every
    loop over its sweep values; and the CSV file holds one row for each of
    these voltages, in the same order. *)
Theorem completed_run_follows_the_plan (selection : Selection) (prog : Program) (dev : Dev)
    (w : World Dev) :
  selection_filled selection = true ->
  task py_int py_float str_int str_float confirm instrument fuel input_widgets
    selection prog (start_world dev) = (Ok tt, w) ->
  setpoints (trace w) = planned_run py_int py_float fuel input_widgets prog /\
  map fst (samples (trace w)) = planned_run py_int py_float fuel input_widgets prog.
Proof.
  intros Hsel Hrun.
  assert (Hrest : in_phase AtRest (trace w)).
  { assert (Hstart : in_phase AtRest (trace (start_world dev)))
      by (split; [constructor | reflexivity]).
    exact (triple_task py_int py_float str_int str_float confirm instrument fuel
             input_widgets selection prog _ _ _ Hstart Hrun). }
  destruct Hrest as [_ Hrows]. cbn [pending] in Hrows. rewrite app_nil_r in Hrows.
  assert (Hplan : setpoints (trace w) = planned_run py_int py_float fuel input_widgets prog);
    [|split; congruence].
  clear Hrows. unfold task in Hrun.
  unfold selection_filled in Hsel. apply negb_true_iff in Hsel. rewrite Hsel in Hrun.
  unbind Hrun. unfold describe_process in H.
  unbind H. apply lift_ok in H0 as [_ ->].
  unbind H. apply emit_setpoints in H0. cbn in H0.
  cbv zeta in H. unbind H. apply emit_setpoints in H1. cbn in H1.
  unfold ret in H. injection H as _ <-.
  unfold run in Hrun.
  unbind Hrun. apply emit_setpoints in H. cbn in H.
  unbind Hrun. apply lift_ok in H2 as [_ ->].
  unbind Hrun. rename H2 into Hblocks.
  unbind Hrun. apply emit_setpoints in H2. cbn in H2.
  apply emit_setpoints in Hrun. cbn in Hrun.
  rewrite !app_nil_r in *.
  match type of Hblocks with
  | run_blocks _ _ _ _ _ _ _ _ ?before = (_, ?after) =>
      assert (Hbefore : setpoints (trace before) = []) by congruence;
      assert (Hafter : setpoints (trace w) = setpoints (trace after)) by congruence
  end.
  rewrite Hafter. unfold planned_run.
  destruct prog as [|blk rest].
  - cbn [run_blocks] in Hblocks. unfold ret in Hblocks. injection Hblocks as _ <-.
    rewrite Hbefore. now destruct (entry_or input_widgets "C" (to_int py_int) 1).
  - destruct (entry_or input_widgets "C" (to_int py_int) 1) as [c| |] eqn:Hc.
    + apply (run_blocks_setpoints _ c _ Hc) in Hblocks. now rewrite Hblocks, Hbefore.
    + exfalso. cbn [run_blocks] in Hblocks. rewrite block_get_repeat_var in Hblocks.
      cbv zeta in Hblocks. unbind Hblocks. apply lift_ok in H3 as [Hc' _]. congruence.
    + exfalso. cbn [run_blocks] in Hblocks. rewrite block_get_repeat_var in Hblocks.
      cbv zeta in Hblocks. unbind Hblocks. apply lift_ok in H3 as [Hc' _]. congruence.
Qed.

End Order.

Lemma completed_run_follows_the_plan_witness :
  let out := bench_task yes (sweep_widgets "C" "2" "0.5" "1") (one_sweep "C") in
  length (setpoints (trace (snd out))) = 6%nat /\
  setpoints (trace (snd out))
  = planned_run int_of_decimal float_of_decimal 100 (sweep_widgets "C" "2" "0.5" "1")
      (one_sweep "C") /\
  map fst (samples (trace (snd out)))
  = planned_run int_of_decimal float_of_decimal 100 (sweep_widgets "C" "2" "0.5" "1")
      (one_sweep "C").
Proof.
  intros out. split; [vm_compute; reflexivity|].
  apply (completed_run_follows_the_plan int_of_decimal float_of_decimal str_of_int
           str_of_ratio yes debug_instrument 100 (sweep_widgets "C" "2" "0.5" "1")
           someone (one_sweep "C") tt (snd out)); [reflexivity|].
  vm_compute. reflexivity.
Defined.

(** ** The name of a command *)

Lemma upper_char_word (c : ascii) : is_word (upper_char c) = is_word c.
Proof. destruct c as [[] [] [] [] [] [] [] []]; reflexivity. Qed.

Lemma upper_char_idempotent (c : ascii) : upper_char (upper_char c) = upper_char c.
Proof. destruct c as [[] [] [] [] [] [] [] []]; reflexivity. Qed.

Lemma upper_word (s : string) : string_forall is_word (upper s) = string_forall is_word s.
Proof.
  induction s as [|c s IH]; cbn [upper string_forall]; [reflexivity|].
  now rewrite upper_char_word, IH.
Qed.

Lemma upper_idempotent (s : string) : upper (upper s) = upper s.
Proof.
  induction s as [|c s IH]; cbn [upper]; [reflexivity|].
  now rewrite upper_char_idempotent, IH.
Qed.

(** A command is recognised by its name without regard to the case of
    its letters, and its parameter is all the text between the first
    opening parenthesis and the last closing one, parentheses and commas
    included: a name that reads MEAN in capitals gives a MEAN command, one
    that reads DELAY a DELAY command. *)
Theorem command_name_ignores_case (name args : string) :
  name <> "" ->
  string_forall is_word name = true ->
  string_forall is_dot args = true ->
  parse_command (name +:+ "(" +:+ args +:+ ")")
    = parse_command (upper name +:+ "(" +:+ args +:+ ")") /\
  (upper name = "MEAN" -> parse_command (name +:+ "(" +:+ args +:+ ")") = Ok [Mean args]) /\
  (upper name = "DELAY" -> parse_command (name +:+ "(" +:+ args +:+ ")") = Ok [Delay args]).
Proof.
  intros Hne Hw Hd.
  assert (Hune : upper name <> "") by (destruct name; [congruence | discriminate]).
  assert (Huw : string_forall is_word (upper name) = true) by (now rewrite upper_word).
  unfold parse_command.
  rewrite (command_pattern_text name args Hne Hw Hd),
    (command_pattern_text (upper name) args Hune Huw Hd), upper_idempotent.
  split; [reflexivity|]. split; intros ->; reflexivity.
Qed.

Lemma command_name_ignores_case_witness :
  parse_command ("Mean" +:+ "(" +:+ "f(x),2" +:+ ")")
    = parse_command (upper "Mean" +:+ "(" +:+ "f(x),2" +:+ ")") /\
  parse_command "Mean(f(x),2)" = Ok [Mean "f(x),2"] /\
  parse_command "delay(D)" = Ok [Delay "D"].
Proof.
  destruct (command_name_ignores_case "Mean" "f(x),2") as (H1 & H2 & _);
    [discriminate | reflexivity | reflexivity |].
  destruct (command_name_ignores_case "delay" "D") as (_ & _ & H3);
    [discriminate | reflexivity | reflexivity |].
  split; [exact H1|]. split; [apply H2; reflexivity | apply H3; reflexivity].
Defined.

(** ** The progress bar of a run that completes *)

Section ProgressBar.
Context {Dev : Type}.
Variable py_int : string -> option Z.
Variable py_float : string -> option Q.
Variable str_int : Z -> string.
Variable str_float : Q -> string.
Variable confirm : string -> bool.
Variable instrument : Instrument Dev.
Variable fuel : nat.
Variable input_widgets : gmap string string.

(** From [w] to [w'] the run has gone through [n] sweep values: it has
    commanded [n] voltages, moved its counter by [n] and reported every
    one of these moves, which it can do only with a total that is not 0. *)
Let advanced (total_steps step_counter sc : Z) (w w' : World Dev) : Prop :=
  exists n : nat,
    sc = step_counter + Z.of_nat n /\
    reports w' = reports w ++ fractions total_steps step_counter n /\
    length (setpoints (trace w')) = (length (setpoints (trace w)) + n)%nat /\
    (n <> 0%nat -> total_steps <> 0).

Lemma advanced_none (total_steps step_counter : Z) (w w' : World Dev) :
  reports w' = reports w ->
  setpoints (trace w') = setpoints (trace w) ->
  advanced total_steps step_counter step_counter w w'.
Proof.
  intros Hr Hs. exists 0%nat. rewrite Hr, Hs. cbn. rewrite app_nil_r.
  repeat split; lia.
Qed.

Lemma advanced_trans (total_steps a b c : Z) (w w1 w2 : World Dev) :
  advanced total_steps a b w w1 ->
  advanced total_steps b c w1 w2 ->
  advanced total_steps a c w w2.
Proof.
  intros (n & -> & Hr1 & Hs1 & Hz1) (m & -> & Hr2 & Hs2 & Hz2). exists (n + m)%nat.
  rewrite Hr2, Hr1, Hs2, Hs1, <- app_assoc, fractions_app.
  repeat split; lia.
Qed.

(** A sweep value that completes has divided by the total. *)
Lemma sweep_point_total (delay_val : Q) (r_val total_steps : Z) (V : Q) (step_counter : Z)
    (w w' : World Dev) (sc : Z) :
  sweep_point instrument delay_val r_val total_steps V step_counter w = (Ok sc, w') ->
  total_steps <> 0.
Proof.
  unfold sweep_point. intros H.
  unbind H. unbind H. unbind H. unbind H. unbind H. cbv zeta in H.
  unbind H. apply lift_ok in H5 as [Hf _]. intros ->.
  discriminate Hf.
Qed.

Lemma sweep_total (delay_val : Q) (r_val total_steps : Z) (V_values : list Q)
    (step_counter : Z) (w w' : World Dev) (sc : Z) :
  sweep instrument delay_val r_val total_steps V_values step_counter w = (Ok sc, w') ->
  length V_values <> 0%nat -> total_steps <> 0.
Proof.
  destruct V_values as [|V rest]; [easy|]. cbn [sweep]. intros H _.
  unbind H. now apply sweep_point_total in H0.
Qed.

Lemma run_for_loop_advanced (total_steps : Z) (for_loop : ForLoop) (step_counter : Z)
    (w w' : World Dev) (sc : Z) :
  run_for_loop py_int py_float instrument fuel input_widgets total_steps for_loop
    step_counter w = (Ok sc, w') ->
  advanced total_steps step_counter sc w w'.
Proof.
  unfold run_for_loop. intros H.
  unbind H. apply lift_ok in H0 as [_ ->].
  unbind H. apply lift_ok in H0 as [_ ->].
  unbind H. apply lift_ok in H0 as [_ ->].
  unbind H. pose proof H0 as Hscan. apply scan_commands_reports in H0.
  apply scan_commands_setpoints in Hscan.
  unbind H. apply lift_ok in H1 as [_ ->].
  pose proof H as Hsweep. pose proof (sweep_total _ _ _ _ _ _ _ _ H) as Htotal.
  apply sweep_reports in H as [-> Hr].
  apply sweep_setpoints in Hsweep.
  exists (length a3). split; [reflexivity|]. split; [congruence|].
  split; [|exact Htotal].
  rewrite Hsweep, length_app. congruence.
Qed.

Lemma run_for_loops_advanced (total_steps : Z) (loops : list ForLoop) :
  forall (step_counter : Z) (w w' : World Dev) (sc : Z),
    run_for_loops py_int py_float instrument fuel input_widgets total_steps loops
      step_counter w = (Ok sc, w') ->
    advanced total_steps step_counter sc w w'.
Proof.
  induction loops as [|fl loops IH]; intros step_counter w w' sc; cbn [run_for_loops].
  - unfold ret. intros [= <- <-]. now apply advanced_none.
  - intros H. unbind H. apply run_for_loop_advanced in H0. apply IH in H.
    exact (advanced_trans _ _ _ _ _ _ _ H0 H).
Qed.

Lemma run_cycles_advanced (cycles_val total_steps : Z) (loops : list ForLoop) :
  forall (n : nat) (c step_counter : Z) (w w' : World Dev) (sc : Z),
    run_cycles py_int py_float instrument fuel input_widgets n c cycles_val total_steps
      loops step_counter w = (Ok sc, w') ->
    advanced total_steps step_counter sc w w'.
Proof.
  induction n as [|n IH]; intros c step_counter w w' sc; cbn [run_cycles].
  - unfold ret. intros [= <- <-]. now apply advanced_none.
  - intros H. unbind H. pose proof H0 as Hs. apply emit_ok in H0. cbn in H0.
    rewrite app_nil_r in H0. apply emit_setpoints in Hs. cbn in Hs. rewrite app_nil_r in Hs.
    unbind H. apply run_for_loops_advanced in H1. apply IH in H.
    exact (advanced_trans _ _ _ _ _ _ _ (advanced_none _ _ _ _ H0 Hs)
             (advanced_trans _ _ _ _ _ _ _ H1 H)).
Qed.

Lemma run_blocks_advanced (total_steps : Z) (prog : Program) :
  forall (step_counter : Z) (w w' : World Dev) (sc : Z),
    run_blocks py_int py_float instrument fuel input_widgets prog total_steps
      step_counter w = (Ok sc, w') ->
    advanced total_steps step_counter sc w w'.
Proof.
  induction prog as [|blk prog IH]; intros step_counter w w' sc; cbn [run_blocks].
  - unfold ret. intros [= <- <-]. now apply advanced_none.
  - cbv zeta. intros H.
    unbind H. apply lift_ok in H0 as [_ ->].
    unbind H. pose proof H0 as Hs. apply emit_ok in H0. cbn in H0.
    rewrite app_nil_r in H0. apply emit_setpoints in Hs. cbn in Hs. rewrite app_nil_r in Hs.
    unbind H. apply run_cycles_advanced in H1. apply IH in H.
    exact (advanced_trans _ _ _ _ _ _ _ (advanced_none _ _ _ _ H0 Hs)
             (advanced_trans _ _ _ _ _ _ _ H1 H)).
Qed.

(** The progress bar counts the samples.  A task that completes has set
    the progress bar once after every sample it recorded and once at the
    end: after the k-th sample to k / T, for one total T that the task
    fixed before the run (not 0 once a sample is recorded), and at the
    end to 1.  The bar is moved by the samples that were recorded,
    whatever their number is next to T. *)
Theorem completed_run_reports_each_sample (selection : Selection) (prog : Program)
    (dev : Dev) (w : World Dev) :
  selection_filled selection = true ->
  task py_int py_float str_int str_float confirm instrument fuel input_widgets
    selection prog (start_world dev) = (Ok tt, w) ->
  exists T,
    progress_reports (trace w)
    = fractions T 0 (length (samples (trace w))) ++ [1%Q] /\
    (samples (trace w) <> [] -> T <> 0).
Proof.
  intros Hsel Hrun.
  assert (Hrows : length (setpoints (trace w)) = length (samples (trace w))).
  { assert (Hstart : in_phase AtRest (trace (start_world dev)))
      by (split; [constructor | reflexivity]).
    destruct (triple_task py_int py_float str_int str_float confirm instrument fuel
                input_widgets selection prog _ _ _ Hstart Hrun) as [_ Hrows].
    cbn [pending] in Hrows. rewrite app_nil_r in Hrows.
    now rewrite Hrows, length_map. }
  assert (Hsome : samples (trace w) <> [] -> length (setpoints (trace w)) <> 0%nat).
  { rewrite Hrows. now destruct (samples (trace w)). }
  rewrite <- Hrows. clear Hrows.
  unfold task in Hrun.
  unfold selection_filled in Hsel. apply negb_true_iff in Hsel. rewrite Hsel in Hrun.
  unbind Hrun. unfold describe_process in H.
  unbind H. apply lift_ok in H0 as [_ ->].
  unbind H. pose proof H0 as Hs0. apply emit_ok in H0. apply emit_setpoints in Hs0.
  cbv zeta in H. unbind H. pose proof H1 as Hs1. apply emit_ok in H1.
  apply emit_setpoints in Hs1.
  unfold ret in H. injection H as _ <-.
  unfold run in Hrun.
  unbind Hrun. pose proof H as Hs2. apply emit_ok in H. apply emit_setpoints in Hs2.
  unbind Hrun. apply lift_ok in H2 as [Hcount ->].
  unbind Hrun. rename H2 into Hblocks.
  unbind Hrun. pose proof H2 as Hs3. apply emit_ok in H2. apply emit_setpoints in Hs3.
  pose proof Hrun as Hs4. apply emit_ok in Hrun. apply emit_setpoints in Hs4.
  cbn in H0, H1, H, H2, Hrun, Hs0, Hs1, Hs2, Hs3, Hs4.
  rewrite ?app_nil_r in *.
  apply run_blocks_advanced in Hblocks as (n & _ & Hr & Hn & Hz).
  match type of Hcount with _ = Ok ?T => exists T end.
  change (progress_reports (trace w)) with (reports w).
  rewrite Hs4, Hs3, Hn, Hs2, Hs1, Hs0 in *. cbn [length Nat.add] in *.
  split; [|auto].
  rewrite Hrun, H2, Hr, H, H1, H0. reflexivity.
Qed.

End ProgressBar.

Lemma completed_run_reports_each_sample_witness :
  let out := bench_task yes (sweep_widgets "C" "2" "0.5" "1") (one_sweep "C") in
  length (samples (trace (snd out))) = 6%nat /\
  exists T,
    progress_reports (trace (snd out))
    = fractions T 0 (length (samples (trace (snd out)))) ++ [1%Q] /\
    (samples (trace (snd out)) <> [] -> T <> 0).
Proof.
  intros out. split; [vm_compute; reflexivity|].
  apply (completed_run_reports_each_sample int_of_decimal float_of_decimal str_of_int
           str_of_ratio yes debug_instrument 100 (sweep_widgets "C" "2" "0.5" "1") someone
           (one_sweep "C") tt (snd out)); [reflexivity|].
  vm_compute. reflexivity.
Defined.

(** ** The connection panel *)

Section Panels.
Context {Res : Type}.
Variable open_resource : string -> exn + Res.
Variable write : string -> Res -> option exn * Res.
Variable read : Res -> (exn + string) * Res.
Variable close : Res -> option exn * Res.
Variable str_exn : exn -> string.

(** Connecting never shows the identity of the instrument.  When the
    resource opens and takes the two commands that initialise it, the
    panel always shows a "Connection Error" (the exception of the identity
    query that failed, or else the [NameError] of [dev_name]) and then
    marks itself connected all the same: the flag is set, the disconnect
    button enabled, the indicator green. *)
Theorem connecting_always_shows_an_error (dev : string) (p : Panel Res)
    (res res' : Res) (made : list VisaCall) :
  dev <> "" ->
  open_resource dev = inr res ->
  talk write read close [VisaWrite "MODE 2"; VisaWrite "CELL 1"] res = (None, res', made) ->
  let p' := connect_device open_resource write read close str_exn dev p in
  connected p' = true /\
  disconnect_enabled p' = true /\
  indicator p' = Green /\
  handle p' <> None /\
  exists e,
    dialogs p'
    = dialogs p ++
      [ErrorBox "Connection Error" (str_exn e);
       InfoBox "Connected" ("Connection test to " +:+ dev +:+ " completed (quick test).")] /\
    (fst (fst (talk write read close
                 [VisaWrite "ID"; VisaRead; VisaWrite "VER"; VisaRead;
                  VisaWrite "ERR"; VisaRead] res')) = None ->
     e = NameError "dev_name") /\
    (forall failure,
        fst (fst (talk write read close
                    [VisaWrite "ID"; VisaRead; VisaWrite "VER"; VisaRead;
                     VisaWrite "ERR"; VisaRead] res')) = Some failure ->
        e = failure).
Proof.
  intros Hdev Hopen Hinit p'. subst p'. unfold connect_device.
  apply String.eqb_neq in Hdev. rewrite Hdev, Hopen, Hinit.
  destruct (talk write read close _ res') as [[failure res''] made'].
  cbn. repeat split; try discriminate.
  exists (match failure with Some e => e | None => NameError "dev_name" end).
  split; [now rewrite <- app_assoc|]. split.
  - now intros ->.
  - now intros failure' ->.
Qed.

(** A connection that fails after the resource was opened keeps the
    resource: the flag is cleared and the disconnect button disabled, but
    the panel still holds the resource and its indicator is green, and
    asking to disconnect then does nothing at all, so that the resource is
    never told to switch the cell off and is never closed. *)
Theorem failed_connection_keeps_the_resource (answer : bool) (dev : string) (p : Panel Res)
    (res res' : Res) (made : list VisaCall) (e : exn) :
  dev <> "" ->
  open_resource dev = inr res ->
  talk write read close [VisaWrite "MODE 2"; VisaWrite "CELL 1"] res = (Some e, res', made) ->
  let p' := connect_device open_resource write read close str_exn dev p in
  connected p' = false /\
  disconnect_enabled p' = false /\
  handle p' = Some res' /\
  indicator p' = Green /\
  ask_disconnect write read close answer p' = p'.
Proof.
  intros Hdev Hopen Hinit p'. subst p'. unfold connect_device.
  apply String.eqb_neq in Hdev. rewrite Hdev, Hopen, Hinit.
  repeat split.
Qed.

(** A confirmed disconnection always ends disconnected: the panel holds
    no resource, the flag is cleared and the indicator is not green,
    whether or not the resource took the commands.  The resource is
    closed only when it took "CELL 0": when that write raises, the
    exception is dropped and [close] is not called. *)
Theorem disconnecting_always_releases (p : Panel Res) :
  connected p = true ->
  let p' := ask_disconnect write read close true p in
  handle p' = None /\
  connected p' = false /\
  disconnect_enabled p' = false /\
  indicator p' <> Green /\
  visa_calls p'
  = visa_calls p ++
    match handle p with
    | None => []
    | Some res =>
        match write "CELL 0" res with
        | (None, _) => [VisaWrite "CELL 0"; VisaClose]
        | (Some _, _) => [VisaWrite "CELL 0"]
        end
    end.
Proof.
  intros Hc p'. subst p'. unfold ask_disconnect. rewrite Hc. cbn [negb].
  destruct (handle p) as [res|] eqn:Hh; cbn [show_dialog handle].
  - rewrite Hh. cbn [talk resource_call].
    destruct (write "CELL 0" res) as [[e|] res1].
    + cbn. repeat split; try reflexivity. destruct (listed_devices p); discriminate.
    + destruct (close res1) as [[e|] res2]; cbn; repeat split; try reflexivity;
        destruct (listed_devices p); discriminate.
  - rewrite Hh. cbn. rewrite app_nil_r. repeat split; try reflexivity.
    destruct (listed_devices p); discriminate.
Qed.

End Panels.

Lemma connecting_always_shows_an_error_witness :
  let p' := connect_device (counting_open 8) counting_write counting_read counting_close
              exn_text "GPIB0::14" (fresh_panel ["GPIB0::14"]) in
  connected p' = true /\
  disconnect_enabled p' = true /\
  indicator p' = Green /\
  handle p' <> None /\
  exists e,
    dialogs p'
    = dialogs (fresh_panel (Res := nat) ["GPIB0::14"]) ++
      [ErrorBox "Connection Error" (exn_text e);
       InfoBox "Connected" ("Connection test to " +:+ "GPIB0::14" +:+ " completed (quick test).")] /\
    (fst (fst (talk counting_write counting_read counting_close
                 [VisaWrite "ID"; VisaRead; VisaWrite "VER"; VisaRead;
                  VisaWrite "ERR"; VisaRead] 6%nat)) = None ->
     e = NameError "dev_name") /\
    (forall failure,
        fst (fst (talk counting_write counting_read counting_close
                    [VisaWrite "ID"; VisaRead; VisaWrite "VER"; VisaRead;
                     VisaWrite "ERR"; VisaRead] 6%nat)) = Some failure ->
        e = failure).
Proof.
  apply (connecting_always_shows_an_error (counting_open 8) counting_write counting_read
           counting_close exn_text "GPIB0::14" (fresh_panel ["GPIB0::14"])
           8%nat 6%nat [VisaWrite "MODE 2"; VisaWrite "CELL 1"]);
    [discriminate | reflexivity | reflexivity].
Defined.

Lemma failed_connection_keeps_the_resource_witness :
  let p' := connect_device (counting_open 1) counting_write counting_read counting_close
              exn_text "GPIB0::14" (fresh_panel ["GPIB0::14"]) in
  connected p' = false /\
  disconnect_enabled p' = false /\
  handle p' = Some 0%nat /\
  indicator p' = Green /\
  ask_disconnect counting_write counting_read counting_close true p' = p'.
Proof.
  apply (failed_connection_keeps_the_resource (counting_open 1) counting_write counting_read
           counting_close exn_text true "GPIB0::14" (fresh_panel ["GPIB0::14"])
           1%nat 0%nat [VisaWrite "MODE 2"; VisaWrite "CELL 1"] (DeviceError "timeout"));
    [discriminate | reflexivity | reflexivity].
Defined.

Lemma disconnecting_always_releases_witness :
  let p := connect_device (counting_open 2) counting_write counting_read counting_close
             exn_text "GPIB0::14" (fresh_panel ["GPIB0::14"]) in
  let p' := ask_disconnect counting_write counting_read counting_close true p in
  handle p' = None /\
  connected p' = false /\
  disconnect_enabled p' = false /\
  indicator p' <> Green /\
  visa_calls p' = visa_calls p ++ [VisaWrite "CELL 0"].
Proof.
  intros p.
  apply (disconnecting_always_releases counting_write counting_read counting_close p).
  reflexivity.
Defined.

(** ** Where a sweep stops *)





(** A descending sweep and an ascending loop with a negative step. *)
Example sweep_stops_samples :
  sweep_values 6 1 0 (1 # 4) = Ok [1; 1 + - (1 # 4); 1 + - (1 # 4) + - (1 # 4);
                                   1 + - (1 # 4) + - (1 # 4) + - (1 # 4);
                                   1 + - (1 # 4) + - (1 # 4) + - (1 # 4) + - (1 # 4)]%Q /\
  sweep_values 6 0 1 (- (1 # 4)) = Ok [].
Proof. split; reflexivity. Qed.

(** ** The outputs of an OUTPUT command *)

Lemma dict_get_set {V} (d : dict V) (k key : string) (v : V) :
  dict_get (dict_set d k v) key = if String.eqb k key then Some v else dict_get d key.
Proof.
  induction d as [|[k' w] d IH]; cbn [dict_set dict_get]; [reflexivity|].
  destruct (String.eqb k' k) eqn:E; cbn [dict_get].
  - apply String.eqb_eq in E. subst k'. now destruct (String.eqb k key).
  - rewrite IH. destruct (String.eqb k' key) eqn:E'; [|reflexivity].
    apply String.eqb_eq in E'. subst k'. rewrite String.eqb_sym in E. now rewrite E.
Qed.

Lemma dict_set_keys {V} (d : dict V) (k : string) (v : V) :
  List.NoDup (map fst d) -> List.NoDup (map fst (dict_set d k v)).
Proof.
  induction d as [|[k' w] d IH]; cbn [dict_set map fst]; intros H.
  - constructor; [intros [] | constructor].
  - inversion H as [|? ? Hnot Hd]; subst.
    destruct (String.eqb k' k) eqn:E; cbn [map fst]; [exact H|].
    constructor; [|now apply IH].
    intros Hin. apply Hnot. clear -Hin E.
    induction d as [|[k'' w'] d IH]; cbn [dict_set map fst In] in *.
    + destruct Hin as [<- | []]. now rewrite String.eqb_refl in E.
    + destruct (String.eqb k'' k) eqn:E'; cbn [map fst In] in Hin; tauto.
Qed.

Lemma parse_pairs_lookup (pieces : list string) :
  forall acc outputs,
    parse_pairs pieces acc = Ok outputs ->
    (List.NoDup (map fst acc) -> List.NoDup (map fst outputs)) /\
    forall key,
      dict_get outputs key
      = fold_left
          (fun found piece =>
             match piece_value key piece with
             | Some v => Some v
             | None => found
             end)
          pieces (dict_get acc key).
Proof.
  induction pieces as [|piece pieces IH]; intros acc outputs; cbn [parse_pairs fold_left].
  - intros [= <-]. auto.
  - unfold piece_value at 2. destruct (contains "=" piece) eqn:E.
    + destruct (split_once_two _ _ E) as (k & v & Hs). rewrite Hs.
      intros H. apply IH in H as [Hnd Hget]. split.
      * intros Hacc. apply Hnd. now apply dict_set_keys.
      * intros key. rewrite Hget, dict_get_set. now destruct (String.eqb k key).
    + apply IH.
Qed.

(** The outputs an OUTPUT command records.  The pieces between its
    parentheses are read in their order, each at its first equals sign; a
    name given more than once is recorded once, with the value of its last
    piece, and reading the pieces never raises. *)
Theorem output_keeps_last_value (pieces : list string) :
  exists outputs,
    parse_pairs pieces [] = Ok outputs /\
    List.NoDup (map fst outputs) /\
    forall key, dict_get outputs key = last_value pieces key.
Proof.
  destruct (parse_pairs_total pieces []) as [outputs H]. exists outputs.
  split; [exact H|]. apply parse_pairs_lookup in H as [Hnd Hget].
  split; [apply Hnd; constructor | exact Hget].
Qed.

Example output_keeps_last_value_sample :
  parse_command "OUTPUT(Vout=V,Iout=I,Vout=W=2,spare)"
  = Ok [Outputs [("Vout", "W=2"); ("Iout", "I")]].
Proof. reflexivity. Qed.

(** ** The inputs of a method *)

Lemma fill_inputs_lookup (inputs : list MethodInput) :
  forall input_widgets,
    forallb input_ok inputs = true ->
    exists filled,
      fill_inputs inputs input_widgets = (Filled, filled) /\
      forall var,
        filled !! var
        = fold_left
            (fun found inp =>
               match input_variable inp with
               | Some v => if String.eqb v var then Some (default_text inp) else found
               | None => found
               end)
            inputs (input_widgets !! var).
Proof.
  induction inputs as [|inp inputs IH]; intros input_widgets H;
    cbn [fill_inputs fold_left forallb] in *; [eauto|].
  apply andb_prop in H as [Hinp H]. unfold input_ok in Hinp.
  destruct (input_label inp) as [label|]; [|discriminate].
  destruct (input_variable inp) as [v|]; [|discriminate].
  destruct (IH (<[v := default_text inp]> input_widgets) H) as (filled & Hf & Hget).
  exists filled. split; [exact Hf|]. intros var. rewrite Hget. f_equal.
  destruct (String.eqb v var) eqn:E.
  - apply String.eqb_eq in E. subst. apply lookup_insert_eq.
  - apply String.eqb_neq in E. now apply lookup_insert_ne.
Qed.

(** Selecting a method whose inputs all have a label and a variable gives
    every variable the inputs declare an entry that holds the text of its
    default (of the last input on that variable, when several declare it)
    and no entry to any other variable; the Run button is made.  A run
    started from these entries therefore converts the declared default of
    a variable, and falls back to its built-in value only for a variable
    the method does not declare. *)
Theorem update_inputs_holds_the_defaults (inputs : list MethodInput) :
  forallb input_ok inputs = true ->
  exists input_widgets,
    update_inputs (Some inputs) = (Filled, input_widgets, true) /\
    (forall var, input_widgets !! var = declared_default inputs var) /\
    (forall (A : Type) (var : string) (conv : string -> result A) (fallback : A),
        entry_or input_widgets var conv fallback
        = match declared_default inputs var with
          | Some text => conv text
          | None => Ok fallback
          end).
Proof.
  intros H. destruct (fill_inputs_lookup inputs ∅ H) as (filled & Hf & Hget).
  exists filled. unfold update_inputs. rewrite Hf. split; [reflexivity|].
  assert (Hall : forall var, filled !! var = declared_default inputs var).
  { intros var. rewrite Hget. now rewrite lookup_empty. }
  split; [exact Hall|]. intros A var conv fallback. unfold entry_or. now rewrite Hall.
Qed.

(** An input without its label or its variable ends [update_inputs] with
    the [KeyError] of that key: the entries made so far stay, those of the
    inputs after it are not made, and neither is the Run button, so that
    the method cannot be run. *)
Theorem update_inputs_stops_at_a_missing_key (before after : list MethodInput)
    (inp : MethodInput) :
  forallb input_ok before = true ->
  input_ok inp = false ->
  exists key input_widgets,
    update_inputs (Some (before ++ inp :: after)) = (MissingKey key, input_widgets, false) /\
    update_inputs (Some before) = (Filled, input_widgets, true) /\
    key = match input_label inp with None => "label" | Some _ => "variable" end.
Proof.
  intros Hb Hinp. unfold update_inputs.
  assert (G : forall w, exists filled,
               fill_inputs before w = (Filled, filled) /\
               fill_inputs (before ++ inp :: after) w
               = (MissingKey (match input_label inp with
                              | None => "label"
                              | Some _ => "variable"
                              end), filled)).
  { induction before as [|b before IH]; intros w; cbn [fill_inputs app forallb] in *.
    - exists w. split; [reflexivity|]. unfold input_ok in Hinp.
      destruct (input_label inp); [|reflexivity].
      destruct (input_variable inp); [discriminate | reflexivity].
    - apply andb_prop in Hb as [Hb1 Hb]. unfold input_ok in Hb1.
      destruct (input_label b); [|discriminate].
      destruct (input_variable b) as [v|]; [|discriminate].
      apply (IH Hb). }
  destruct (G ∅) as (filled & H1 & H2). rewrite H1, H2. eauto.
Qed.

Lemma update_inputs_holds_the_defaults_witness :
  exists input_widgets,
    update_inputs (Some sweep_inputs) = (Filled, input_widgets, true) /\
    input_widgets !! "C" = Some "3" /\
    input_widgets !! "R" = None /\
    entry_or input_widgets "Vr" (to_float float_of_decimal) (1 # 10)%Q = Ok (5 # 10)%Q /\
    entry_or input_widgets "R" (to_int int_of_decimal) 1 = Ok 1.
Proof.
  destruct (update_inputs_holds_the_defaults sweep_inputs eq_refl) as (w & H1 & H2 & H3).
  exists w. split; [exact H1|]. split; [apply H2|]. split; [apply H2|].
  split; [apply (H3 Q) | apply (H3 Z)].
Defined.

Lemma update_inputs_stops_at_a_missing_key_witness :
  exists key input_widgets,
    update_inputs
      (Some (sweep_inputs ++
             {| input_label := Some "Readings"; input_variable := None;
                input_default := Some "1" |} :: sweep_inputs))
    = (MissingKey key, input_widgets, false) /\
    update_inputs (Some sweep_inputs) = (Filled, input_widgets, true) /\
    key = "variable".
Proof.
  apply (update_inputs_stops_at_a_missing_key sweep_inputs sweep_inputs
           {| input_label := Some "Readings"; input_variable := None;
              input_default := Some "1" |}); reflexivity.
Defined.

(** ** Blocks without a colon between them *)

Lemma first_paren_unique (x x' y y' : string) :
  string_forall (fun c => negb (c =? "(")%char) x = true ->
  string_forall (fun c => negb (c =? "(")%char) x' = true ->
  x +:+ String "(" y = x' +:+ String "(" y' -> x = x'.
Proof.
  revert x'. induction x as [|c x IH]; intros [|c' x'] Hx Hx' E;
    cbn [append string_forall] in *.
  - reflexivity.
  - injection E as <- _. apply andb_prop in Hx' as [Hc _]. discriminate Hc.
  - injection E as -> _. apply andb_prop in Hx as [Hc _]. discriminate Hc.
  - injection E as <- E. apply andb_prop in Hx as [_ Hx]. apply andb_prop in Hx' as [_ Hx'].
    f_equal. now apply IH.
Qed.

Lemma closing_before_opening (x x' y y' : string) :
  string_forall (fun c => negb (c =? "(")%char) x = true ->
  string_forall (fun c => negb (c =? ")")%char) x' = true ->
  x +:+ String ")" y = x' +:+ String "(" y' -> False.
Proof.
  revert x'. induction x as [|c x IH]; intros [|c' x'] Hx Hx' E;
    cbn [append string_forall] in *.
  - discriminate E.
  - injection E as <- _. apply andb_prop in Hx' as [Hc _]. discriminate Hc.
  - injection E as -> _. apply andb_prop in Hx as [Hc _]. discriminate Hc.
  - injection E as <- E. apply andb_prop in Hx as [_ Hx]. apply andb_prop in Hx' as [_ Hx'].
    now apply (IH x').
Qed.

(** The FOR_RANGEV pattern needs its keyword right before the first
    opening parenthesis of the text, and no closing one before it. *)
Lemma for_pattern_needs_keyword (x y : string) :
  string_forall (fun c => negb (c =? "(")%char) x = true ->
  x <> "FOR_RANGEV" ->
  Re.for_pattern (x +:+ String "(" y) = None.
Proof.
  intros Hx Hne. unfold Re.for_pattern.
  destruct (Re.lit "FOR_RANGEV(" _ (x +:+ String "(" y)) as [[a [b [c [body rest]]]]|] eqn:E;
    [exfalso | reflexivity].
  apply lit_inv in E as (r & E & _).
  change ("FOR_RANGEV(" +:+ r) with ("FOR_RANGEV" +:+ String "(" r) in E.
  apply Hne. now apply (first_paren_unique x "FOR_RANGEV" y r Hx eq_refl E).
Qed.

Lemma for_pattern_not_after_closing (x y : string) :
  string_forall (fun c => negb (c =? "(")%char) x = true ->
  Re.for_pattern (x +:+ String ")" y) = None.
Proof.
  intros Hx. unfold Re.for_pattern.
  destruct (Re.lit "FOR_RANGEV(" _ (x +:+ String ")" y)) as [[a [b [c [body rest]]]]|] eqn:E;
    [exfalso | reflexivity].
  apply lit_inv in E as (r & E & _).
  change ("FOR_RANGEV(" +:+ r) with ("FOR_RANGEV" +:+ String "(" r) in E.
  exact (closing_before_opening x "FOR_RANGEV" y r Hx eq_refl E).
Qed.

(** The scan for loops passes over a text that holds no opening
    parenthesis, up to the parenthesis that follows it. *)
Lemma findall_skips_to_opening (x y : string) :
  string_forall (fun c => negb (c =? "(")%char) x = true ->
  ends_with "FOR_RANGEV" x = false ->
  Re.findall_from Re.for_pattern (x +:+ String "(" y) 0
    = Re.findall_from Re.for_pattern y 0.
Proof.
  intros Hx He. induction x as [|c x IH].
  - cbn [append]. now rewrite findall_miss.
  - change (String c x +:+ String "(" y) with (String c (x +:+ String "(" y)).
    rewrite findall_miss.
    + cbn [string_forall ends_with] in Hx, He. apply andb_prop in Hx as [_ Hx].
      apply orb_false_elim in He as [_ He]. now apply IH.
    + change (String c (x +:+ String "(" y)) with (String c x +:+ String "(" y).
      apply for_pattern_needs_keyword; [exact Hx|].
      intros E. rewrite E in He. discriminate He.
Qed.

Lemma findall_skips_to_closing (x y : string) :
  string_forall (fun c => negb (c =? "(")%char) x = true ->
  Re.findall_from Re.for_pattern (x +:+ String ")" y) 0
    = Re.findall_from Re.for_pattern y 0.
Proof.
  intros Hx. induction x as [|c x IH].
  - cbn [append]. now rewrite findall_miss.
  - change (String c x +:+ String ")" y) with (String c (x +:+ String ")" y)).
    rewrite findall_miss.
    + cbn [string_forall] in Hx. apply andb_prop in Hx as [_ Hx]. now apply IH.
    + change (String c (x +:+ String ")" y)) with (String c x +:+ String ")" y).
      now apply for_pattern_not_after_closing.
Qed.

Lemma no_keyword_before_repeat (a : string) :
  ends_with "FOR_RANGEV" (a +:+ "REPEAT") = false.
Proof.
  induction a as [|c a IH]; [reflexivity|].
  change (String c a +:+ "REPEAT") with (String c (a +:+ "REPEAT")).
  cbn [ends_with]. rewrite IH, orb_false_r.
  apply String.eqb_neq. intros E.
  pose proof (f_equal String.length E) as Hlen. cbn [String.length] in Hlen.
  rewrite append_length in Hlen. cbn [String.length] in Hlen.
  destruct a as [|c1 [|c2 [|c3 [|c4 a]]]]; cbn [String.length] in Hlen; try lia.
  discriminate E.
Qed.

Lemma findall_loops_then (loops : list ForLoop) (tail : string) :
  forallb loop_ok loops = true ->
  Re.findall_from Re.for_pattern (loops_text loops +:+ tail) 0
    = map loop_fields loops ++ Re.findall_from Re.for_pattern tail 0.
Proof.
  unfold loops_text. induction loops as [|fl loops IH]; intros H; [reflexivity|].
  cbn [forallb] in H. apply andb_prop in H as [Hfl H].
  destruct loops as [|fl' loops].
  - cbn [map join app]. now rewrite findall_loop_step.
  - change (join ";" (map loop_text (fl :: fl' :: loops)))
      with (loop_text fl +:+ ";" +:+ join ";" (map loop_text (fl' :: loops))).
    rewrite !append_assoc, findall_loop_step by assumption.
    change (map loop_fields (fl :: fl' :: loops))
      with (loop_fields fl :: map loop_fields (fl' :: loops)).
    cbn [app]. f_equal.
    change (";" +:+ join ";" (map loop_text (fl' :: loops)) +:+ tail)
      with (String ";" (join ";" (map loop_text (fl' :: loops)) +:+ tail)).
    rewrite findall_miss by reflexivity.
    now apply IH.
Qed.

(** Two blocks with no colon between them are read as one.  When the text
    of a block is followed by the text of another with nothing, or only
    semicolons and plain characters, between them (two blocks on two
    lines, after the removal of the line feed), [parse_process] returns a
    single block: it repeats on the symbol of the first block and holds
    the loops of both, and the symbol of the second block is lost. *)
Theorem blocks_without_colon_merge (blk1 blk2 : RepeatBlock) (sep text : string) :
  repeat_block_ok blk1 = true ->
  repeat_block_ok blk2 = true ->
  string_forall (fun c => is_plain c || (c =? ";")%char) sep = true ->
  strip_layout text = program_text [blk1] +:+ sep +:+ program_text [blk2] ->
  parse_process text
  = Ok [{| repeats := repeats blk1; for_loops := for_loops blk1 ++ for_loops blk2 |}].
Proof.
  intros H1 H2 Hsep Htext.
  apply repeat_block_ok_parts in H1 as (Hne1 & Hw1 & Hl1).
  apply repeat_block_ok_parts in H2 as (Hne2 & Hw2 & Hl2).
  set (L1 := loops_text (for_loops blk1)) in *.
  set (L2 := loops_text (for_loops blk2)) in *.
  set (body := L1 +:+ "}" +:+ sep +:+ "REPEAT(" +:+ repeats blk2 +:+ "){" +:+ L2).
  assert (Hshape : program_text [blk1] +:+ sep +:+ program_text [blk2]
                   = blocks_text [(repeats blk1, body)]).
  { unfold program_text, program_blocks, blocks_text, block_text, body. cbn [map join fst snd].
    fold L1 L2. now rewrite !append_assoc. }
  assert (Hsep_chars : string_forall loop_char sep = true).
  { eapply string_forall_impl; [|exact Hsep]. clear. intros c H.
    destruct c as [[] [] [] [] [] [] [] []]; vm_compute in H |- *; congruence. }
  assert (Hv2 : string_forall loop_char (repeats blk2) = true).
  { apply command_is_loop_char, plain_command_char.
    eapply string_forall_impl; [apply word_is_plain | exact Hw2]. }
  assert (Hbody : string_forall loop_char body = true).
  { unfold body. rewrite !string_forall_app.
    unfold L1, L2. rewrite !loops_text_chars by assumption. now rewrite Hsep_chars, Hv2. }
  assert (Hloops : Re.findall Re.for_pattern body
                   = map loop_fields (for_loops blk1 ++ for_loops blk2)).
  { unfold Re.findall, body, L1. rewrite findall_loops_then by assumption.
    rewrite map_app. f_equal.
    change ("}" +:+ sep +:+ "REPEAT(" +:+ repeats blk2 +:+ "){" +:+ L2)
      with (String "}" (sep +:+ "REPEAT(" +:+ repeats blk2 +:+ "){" +:+ L2)).
    rewrite findall_miss by reflexivity.
    change (sep +:+ "REPEAT(" +:+ repeats blk2 +:+ "){" +:+ L2)
      with (sep +:+ "REPEAT" +:+ String "(" (repeats blk2 +:+ String ")" (String "{" L2))).
    rewrite <- append_assoc, findall_skips_to_opening.
    - rewrite findall_skips_to_closing.
      + rewrite findall_miss by reflexivity. exact (findall_loops _ Hl2).
      + eapply string_forall_impl; [|exact Hw2]. clear. intros c H.
        destruct c as [[] [] [] [] [] [] [] []]; vm_compute in H |- *; congruence.
    - rewrite string_forall_app. apply andb_true_intro. split; [|reflexivity].
      eapply string_forall_impl; [|exact Hsep]. clear. intros c H.
      destruct c as [[] [] [] [] [] [] [] []]; vm_compute in H |- *; congruence.
    - apply no_keyword_before_repeat. }
  unfold parse_process. rewrite Htext, Hshape, findall_blocks.
  - cbn [parse_repeat_matches]. unfold parse_for_loops. rewrite Hloops.
    rewrite (parse_for_blocks_text (for_loops blk1 ++ for_loops blk2) []).
    + reflexivity.
    + rewrite forallb_app. now rewrite Hl1, Hl2.
  - constructor; [|constructor]. unfold block_ok. cbn [fst snd].
    repeat split; try assumption. apply no_colon_no_close.
    eapply string_forall_impl; [|exact Hbody].
    intros c Hc. apply loop_char_facts in Hc as (_ & Hcolon & _). now rewrite Hcolon.
  - rewrite <- Hshape, <- Htext. apply strip_layout_no_LF.
Qed.

Lemma blocks_without_colon_merge_witness :
  parse_process
    ("REPEAT(A){FOR_RANGEV(Vi,Vf,Vr){MEAN(R)}}" +:+ nl +:+
     "REPEAT(B){FOR_RANGEV(Vf,Vi,Vr){DELAY(D)}}")
  = Ok [{| repeats := "A";
           for_loops :=
             [{| start := "Vi"; end_ := "Vf"; step := "Vr"; commands := [Mean "R"] |}]
             ++ [{| start := "Vf"; end_ := "Vi"; step := "Vr"; commands := [Delay "D"] |}] |}].
Proof.
  apply (blocks_without_colon_merge
           {| repeats := "A";
              for_loops := [{| start := "Vi"; end_ := "Vf"; step := "Vr";
                               commands := [Mean "R"] |}] |}
           {| repeats := "B";
              for_loops := [{| start := "Vf"; end_ := "Vi"; step := "Vr";
                               commands := [Delay "D"] |}] |}
           ""); reflexivity.
Defined.
